(** * LOGIC_SIM: the circuit engine and the library import, embedded in Rocq

    Source files covered:
    - [engine/CircuitEngine.ts]  (class [CircuitEngine])
    - [engine/types.ts], [engine/utils.ts], [engine/constants.ts]
    - [storage/index.ts]         ([importLibraryFromJSON], [saveToLibrary],
                                  [libraryItemToNodeTemplate])
    - [storage/circuitStore.ts]  ([saveCircuit], [loadCircuit],
                                  [deleteCircuit])
    - [components/Canvas.tsx]    (the wiring and rubber-band gestures)

    Modelling conventions.
    - A JS [Map] iterates in insertion order and the engine relies on that
      order (evaluation order, the order of packed members), so a [Map] is an
      association list with the [set]/[get]/[delete] behaviour of [Map].
    - A JS array of signals is a [list (option bool)]: [None] is a slot that
      holds no boolean (a hole, [undefined], or [null] after a JSON round
      trip); all three read as a falsy value everywhere the engine reads them.
      Writing past the end extends the array with holes, as JS does.
    - JS numbers used as counters and pin indices are [nat]; coordinates,
      sizes and time stamps are [Z] (no property below depends on fractions).
    - [Math.random]-based [generateId] draws from a stream [rng] carried by the
      engine state; [new Function] is a parameter [newFunction] that may fail;
      a write to the object store may be rejected (a parameter [accepts]).
    - [deepClone] is a JSON round trip: [cloneNode] on a node, the identity
      on a wire (strings, numbers and a boolean).
    - The UI call-backs ([onUpdateUI], [onSelectionChange]) do not touch the
      engine state, so [triggerUpdate] is the identity on it. *)

From Stdlib Require Import List String Ascii ZArith Bool Arith Lia Permutation.
From Stdlib Require Import DecimalString.
Import ListNotations.
Local Open Scope string_scope.
Local Open Scope list_scope.

Set Implicit Arguments.
Set Warnings "-register-all".

(* ================================================================== *)
(** ** JS values, arrays and maps *)

(** A JSON-like JS value, for the opaque [internalState] of an IC and for
    what a compiled IC body returns. *)
Inductive JsVal : Type :=
| VUndef
| VNull
| VBool (b : bool)
| VNum (z : Z)
| VStr (s : string)
| VArr (l : list JsVal)
| VObj (fields : list (string * JsVal)).

(** JS truthiness. *)
Definition jsTruthy (v : JsVal) : bool :=
  match v with
  | VUndef | VNull => false
  | VBool b => b
  | VNum z => negb (z =? 0)%Z
  | VStr s => negb (s =? "")
  | VArr _ | VObj _ => true
  end.

(** [v === 1]. *)
Definition isOne (v : JsVal) : bool :=
  match v with VNum 1 => true | _ => false end.

(** [JSON.parse(JSON.stringify(v))] on a value inside an array or object:
    [undefined] array elements become [null], [undefined] fields vanish. *)
Fixpoint jsonClone (v : JsVal) : JsVal :=
  match v with
  | VUndef => VNull
  | VArr l => VArr (map jsonClone l)
  | VObj fs =>
      VObj ((fix go (fs : list (string * JsVal)) :=
               match fs with
               | [] => []
               | (k, VUndef) :: r => go r
               | (k, w) :: r => (k, jsonClone w) :: go r
               end) fs)
  | _ => v
  end.

Section JsArray.
Variable A : Type.

(** [a[i]]: [None] when the slot is absent. *)
Definition arrGet (a : list (option A)) (i : nat) : option A :=
  nth i a None.

(** [a[i] = v]: in range replaces, out of range extends with holes. *)
Fixpoint arrSet (i : nat) (v : option A) (a : list (option A))
  : list (option A) :=
  match i, a with
  | O, [] => [v]
  | O, _ :: r => v :: r
  | S k, [] => None :: arrSet k v []
  | S k, h :: r => h :: arrSet k v r
  end.

(** [new Array(n)]: [n] holes. *)
Definition newArray (n : nat) : list (option A) := repeat None n.

(** [new Array(n).fill(v)] and [a.fill(v)]. *)
Definition fill (v : A) (a : list (option A)) : list (option A) :=
  map (fun _ => Some v) a.

(** [a.indexOf(v)] for a number [v]: the first slot strictly equal to it. *)
Fixpoint indexOf (eqb : A -> A -> bool) (v : A) (a : list (option A))
  : option nat :=
  match a with
  | [] => None
  | Some h :: r =>
      if eqb h v then Some O else option_map S (indexOf eqb v r)
  | None :: r => option_map S (indexOf eqb v r)
  end.
End JsArray.

Section JsMap.
Variable V : Type.

(** A JS [Map<string, V>], in insertion order. *)
Definition JsMap := list (string * V).

Fixpoint mapGet (k : string) (m : JsMap) : option V :=
  match m with
  | [] => None
  | (k', v) :: r => if k' =? k then Some v else mapGet k r
  end.

(** [m.set(k, v)]: an existing key keeps its place, a new key goes last. *)
Fixpoint mapSet (k : string) (v : V) (m : JsMap) : JsMap :=
  match m with
  | [] => [(k, v)]
  | (k', v') :: r =>
      if k' =? k then (k', v) :: r else (k', v') :: mapSet k v r
  end.

Definition mapDelete (k : string) (m : JsMap) : JsMap :=
  filter (fun kv => negb (fst kv =? k)) m.

Definition mapHas (k : string) (m : JsMap) : bool :=
  match mapGet k m with Some _ => true | None => false end.

Definition mapValues (m : JsMap) : list V := map snd m.

(** [m.forEach(v => mutate v)]: every value updated in place. *)
Definition mapForEach (f : V -> V) (m : JsMap) : JsMap :=
  map (fun kv => (fst kv, f (snd kv))) m.
End JsMap.

(** A JS [Set<string>], in insertion order. *)
Definition JsSet := list string.

Definition setHas (k : string) (s : JsSet) : bool :=
  existsb (String.eqb k) s.

Definition setAdd (k : string) (s : JsSet) : JsSet :=
  if setHas k s then s else s ++ [k].

Definition setDelete (k : string) (s : JsSet) : JsSet :=
  filter (fun k' => negb (k' =? k)) s.

(** A string used as a condition: the empty string is falsy. *)
Definition strTruthy (s : option string) : bool :=
  match s with Some t => negb (t =? "") | None => false end.

(* ================================================================== *)
(** ** Data model ([types.ts]) *)

Inductive NodeType : Type :=
| AND | OR | NOT | XOR | NAND | SWITCH | LIGHT | CLOCK | BUFFER | GROUP | IC.

Definition NodeType_eqb (a b : NodeType) : bool :=
  match a, b with
  | AND, AND | OR, OR | NOT, NOT | XOR, XOR | NAND, NAND | SWITCH, SWITCH
  | LIGHT, LIGHT | CLOCK, CLOCK | BUFFER, BUFFER | GROUP, GROUP | IC, IC => true
  | _, _ => false
  end.

Record Vector2 : Type := mkVector2 { px : Z; py : Z }.

Record Viewport : Type := mkViewport { vpx : Z; vpy : Z; zoom : Z }.

Record Wire : Type := mkWire {
  wireId : string;
  sourceNodeId : string;
  sourcePinIndex : nat;
  targetNodeId : string;
  targetPinIndex : nat;
  state : bool
}.

Record IOMap : Type := mkIOMap {
  io_inputs : list string;
  io_outputs : list string
}.

Definition Signals := list (option bool).

Inductive LogicNode : Type := mkNode {
  id : string;
  type : NodeType;
  position : Vector2;
  inputs : Signals;
  outputs : Signals;
  label : option string;
  color : option string;
  groupId : option string;
  width : option Z;
  height : option Z;
  inputCount : option nat;
  outputCount : option nat;
  truthTable : option (list (string * list Z));
  ioMap : option IOMap;
  internalState : option JsVal;
  inputMapping : option (list (option nat));
  outputMapping : option (list (option nat));
  compiledFunction : option string;
  equations : option (list string);
  internals : option (list LogicNode * list Wire)
}.

(** Field updates ([node.f = v]). *)
Definition set_inputs (v : Signals) (n : LogicNode) : LogicNode :=
  mkNode (id n) (type n) (position n) v (outputs n) (label n) (color n)
    (groupId n) (width n) (height n) (inputCount n) (outputCount n)
    (truthTable n) (ioMap n) (internalState n) (inputMapping n)
    (outputMapping n) (compiledFunction n) (equations n) (internals n).

Definition set_outputs (v : Signals) (n : LogicNode) : LogicNode :=
  mkNode (id n) (type n) (position n) (inputs n) v (label n) (color n)
    (groupId n) (width n) (height n) (inputCount n) (outputCount n)
    (truthTable n) (ioMap n) (internalState n) (inputMapping n)
    (outputMapping n) (compiledFunction n) (equations n) (internals n).

Definition set_groupId (v : option string) (n : LogicNode) : LogicNode :=
  mkNode (id n) (type n) (position n) (inputs n) (outputs n) (label n)
    (color n) v (width n) (height n) (inputCount n) (outputCount n)
    (truthTable n) (ioMap n) (internalState n) (inputMapping n)
    (outputMapping n) (compiledFunction n) (equations n) (internals n).

Definition set_internalState (v : option JsVal) (n : LogicNode) : LogicNode :=
  mkNode (id n) (type n) (position n) (inputs n) (outputs n) (label n)
    (color n) (groupId n) (width n) (height n) (inputCount n) (outputCount n)
    (truthTable n) (ioMap n) v (inputMapping n)
    (outputMapping n) (compiledFunction n) (equations n) (internals n).

Definition set_inputMapping (v : option (list (option nat))) (n : LogicNode)
  : LogicNode :=
  mkNode (id n) (type n) (position n) (inputs n) (outputs n) (label n)
    (color n) (groupId n) (width n) (height n) (inputCount n) (outputCount n)
    (truthTable n) (ioMap n) (internalState n) v
    (outputMapping n) (compiledFunction n) (equations n) (internals n).

Definition set_outputMapping (v : option (list (option nat))) (n : LogicNode)
  : LogicNode :=
  mkNode (id n) (type n) (position n) (inputs n) (outputs n) (label n)
    (color n) (groupId n) (width n) (height n) (inputCount n) (outputCount n)
    (truthTable n) (ioMap n) (internalState n) (inputMapping n)
    v (compiledFunction n) (equations n) (internals n).

(** [{...n, position: p, groupId: g}]. *)
Definition set_position_groupId (p : Vector2) (g : option string)
    (n : LogicNode) : LogicNode :=
  mkNode (id n) (type n) p (inputs n) (outputs n) (label n)
    (color n) g (width n) (height n) (inputCount n) (outputCount n)
    (truthTable n) (ioMap n) (internalState n) (inputMapping n)
    (outputMapping n) (compiledFunction n) (equations n) (internals n).

(** [{...n, id: i, groupId: g, position: p}]. *)
Definition set_id_position_groupId (i : string) (p : Vector2)
    (g : option string) (n : LogicNode) : LogicNode :=
  mkNode i (type n) p (inputs n) (outputs n) (label n)
    (color n) g (width n) (height n) (inputCount n) (outputCount n)
    (truthTable n) (ioMap n) (internalState n) (inputMapping n)
    (outputMapping n) (compiledFunction n) (equations n) (internals n).

(** A node as [addNode] and [createGroupFromSelection] build it: every
    optional field absent. *)
Definition plainNode (i : string) (t : NodeType) (p : Vector2)
    (ins outs : Signals) : LogicNode :=
  mkNode i t p ins outs None None None None None None None None None None
    None None None None None.

(* ================================================================== *)
(** ** Engine state ([class CircuitEngine]) *)

(** What a compiled IC body gives back when called with the mapped inputs and
    the prior state: an array (legacy bodies), an object with a truthy
    [outputs] array and a [state] field, anything else, or an exception. *)
Inductive FnResult : Type :=
| RetArray (vs : list JsVal)
| RetObject (outs : list JsVal) (st : option JsVal)
| RetOther
| Throws.

(** A callable made by [new Function('inputs', 'state', body)]. *)
Definition Fn : Type := Signals -> JsVal -> FnResult.

(** [JSON.stringify(this.serialize())]: the serialized graph. Two snapshots
    are the same string exactly when they are the same data. *)
Record Snapshot : Type := mkSnapshot {
  s_nodes : list LogicNode;
  s_wires : list Wire;
  s_viewport : Viewport
}.

Record CircuitEngine : Type := mkEngine {
  nodes : JsMap LogicNode;
  wires : list Wire;
  viewport : Viewport;
  selectedNodeIds : JsSet;
  selectedWireIds : JsSet;
  isRunning : bool;
  tickRate : Z;
  lastTick : Z;
  tickCount : nat;
  fnCache : JsMap Fn;
  clipboard : option (list LogicNode * list Wire);
  historyStack : list Snapshot;   (* top of the stack is the last element *)
  redoStack : list Snapshot;
  maxHistory : nat;
  isRestoringHistory : bool;
  rng : nat -> string;            (* the ids [generateId] will return *)
  rngPos : nat                    (* how many have been drawn *)
}.

Definition set_nodes (v : JsMap LogicNode) (e : CircuitEngine) :=
  mkEngine v (wires e) (viewport e) (selectedNodeIds e) (selectedWireIds e)
    (isRunning e) (tickRate e) (lastTick e) (tickCount e) (fnCache e)
    (clipboard e) (historyStack e) (redoStack e) (maxHistory e)
    (isRestoringHistory e) (rng e) (rngPos e).

Definition set_wires (v : list Wire) (e : CircuitEngine) :=
  mkEngine (nodes e) v (viewport e) (selectedNodeIds e) (selectedWireIds e)
    (isRunning e) (tickRate e) (lastTick e) (tickCount e) (fnCache e)
    (clipboard e) (historyStack e) (redoStack e) (maxHistory e)
    (isRestoringHistory e) (rng e) (rngPos e).

Definition set_viewport (v : Viewport) (e : CircuitEngine) :=
  mkEngine (nodes e) (wires e) v (selectedNodeIds e) (selectedWireIds e)
    (isRunning e) (tickRate e) (lastTick e) (tickCount e) (fnCache e)
    (clipboard e) (historyStack e) (redoStack e) (maxHistory e)
    (isRestoringHistory e) (rng e) (rngPos e).

Definition set_selectedNodeIds (v : JsSet) (e : CircuitEngine) :=
  mkEngine (nodes e) (wires e) (viewport e) v (selectedWireIds e)
    (isRunning e) (tickRate e) (lastTick e) (tickCount e) (fnCache e)
    (clipboard e) (historyStack e) (redoStack e) (maxHistory e)
    (isRestoringHistory e) (rng e) (rngPos e).

Definition set_selectedWireIds (v : JsSet) (e : CircuitEngine) :=
  mkEngine (nodes e) (wires e) (viewport e) (selectedNodeIds e) v
    (isRunning e) (tickRate e) (lastTick e) (tickCount e) (fnCache e)
    (clipboard e) (historyStack e) (redoStack e) (maxHistory e)
    (isRestoringHistory e) (rng e) (rngPos e).

Definition set_isRunning (v : bool) (e : CircuitEngine) :=
  mkEngine (nodes e) (wires e) (viewport e) (selectedNodeIds e)
    (selectedWireIds e) v (tickRate e) (lastTick e) (tickCount e) (fnCache e)
    (clipboard e) (historyStack e) (redoStack e) (maxHistory e)
    (isRestoringHistory e) (rng e) (rngPos e).

Definition set_lastTick (v : Z) (e : CircuitEngine) :=
  mkEngine (nodes e) (wires e) (viewport e) (selectedNodeIds e)
    (selectedWireIds e) (isRunning e) (tickRate e) v (tickCount e) (fnCache e)
    (clipboard e) (historyStack e) (redoStack e) (maxHistory e)
    (isRestoringHistory e) (rng e) (rngPos e).

Definition set_tickCount (v : nat) (e : CircuitEngine) :=
  mkEngine (nodes e) (wires e) (viewport e) (selectedNodeIds e)
    (selectedWireIds e) (isRunning e) (tickRate e) (lastTick e) v (fnCache e)
    (clipboard e) (historyStack e) (redoStack e) (maxHistory e)
    (isRestoringHistory e) (rng e) (rngPos e).

Definition set_fnCache (v : JsMap Fn) (e : CircuitEngine) :=
  mkEngine (nodes e) (wires e) (viewport e) (selectedNodeIds e)
    (selectedWireIds e) (isRunning e) (tickRate e) (lastTick e) (tickCount e)
    v (clipboard e) (historyStack e) (redoStack e) (maxHistory e)
    (isRestoringHistory e) (rng e) (rngPos e).

Definition set_clipboard (v : option (list LogicNode * list Wire))
    (e : CircuitEngine) :=
  mkEngine (nodes e) (wires e) (viewport e) (selectedNodeIds e)
    (selectedWireIds e) (isRunning e) (tickRate e) (lastTick e) (tickCount e)
    (fnCache e) v (historyStack e) (redoStack e) (maxHistory e)
    (isRestoringHistory e) (rng e) (rngPos e).

Definition set_historyStack (v : list Snapshot) (e : CircuitEngine) :=
  mkEngine (nodes e) (wires e) (viewport e) (selectedNodeIds e)
    (selectedWireIds e) (isRunning e) (tickRate e) (lastTick e) (tickCount e)
    (fnCache e) (clipboard e) v (redoStack e) (maxHistory e)
    (isRestoringHistory e) (rng e) (rngPos e).

Definition set_redoStack (v : list Snapshot) (e : CircuitEngine) :=
  mkEngine (nodes e) (wires e) (viewport e) (selectedNodeIds e)
    (selectedWireIds e) (isRunning e) (tickRate e) (lastTick e) (tickCount e)
    (fnCache e) (clipboard e) (historyStack e) v (maxHistory e)
    (isRestoringHistory e) (rng e) (rngPos e).

Definition set_isRestoringHistory (v : bool) (e : CircuitEngine) :=
  mkEngine (nodes e) (wires e) (viewport e) (selectedNodeIds e)
    (selectedWireIds e) (isRunning e) (tickRate e) (lastTick e) (tickCount e)
    (fnCache e) (clipboard e) (historyStack e) (redoStack e) (maxHistory e)
    v (rng e) (rngPos e).

Definition set_rngPos (v : nat) (e : CircuitEngine) :=
  mkEngine (nodes e) (wires e) (viewport e) (selectedNodeIds e)
    (selectedWireIds e) (isRunning e) (tickRate e) (lastTick e) (tickCount e)
    (fnCache e) (clipboard e) (historyStack e) (redoStack e) (maxHistory e)
    (isRestoringHistory e) (rng e) v.

(** [generateId()] ([utils.ts]): the next id of the random stream. *)
Definition generateId (e : CircuitEngine) : string * CircuitEngine :=
  (rng e (rngPos e), set_rngPos (S (rngPos e)) e).

(** How a call ends: normally, or by an exception that leaves the state as
    it was when the exception was raised. *)
Inductive Completion (A : Type) : Type :=
| Normal (a : A)
| Throw (a : A).

Definition completed {A} (c : Completion A) : A :=
  match c with Normal a => a | Throw a => a end.

Definition threw {A} (c : Completion A) : bool :=
  match c with Normal _ => false | Throw _ => true end.

(* ================================================================== *)
(** ** Simulation ([getInputCount], [getOutputCount], [tick]) *)

Definition getInputCount (t : NodeType) (node : option LogicNode) : nat :=
  match t, node with
  | IC, Some n =>
      match inputCount n with
      | Some c => c
      | None => 2
      end
  | _, _ =>
      match t with
      | NOT | BUFFER | LIGHT => 1
      | SWITCH | CLOCK | GROUP => 0
      | _ => 2
      end
  end.

Definition getOutputCount (t : NodeType) (node : option LogicNode) : nat :=
  match t, node with
  | IC, Some n =>
      match outputCount n with
      | Some c => c
      | None => 1
      end
  | _, _ =>
      match t with
      | LIGHT | GROUP => 0
      | _ => 1
      end
  end.

(** JS operators on a signal slot. *)
Definition truthy (o : option bool) : bool :=
  match o with Some true => true | _ => false end.

Definition jsAnd (a b : option bool) : option bool :=
  if truthy a then b else a.

Definition jsOr (a b : option bool) : option bool :=
  if truthy a then a else b.

Definition jsNot (a : option bool) : option bool :=
  Some (negb (truthy a)).

(** [(!!a !== !!b)]. *)
Definition jsXor (a b : option bool) : option bool :=
  Some (xorb (truthy a) (truthy b)).

(** [Math.floor(tickCount / 5) % 2 === 0]. *)
Definition clockLevel (tickCount : nat) : bool :=
  Nat.even (tickCount / 5).

(** Phase 1 of [tick], on one node. *)
Definition updateClock (tickCount : nat) (node : LogicNode) : LogicNode :=
  match type node with
  | CLOCK =>
      set_outputs (arrSet 0 (Some (clockLevel tickCount)) (outputs node)) node
  | _ => node
  end.

(** Phase 2 of [tick], on one node. *)
Definition resetInputs (node : LogicNode) : LogicNode :=
  match type node with
  | SWITCH | CLOCK => node
  | _ => set_inputs (fill false (inputs node)) node
  end.

Definition set_state (v : bool) (w : Wire) : Wire :=
  mkWire (wireId w) (sourceNodeId w) (sourcePinIndex w) (targetNodeId w)
    (targetPinIndex w) v.

(** Phase 3 of [tick], on one wire: a wire with a missing end is skipped. *)
Definition propagateWire (ns : JsMap LogicNode) (wire : Wire)
  : JsMap LogicNode * Wire :=
  match mapGet (sourceNodeId wire) ns, mapGet (targetNodeId wire) ns with
  | Some source, Some target =>
      let val := truthy (arrGet (outputs source) (sourcePinIndex wire)) in
      (mapSet (targetNodeId wire)
         (set_inputs (arrSet (targetPinIndex wire) (Some val) (inputs target))
            target) ns,
       set_state val wire)
  | _, _ => (ns, wire)
  end.

Fixpoint propagate (ns : JsMap LogicNode) (ws : list Wire)
  : JsMap LogicNode * list Wire :=
  match ws with
  | [] => (ns, [])
  | w :: r =>
      let (ns1, w1) := propagateWire ns w in
      let (ns2, r2) := propagate ns1 r in
      (ns2, w1 :: r2)
  end.

(** [a.forEach((v, k) => ...)] visits the slots that hold a value. *)
Definition indexed {A} (a : list A) : list (nat * A) :=
  combine (seq 0 (List.length a)) a.

(** Pins to ports: the array handed to the compiled body. *)
Definition mapInputs (node : LogicNode) : Signals :=
  let i := inputs node in
  let fresh := newArray bool (match inputCount node with Some c => c | None => 0 end) in
  match inputMapping node with
  | Some m =>
      fold_left
        (fun acc kv =>
           match snd kv with
           | Some portIdx => arrSet portIdx (arrGet i (fst kv)) acc
           | None => acc
           end)
        (indexed m) fresh
  | None =>
      fold_left (fun acc k => arrSet k (arrGet i k) acc)
        (seq 0 (List.length i)) fresh
  end.

(** Ports to pins, then [.map(v => v === 1)]; a pin never written stays a
    hole. A mapping is a [list (option nat)]: [None] stands for a slot
    without a port, and the loops skip it. The type does not tell a hole
    from a slot that holds [undefined] (left only by a remap of a pin past
    the end of the array): the code visits such a slot and the pin then
    reads [false], here it stays a hole. The properties below speak of slots
    that hold a port. *)
Definition mapOutputs (node : LogicNode) (outs : list JsVal) : Signals :=
  let fresh := newArray JsVal (match outputCount node with Some c => c | None => 0 end) in
  let mapped :=
    match outputMapping node with
    | Some m =>
        fold_left
          (fun acc kv =>
             match snd kv with
             | Some portIdx => arrSet (fst kv) (Some (nth portIdx outs VUndef)) acc
             | None => acc
             end)
          (indexed m) fresh
    | None =>
        fold_left (fun acc k => arrSet k (Some (nth k outs VUndef)) acc)
          (seq 0 (List.length outs)) fresh
    end in
  map (option_map isOne) mapped.

(** [i.map(b => b ? '1' : '0').join('')]; a hole joins as the empty string. *)
Fixpoint truthTableKey (i : Signals) : string :=
  match i with
  | [] => ""
  | Some true :: r => ("1" ++ truthTableKey r)%string
  | Some false :: r => ("0" ++ truthTableKey r)%string
  | None :: r => truthTableKey r
  end.

Fixpoint lookupKey {V} (k : string) (t : list (string * V)) : option V :=
  match t with
  | [] => None
  | (k', v) :: r => if k' =? k then Some v else lookupKey k r
  end.

Section Host.
(** [new Function('inputs', 'state', body)]: [None] when the body does not
    compile (a [SyntaxError]). *)
Variable newFunction : string -> option Fn.

(** Phase 4 of [tick], on one node, with the function cache. *)
Definition evalNode (cache : JsMap Fn) (node : LogicNode)
  : Completion (JsMap Fn * LogicNode) :=
  let i := inputs node in
  let out0 v := Normal (cache, set_outputs (arrSet 0 v (outputs node)) node) in
  match type node with
  | AND => out0 (jsAnd (arrGet i 0) (arrGet i 1))
  | OR => out0 (jsOr (arrGet i 0) (arrGet i 1))
  | NOT => out0 (jsNot (arrGet i 0))
  | NAND => out0 (jsNot (jsAnd (arrGet i 0) (arrGet i 1)))
  | XOR => out0 (jsXor (arrGet i 0) (arrGet i 1))
  | BUFFER => out0 (arrGet i 0)
  | IC =>
      if strTruthy (compiledFunction node) then
        let body := match compiledFunction node with Some b => b | None => "" end in
        let '(fn, cache1) :=
          match mapGet (id node) cache with
          | Some f => (Some f, cache)
          | None =>
              match newFunction body with
              | Some f => (Some f, mapSet (id node) f cache)
              | None => (None, cache)     (* caught, logged *)
              end
          end in
        match fn with
        | Some f =>
            let st :=
              match internalState node with
              | Some v => if jsTruthy v then v else VArr []
              | None => VArr []
              end in
            match f (mapInputs node) st with
            | RetArray vs =>
                Normal (cache1,
                        set_outputs (map (fun v => Some (isOne v)) vs) node)
            | RetObject outs st' =>
                Normal (cache1,
                        set_internalState st'
                          (set_outputs (mapOutputs node outs) node))
            | RetOther => Normal (cache1, node)
            | Throws => Throw (cache1, node)
            end
        | None => Normal (cache1, node)
        end
      else
        match truthTable node with
        | Some table =>
            match lookupKey (truthTableKey i) table with
            | Some bits =>
                Normal (cache,
                        set_outputs (map (fun bit => Some (bit =? 1)%Z) bits)
                          node)
            | None => Normal (cache, node)
            end
        | None => Normal (cache, node)
        end
  | SWITCH | LIGHT | CLOCK | GROUP => Normal (cache, node)
  end.

(** [this.nodes.forEach(node => ...)] of phase 4: an exception ends the
    loop, the nodes after the failing one are left as they were. *)
Fixpoint evalNodes (cache : JsMap Fn) (ns : JsMap LogicNode)
  : Completion (JsMap Fn * JsMap LogicNode) :=
  match ns with
  | [] => Normal (cache, [])
  | (k, node) :: r =>
      match evalNode cache node with
      | Normal (c1, node1) =>
          match evalNodes c1 r with
          | Normal (c2, r2) => Normal (c2, (k, node1) :: r2)
          | Throw (c2, r2) => Throw (c2, (k, node1) :: r2)
          end
      | Throw (c1, node1) => Throw (c1, (k, node1) :: r)
      end
  end.

Definition tick (timestamp : Z) (e : CircuitEngine)
  : Completion CircuitEngine :=
  if negb (isRunning e) && negb (timestamp =? -1)%Z then Normal e
  else if negb (timestamp =? -1)%Z
          && (timestamp - lastTick e <? tickRate e)%Z then Normal e
  else
    let e1 := set_tickCount (S (tickCount e)) (set_lastTick timestamp e) in
    let ns1 := mapForEach (updateClock (tickCount e1)) (nodes e1) in
    let ns2 := mapForEach resetInputs ns1 in
    let (ns3, ws) := propagate ns2 (wires e1) in
    let e3 := set_wires ws (set_nodes ns3 e1) in
    match evalNodes (fnCache e3) ns3 with
    | Normal (c, ns4) => Normal (set_fnCache c (set_nodes ns4 e3))
    | Throw (c, ns4) => Throw (set_fnCache c (set_nodes ns4 e3))
    end.

(** [toggleSwitch]: flip the output, and tick once if running. *)
Definition toggleSwitch (nodeId : string) (e : CircuitEngine)
  : Completion CircuitEngine :=
  match mapGet nodeId (nodes e) with
  | Some node =>
      match type node with
      | SWITCH =>
          let node1 :=
            set_outputs (arrSet 0 (jsNot (arrGet (outputs node) 0))
                           (outputs node)) node in
          let e1 := set_nodes (mapSet nodeId node1 (nodes e)) e in
          if isRunning e1 then tick (-1) e1 else Normal e1
      | _ => Normal e
      end
  | None => Normal e
  end.

(** [k] forced ticks in a row (a thrown exception does not stop the caller
    from ticking again). *)
Fixpoint forcedTicks (k : nat) (e : CircuitEngine) : CircuitEngine :=
  match k with
  | O => e
  | S j => forcedTicks j (completed (tick (-1) e))
  end.
End Host.

(* ================================================================== *)
(** ** History ([serialize], [deserialize], [saveState], [undo], [redo]) *)

(** Equality of serialized snapshots ([===] on the JSON strings). *)
Fixpoint JsVal_eq_dec (a b : JsVal) {struct a} : {a = b} + {a <> b}.
Proof.
  decide equality.
  - apply Bool.bool_dec.
  - apply Z.eq_dec.
  - apply string_dec.
  - apply (list_eq_dec JsVal_eq_dec).
  - refine (list_eq_dec _ fields fields0).
    intros [k1 v1] [k2 v2].
    destruct (string_dec k1 k2) as [Hk | Hk].
    + destruct (JsVal_eq_dec v1 v2) as [Hv | Hv].
      * left; congruence.
      * right; congruence.
    + right; congruence.
Defined.

Definition Wire_eq_dec (a b : Wire) : {a = b} + {a <> b}.
Proof.
  decide equality; auto using Bool.bool_dec, Nat.eq_dec, string_dec.
Defined.

Definition option_eq_dec {A} (d : forall a b : A, {a = b} + {a <> b})
  (a b : option A) : {a = b} + {a <> b}.
Proof. decide equality. Defined.

Definition prod_eq_dec {A B} (da : forall a b : A, {a = b} + {a <> b})
  (db : forall a b : B, {a = b} + {a <> b})
  (a b : A * B) : {a = b} + {a <> b}.
Proof. decide equality. Defined.

Definition Vector2_eq_dec (a b : Vector2) : {a = b} + {a <> b}.
Proof. decide equality; apply Z.eq_dec. Defined.

Definition Viewport_eq_dec (a b : Viewport) : {a = b} + {a <> b}.
Proof. decide equality; apply Z.eq_dec. Defined.

Definition IOMap_eq_dec (a b : IOMap) : {a = b} + {a <> b}.
Proof. decide equality; apply (list_eq_dec string_dec). Defined.

Definition NodeType_eq_dec (a b : NodeType) : {a = b} + {a <> b}.
Proof. decide equality. Defined.

Fixpoint LogicNode_eq_dec (a b : LogicNode) {struct a} : {a = b} + {a <> b}.
Proof.
  decide equality.
  - apply option_eq_dec, prod_eq_dec.
    + apply (list_eq_dec LogicNode_eq_dec).
    + apply (list_eq_dec Wire_eq_dec).
  - apply (option_eq_dec (list_eq_dec string_dec)).
  - apply (option_eq_dec string_dec).
  - apply (option_eq_dec (list_eq_dec (option_eq_dec Nat.eq_dec))).
  - apply (option_eq_dec (list_eq_dec (option_eq_dec Nat.eq_dec))).
  - apply (option_eq_dec JsVal_eq_dec).
  - apply (option_eq_dec IOMap_eq_dec).
  - apply (option_eq_dec
             (list_eq_dec (prod_eq_dec string_dec (list_eq_dec Z.eq_dec)))).
  - apply (option_eq_dec Nat.eq_dec).
  - apply (option_eq_dec Nat.eq_dec).
  - apply (option_eq_dec Z.eq_dec).
  - apply (option_eq_dec Z.eq_dec).
  - apply (option_eq_dec string_dec).
  - apply (option_eq_dec string_dec).
  - apply (option_eq_dec string_dec).
  - apply (list_eq_dec (option_eq_dec Bool.bool_dec)).
  - apply (list_eq_dec (option_eq_dec Bool.bool_dec)).
  - apply Vector2_eq_dec.
  - apply NodeType_eq_dec.
  - apply string_dec.
Defined.

Definition Snapshot_eq_dec (a b : Snapshot) : {a = b} + {a <> b}.
Proof.
  decide equality.
  - apply Viewport_eq_dec.
  - apply (list_eq_dec Wire_eq_dec).
  - apply (list_eq_dec LogicNode_eq_dec).
Defined.

Definition serialize (e : CircuitEngine) : Snapshot :=
  mkSnapshot (mapValues (nodes e)) (wires e) (viewport e).

(** [triggerUpdate] only calls the UI call-backs. *)
Definition triggerUpdate (e : CircuitEngine) : CircuitEngine := e.

Definition deserialize (data : Snapshot) (e : CircuitEngine) : CircuitEngine :=
  let e1 :=
    set_selectedWireIds [] (set_selectedNodeIds []
      (set_fnCache [] (set_nodes [] e))) in
  let ns := fold_left (fun m n => mapSet (id n) n m) (s_nodes data) (nodes e1) in
  triggerUpdate
    (set_viewport (s_viewport data) (set_wires (s_wires data) (set_nodes ns e1))).

(** The top of a stack kept as a JS array: its last element. *)
Definition top {A} (l : list A) : option A :=
  match rev l with
  | [] => None
  | t :: _ => Some t
  end.

Definition isTop (s : Snapshot) (l : list Snapshot) : bool :=
  match top l with
  | Some t => if Snapshot_eq_dec t s then true else false
  | None => false
  end.

Definition saveState (e : CircuitEngine) : CircuitEngine :=
  if isRestoringHistory e then e
  else
    let st := serialize e in
    if isTop st (historyStack e) then e
    else
      let h1 := historyStack e ++ [st] in
      let h2 := if (maxHistory e <? List.length h1)%nat then tl h1 else h1 in
      set_redoStack [] (set_historyStack h2 e).

Definition undo (e : CircuitEngine) : CircuitEngine :=
  if (List.length (historyStack e) <=? 1)%nat then e
  else
    match top (historyStack e) with
    | None => e
    | Some current =>
        let h1 := removelast (historyStack e) in
        let e1 := set_redoStack (redoStack e ++ [current])
                    (set_historyStack h1 e) in
        match top h1 with
        | None => e1
        | Some prev =>
            set_isRestoringHistory false
              (deserialize prev (set_isRestoringHistory true e1))
        end
    end.

Definition redo (e : CircuitEngine) : CircuitEngine :=
  match top (redoStack e) with
  | None => e
  | Some next =>
      let e1 := set_historyStack (historyStack e ++ [next])
                  (set_redoStack (removelast (redoStack e)) e) in
      set_isRestoringHistory false
        (deserialize next (set_isRestoringHistory true e1))
  end.

(* ================================================================== *)
(** ** Graph operations *)

(** [deepClone(node)] ([utils.ts]): a JSON round trip. Of the fields of a
    node only the opaque [internalState] can change under it ([undefined]
    inside an array becomes [null], an [undefined] field vanishes), here and
    in the nodes stored in [internals]. *)
Fixpoint cloneNode (n : LogicNode) : LogicNode :=
  match n with
  | mkNode i t p ins outs lbl col g w h ic oc table io st im om cf eqs intern =>
      mkNode i t p ins outs lbl col g w h ic oc table io
        match st with
        | Some VUndef => None
        | Some v => Some (jsonClone v)
        | None => None
        end
        im om cf eqs
        match intern with
        | Some (ns, ws) => Some (map cloneNode ns, ws)
        | None => None
        end
  end.

(** [deepClone(internals)]: the stored nodes cloned; a stored wire holds
    strings, numbers and a boolean only and is its own clone. *)
Definition cloneInternals (x : option (list LogicNode * list Wire))
  : option (list LogicNode * list Wire) :=
  match x with
  | Some (ns, ws) => Some (map cloneNode ns, ws)
  | None => None
  end.

(** The partial node [libraryItemToNodeTemplate] builds for a library IC. *)
Record Template : Type := mkTemplate {
  t_label : option string;
  t_inputCount : option nat;
  t_outputCount : option nat;
  t_width : option Z;
  t_height : option Z;
  t_truthTable : option (list (string * list Z));
  t_ioMap : option IOMap;
  t_compiledFunction : option string;
  t_equations : option (list string);
  t_internals : option (list LogicNode * list Wire)
}.

Definition addNode (t : NodeType) (pos : Vector2) (template : option Template)
    (e : CircuitEngine) : string * CircuitEngine :=
  let e1 := saveState e in
  let (i, e2) := generateId e1 in
  let newNode :=
    match template with
    | None =>
        plainNode i t pos
          (fill false (newArray bool (getInputCount t None)))
          (fill false (newArray bool (getOutputCount t None)))
    | Some tp =>
        let inCount :=
          match t, t_inputCount tp with
          | IC, Some c => c
          | _, _ => getInputCount t None
          end in
        let outCount :=
          match t, t_outputCount tp with
          | IC, Some c => c
          | _, _ => getOutputCount t None
          end in
        mkNode i t pos
          (fill false (newArray bool inCount))
          (fill false (newArray bool outCount))
          (t_label tp) None None (t_width tp) (t_height tp)
          (t_inputCount tp) (t_outputCount tp) (t_truthTable tp) (t_ioMap tp)
          None None None (t_compiledFunction tp) (t_equations tp)
          (cloneInternals (t_internals tp))
    end in
  (i, triggerUpdate (set_nodes (mapSet i newNode (nodes e2)) e2)).

(** [new CircuitEngine()]: the field initialisers, then the demo circuit. *)
Definition emptyEngine (r : nat -> string) : CircuitEngine :=
  mkEngine [] [] (mkViewport 0 0 1) [] [] false 100 0 0 [] None [] [] 50
    false r 0.

Definition newEngine (r : nat -> string) : CircuitEngine :=
  let e1 := snd (addNode SWITCH (mkVector2 100 100) None (emptyEngine r)) in
  let e2 := snd (addNode SWITCH (mkVector2 100 200) None e1) in
  let e3 := snd (addNode AND (mkVector2 300 150) None e2) in
  let e4 := snd (addNode LIGHT (mkVector2 500 150) None e3) in
  saveState e4.

Definition touches (i : string) (w : Wire) : bool :=
  (sourceNodeId w =? i) || (targetNodeId w =? i).

Definition clearGroupRef (i : string) (n : LogicNode) : LogicNode :=
  match groupId n with
  | Some g => if g =? i then set_groupId None n else n
  | None => n
  end.

Definition deleteSelected (e : CircuitEngine) : CircuitEngine :=
  match selectedNodeIds e, selectedWireIds e with
  | [], [] => e
  | _, _ =>
      let e1 := saveState e in
      let e2 :=
        fold_left
          (fun acc i =>
             set_fnCache (mapDelete i (fnCache acc))
               (set_nodes (mapForEach (clearGroupRef i)
                             (mapDelete i (nodes acc)))
                  (set_wires (filter (fun w => negb (touches i w)) (wires acc))
                     acc)))
          (selectedNodeIds e1) e1 in
      let e3 :=
        match selectedWireIds e2 with
        | [] => e2
        | sel =>
            set_wires (filter (fun w => negb (setHas (wireId w) sel)) (wires e2))
              e2
        end in
      triggerUpdate (set_selectedWireIds [] (set_selectedNodeIds [] e3))
  end.

(** [copy]: deep clones of the selected nodes and of the wires between
    them (a wire is its own clone). *)
Definition copy (e : CircuitEngine) : CircuitEngine :=
  match selectedNodeIds e with
  | [] => e
  | sel =>
      let ns :=
        flat_map (fun i => match mapGet i (nodes e) with
                           | Some n => [cloneNode n]
                           | None => []
                           end) sel in
      let ws :=
        filter (fun w => setHas (sourceNodeId w) sel
                         && setHas (targetNodeId w) sel) (wires e) in
      set_clipboard (Some (ns, ws)) e
  end.

Definition cut (e : CircuitEngine) : CircuitEngine :=
  deleteSelected (copy e).

(** [paste], per clipboard node: a clone under a fresh id, moved by the
    offset, detached from its group (the re-link loop that follows finds
    every [groupId] unset, so it changes nothing). *)
Definition pasteNode (acc : CircuitEngine * JsMap string * list LogicNode)
    (n : LogicNode) : CircuitEngine * JsMap string * list LogicNode :=
  let '(e, idMap, newNodes) := acc in
  let (newId, e1) := generateId e in
  let clone :=
    set_id_position_groupId newId
      (mkVector2 (px (position n) + 20) (py (position n) + 20)) None
      (cloneNode n) in
  (e1, mapSet (id n) newId idMap, newNodes ++ [clone]).

Definition pasteWire (idMap : JsMap string) (acc : CircuitEngine * list Wire)
    (w : Wire) : CircuitEngine * list Wire :=
  let (e, newWires) := acc in
  match mapGet (sourceNodeId w) idMap, mapGet (targetNodeId w) idMap with
  | Some s, Some t =>
      let (i, e1) := generateId e in
      (e1, newWires
           ++ [mkWire i s (sourcePinIndex w) t (targetPinIndex w) (state w)])
  | _, _ => acc
  end.

(** [paste] checkpoints before and after the change. *)
Definition paste (e : CircuitEngine) : CircuitEngine :=
  match clipboard e with
  | None => e
  | Some (cn, cw) =>
      let e1 := saveState e in
      let '(e2, idMap, newNodes) := fold_left pasteNode cn (e1, [], []) in
      let (e3, newWires) := fold_left (pasteWire idMap) cw (e2, []) in
      let e4 :=
        fold_left
          (fun acc n =>
             set_selectedNodeIds (setAdd (id n) (selectedNodeIds acc))
               (set_nodes (mapSet (id n) n (nodes acc)) acc))
          newNodes (set_selectedNodeIds [] e3) in
      let e5 := set_wires (wires e4 ++ newWires) e4 in
      saveState (triggerUpdate e5)
  end.

(** The canvas gesture that ends a wire on an input pin ([Canvas.tsx],
    [handlePointerUp]): push the wire, checkpoint, force one tick. *)
Definition connectPins (newFunction : string -> option Fn)
    (src : string) (srcPin : nat) (tgt : string) (tgtPin : nat)
    (e : CircuitEngine) : Completion CircuitEngine :=
  if tgt =? src then Normal e
  else
    let (i, e1) := generateId e in
    let e2 := set_wires (wires e1 ++ [mkWire i src srcPin tgt tgtPin false]) e1 in
    tick newFunction (-1) (saveState e2).

Definition DEF_GATE_W : Z := 60.
Definition DEF_GATE_H : Z := 40.

(** A size used as a condition: absent and [0] are falsy. *)
Definition orDefault (v : option Z) (d : Z) : Z :=
  match v with
  | Some z => if (z =? 0)%Z then d else z
  | None => d
  end.

Definition getNodeDimensions (node : LogicNode) : Z * Z :=
  match type node with
  | BUFFER | NOT => (40, 30)%Z
  | GROUP | IC => (orDefault (width node) 100, orDefault (height node) 100)
  | _ => (DEF_GATE_W, DEF_GATE_H)
  end.

(** The bounding box [(minX, minY, maxX, maxY)] of some nodes; [None] when
    there is none (the bounds stay at [Infinity] and [-Infinity]). Halves are
    integer quotients. *)
Definition boundingBox (ns : list LogicNode) : option (Z * Z * Z * Z) :=
  fold_left
    (fun acc n =>
       let '(w, h) := getNodeDimensions n in
       let x0 := (px (position n) - w / 2)%Z in
       let y0 := (py (position n) - h / 2)%Z in
       let x1 := (px (position n) + w / 2)%Z in
       let y1 := (py (position n) + h / 2)%Z in
       match acc with
       | None => Some (x0, y0, x1, y1)
       | Some (a, b, c, d) =>
           Some (Z.min a x0, Z.min b y0, Z.max c x1, Z.max d y1)
       end)
    ns None.

Definition hasGroupId (g : string) (n : LogicNode) : bool :=
  match groupId n with
  | Some g' => g' =? g
  | None => false
  end.

Definition isType (t : NodeType) (n : LogicNode) : bool :=
  NodeType_eqb (type n) t.

(** The selected ids that name a node, with that node. *)
Definition selectedNodes (e : CircuitEngine) : list LogicNode :=
  flat_map (fun i => match mapGet i (nodes e) with
                     | Some n => [n]
                     | None => []
                     end) (selectedNodeIds e).

(** [createGroupFromSelection]. Coordinates are integers here, so
    [width / 2] and [height / 2] are quotients: on an odd span the code puts
    the centre of the new group half a unit further (145.5 for 145). Size,
    membership and selection are exact; no property below reads the centre
    of a group created over an odd span. *)
Definition createGroupFromSelection (e : CircuitEngine) : CircuitEngine :=
  match selectedNodeIds e with
  | [] => e
  | _ =>
      let e1 := saveState e in
      let members := filter (fun n => negb (isType GROUP n)) (selectedNodes e1) in
      match boundingBox members with
      | None => e1
      | Some (minX, minY, maxX, maxY) =>
          let padding := 30%Z in
          let w := ((maxX - minX) + padding * 2)%Z in
          let h := ((maxY - minY) + padding * 2)%Z in
          let centerX := (minX - padding + w / 2)%Z in
          let centerY := (minY - padding + h / 2)%Z in
          let (g, e2) := generateId e1 in
          let group :=
            mkNode g GROUP (mkVector2 centerX centerY) [] [] (Some "Group")
              None None (Some w) (Some h) None None None None None None None
              None None None in
          let ns1 := mapSet g group (nodes e2) in
          let ns2 :=
            fold_left
              (fun m i =>
                 match mapGet i m with
                 | Some n =>
                     if isType GROUP n then m
                     else mapSet i (set_groupId (Some g) n) m
                 | None => m
                 end)
              (selectedNodeIds e2) ns1 in
          let sel :=
            fold_left (fun s n => if hasGroupId g n then setAdd (id n) s else s)
              (mapValues ns2) [g] in
          triggerUpdate (set_selectedNodeIds sel (set_nodes ns2 e2))
      end
  end.

(* ================================================================== *)
(** ** Pack: a group becomes an IC ([packGroupToIC]) *)

Local Infix "^^" := String.append (at level 60, right associativity).

(** [`${n}`] for a count or an index. *)
Definition showNat (n : nat) : string :=
  NilZero.string_of_uint (Nat.to_uint n).

(** [`${a.indexOf(x)}`]: [-1] when absent. *)
Definition showIndex (i : option nat) : string :=
  match i with
  | Some n => showNat n
  | None => "-1"
  end.

(** [s.replace(/-/g, '_')]. *)
Fixpoint dashToUnderscore (s : string) : string :=
  match s with
  | EmptyString => EmptyString
  | String c r =>
      String (if Ascii.eqb c "-" then "_"%char else c) (dashToUnderscore r)
  end.

(** [l.join(sep)]. *)
Definition join (sep : string) (l : list string) : string :=
  String.concat sep l.

(** [a.sort(cmp)] is stable: equal keys keep their order. *)
Fixpoint insertBy {A} (le : A -> A -> bool) (x : A) (l : list A) : list A :=
  match l with
  | [] => [x]
  | h :: r => if le h x then h :: insertBy le x r else x :: h :: r
  end.

Definition sortBy {A} (le : A -> A -> bool) (l : list A) : list A :=
  fold_left (fun acc x => insertBy le x acc) l [].

Definition byY (a b : LogicNode) : bool :=
  (py (position a) <=? py (position b))%Z.

Definition byTargetPin (a b : Wire) : bool :=
  (targetPinIndex a <=? targetPinIndex b)%nat.

(** [l.some(n => n.id === i)]. *)
Definition hasId (i : string) (l : list LogicNode) : bool :=
  existsb (fun n => id n =? i) l.

(** [l.indexOf(x)] for a node of [l] (its ids are distinct). *)
Fixpoint indexOfNode (x : LogicNode) (l : list LogicNode) : option nat :=
  match l with
  | [] => None
  | h :: r => if id h =? id x then Some O else option_map S (indexOfNode x r)
  end.

Definition isInternalWire (members : list LogicNode) (w : Wire) : bool :=
  hasId (sourceNodeId w) members && hasId (targetNodeId w) members.

Section CodeGen.
Variables members inputNodes stateNodes : list LogicNode.
Variable internalWires : list Wire.

(** [varMap.get(i)], printed in a template ([undefined] when absent). *)
Definition varMapGet (i : string) : option string :=
  if hasId i stateNodes then Some ("v_" ^^ dashToUnderscore i) else None.

Definition showVar (v : option string) : string :=
  match v with
  | Some s => s
  | None => "undefined"
  end.

Definition funcNameOf (n : LogicNode) : string :=
  "func_" ^^ dashToUnderscore (id n).

(** The expression that reads what drives wire [w]. *)
Definition sourceExpr (w : Wire) : string :=
  let fallback :=
    match varMapGet (sourceNodeId w) with
    | Some s => if s =? "" then "0" else s
    | None => "0"
    end in
  match find (fun x => id x =? sourceNodeId w) members with
  | Some src =>
      match type src with
      | SWITCH =>
          "(inputs[" ^^ showIndex (indexOfNode src inputNodes) ^^ "] ? 1 : 0)"
      | IC =>
          showVar (varMapGet (id src)) ^^ "_out["
            ^^ showNat (sourcePinIndex w) ^^ "]"
      | _ => fallback
      end
  | None => fallback
  end.

(** [getInVal(idx)] for the state node [n]. *)
Definition getInVal (n : LogicNode) (idx : nat) : string :=
  let myInWires :=
    sortBy byTargetPin
      (filter (fun w => targetNodeId w =? id n) internalWires) in
  match find (fun wi => (targetPinIndex wi =? idx)%nat) myInWires with
  | Some w => sourceExpr w
  | None => "0"
  end.

Definition countOr0 (c : option nat) : nat :=
  match c with Some k => k | None => 0 end.

(** The definition injected for a nested IC. *)
Definition nestedLines (ic : LogicNode) : list string :=
  if strTruthy (compiledFunction ic) then
    [ "const " ^^ funcNameOf ic ^^ " = (inputs, state) => {";
      match compiledFunction ic with Some b => b | None => "" end;
      "};" ]
  else
    [ "const " ^^ funcNameOf ic
        ^^ " = (inputs, state) => ({ outputs: new Array("
        ^^ showNat (countOr0 (outputCount ic))
        ^^ ").fill(0), state: state || [] });" ].

Definition unpackLines (kn : nat * LogicNode) : list string :=
  let (i, n) := kn in
  let v := showVar (varMapGet (id n)) in
  match type n with
  | IC =>
      [ "let " ^^ v ^^ "_state = state[" ^^ showNat i
          ^^ "] !== undefined ? state[" ^^ showNat i ^^ "] : [];";
        "let " ^^ v ^^ "_out = new Array("
          ^^ showNat (countOr0 (outputCount n)) ^^ ").fill(0);" ]
  | _ =>
      [ "let " ^^ v ^^ " = state[" ^^ showNat i
          ^^ "] !== undefined ? state[" ^^ showNat i ^^ "] : 0;" ]
  end.

Definition updateLines (n : LogicNode) : list string :=
  let v := showVar (varMapGet (id n)) in
  match type n with
  | IC =>
      let inputExprs := map (getInVal n) (seq 0 (countOr0 (inputCount n))) in
      [ "  const res_" ^^ v ^^ " = " ^^ funcNameOf n ^^ "(["
          ^^ join ", " inputExprs ^^ "], " ^^ v ^^ "_state);";
        "  " ^^ v ^^ "_state = res_" ^^ v ^^ ".state;";
        "  " ^^ v ^^ "_out = res_" ^^ v ^^ ".outputs;" ]
  | _ =>
      let expr :=
        match type n with
        | AND => "((" ^^ getInVal n 0 ^^ " + " ^^ getInVal n 1 ^^ ") == 2 ? 1 : 0)"
        | OR => "((" ^^ getInVal n 0 ^^ " + " ^^ getInVal n 1 ^^ ") > 0 ? 1 : 0)"
        | NOT => "(" ^^ getInVal n 0 ^^ " == 0 ? 1 : 0)"
        | NAND => "((" ^^ getInVal n 0 ^^ " + " ^^ getInVal n 1 ^^ ") < 2 ? 1 : 0)"
        | XOR => "(" ^^ getInVal n 0 ^^ " != " ^^ getInVal n 1 ^^ " ? 1 : 0)"
        | BUFFER => getInVal n 0
        | _ => "0"
        end in
      [ "  " ^^ v ^^ " = " ^^ expr ^^ ";" ]
  end.

Definition stateSlot (n : LogicNode) : string :=
  let v := showVar (varMapGet (id n)) in
  match type n with
  | IC => v ^^ "_state"
  | _ => v
  end.

Definition outputExpr (o : LogicNode) : string :=
  match find (fun wi => targetNodeId wi =? id o) internalWires with
  | Some w => sourceExpr w
  | None => "0"
  end.

(** The generated body: [lines.join('\n')]. *)
Definition compiledFnBody (outputNodes : list LogicNode) : string :=
  let lines :=
    flat_map nestedLines (filter (isType IC) members)
    ++ [ "// Unpack state" ]
    ++ flat_map unpackLines (indexed stateNodes)
    ++ [ "for(let iter=0; iter<10; iter++) {" ]
    ++ flat_map updateLines stateNodes
    ++ [ "}" ]
    ++ [ "const newState = [" ^^ join ", " (map stateSlot stateNodes) ^^ "];" ]
    ++ [ "return { outputs: [" ^^ join ", " (map outputExpr outputNodes)
           ^^ "], state: newState };" ] in
  join (String (ascii_of_nat 10) EmptyString) lines.
End CodeGen.

(** [array.find(id => this.nodes.get(id)?.type === t)] over the selection. *)
Definition findSelected (t : NodeType) (e : CircuitEngine) : option string :=
  find (fun i => match mapGet i (nodes e) with
                 | Some n => isType t n
                 | None => false
                 end) (selectedNodeIds e).

Definition labelOr (l : option string) (d : string) : string :=
  match l with
  | Some s => if s =? "" then d else s
  | None => d
  end.

Definition packGroupToIC (e : CircuitEngine) : CircuitEngine :=
  match findSelected GROUP e with
  | None => e
  | Some g =>
      if g =? "" then e
      else
        match mapGet g (nodes e) with
        | None => e
        | Some groupNode =>
            let members := filter (hasGroupId g) (mapValues (nodes e)) in
            let inputNodes := sortBy byY (filter (isType SWITCH) members) in
            let outputNodes := sortBy byY (filter (isType LIGHT) members) in
            match inputNodes, outputNodes with
            | [], [] => e       (* console.warn *)
            | _, _ =>
                let e1 := saveState e in
                let stateNodes :=
                  filter (fun n => negb (isType SWITCH n)) members in
                let internalWires :=
                  filter (isInternalWire members) (wires e1) in
                let body :=
                  compiledFnBody members inputNodes stateNodes internalWires
                    outputNodes in
                let storedNodes :=
                  map (fun n =>
                         set_position_groupId
                           (mkVector2
                              (px (position n) - px (position groupNode))
                              (py (position n) - py (position groupNode)))
                           None n) members in
                let storedWires :=
                  filter (isInternalWire members) (wires e1) in
                let nIn := List.length inputNodes in
                let nOut := List.length outputNodes in
                let icNode :=
                  mkNode g IC (position groupNode)
                    (fill false (newArray bool nIn))
                    (fill false (newArray bool nOut))
                    (Some (labelOr (label groupNode) "Chip"))
                    None None
                    (Some 100%Z)
                    (Some (Z.of_nat (Nat.max nIn nOut) * 20 + 40)%Z)
                    (Some nIn) (Some nOut)
                    None
                    (Some (mkIOMap
                             (map (fun kn => labelOr (label (snd kn))
                                               ("In " ^^ showNat (fst kn)))
                                (indexed inputNodes))
                             (map (fun kn => labelOr (label (snd kn))
                                               ("Out " ^^ showNat (fst kn)))
                                (indexed outputNodes))))
                    (Some (VArr
                             (map (fun n =>
                                     match type n with
                                     | IC =>
                                         match internalState n with
                                         | Some v =>
                                             if jsTruthy v then jsonClone v
                                             else VArr []
                                         | None => VArr []
                                         end
                                     | _ => VNum 0
                                     end) stateNodes)))
                    (Some (map Some (seq 0 nIn)))
                    (Some (map Some (seq 0 nOut)))
                    (Some body)
                    (Some [])
                    (Some (storedNodes, storedWires)) in
                let ns1 :=
                  fold_left (fun m n => mapDelete (id n) m) members (nodes e1) in
                let ns2 := mapDelete g ns1 in
                let ws :=
                  filter (fun w => negb (hasId (sourceNodeId w) members)
                                   && negb (hasId (targetNodeId w) members))
                    (wires e1) in
                triggerUpdate
                  (set_selectedNodeIds [g]
                     (set_nodes (mapSet g icNode ns2) (set_wires ws e1)))
            end
        end
  end.

(* ================================================================== *)
(** ** Unpack: an IC becomes a group again ([unpackICToGroup]) *)

(** Re-instantiate the stored nodes: a fresh id each, recorded in [idMap]. *)
Definition unpackNode (groupId : string) (icPos : Vector2)
    (acc : CircuitEngine * JsMap string) (n : LogicNode)
  : CircuitEngine * JsMap string :=
  let (e, idMap) := acc in
  let (newId, e1) := generateId e in
  let node :=
    set_id_position_groupId newId
      (mkVector2 (px icPos + px (position n)) (py icPos + py (position n)))
      (Some groupId) n in
  (set_nodes (mapSet newId node (nodes e1)) e1, mapSet (id n) newId idMap).

(** Re-instantiate a stored wire when both its ends were re-instantiated. *)
Definition unpackWire (idMap : JsMap string) (e : CircuitEngine) (w : Wire)
  : CircuitEngine :=
  match mapGet (sourceNodeId w) idMap, mapGet (targetNodeId w) idMap with
  | Some s, Some t =>
      let (i, e1) := generateId e in
      set_wires
        (wires e1 ++ [mkWire i s (sourcePinIndex w) t (targetPinIndex w) false])
        e1
  | _, _ => e
  end.

Definition unpackICToGroup (e : CircuitEngine) : CircuitEngine :=
  match findSelected IC e with
  | None => e
  | Some icId =>
      if icId =? "" then e
      else
        match mapGet icId (nodes e) with
        | None => e
        | Some icNode =>
            match internals icNode with
            | None => e
            | Some (storedNodes, storedWires) =>
                let e1 := saveState e in
                let (groupId, e2) := generateId e1 in
                let groupPadding := 40%Z in
                let size :=
                  match boundingBox storedNodes with
                  | Some (minX, minY, maxX, maxY) =>
                      (Some ((maxX - minX) + groupPadding * 2)%Z,
                       Some ((maxY - minY) + groupPadding * 2)%Z)
                  | None => (None, None)      (* not finite *)
                  end in
                let group :=
                  mkNode groupId GROUP (position icNode) [] []
                    (Some (labelOr (label icNode) "Unpacked")) None None
                    (fst size) (snd size) None None None None None None None
                    None None None in
                let e3 := set_nodes (mapSet groupId group (nodes e2)) e2 in
                let (e4, idMap) :=
                  fold_left (unpackNode groupId (position icNode)) storedNodes
                    (e3, []) in
                let e5 := fold_left (unpackWire idMap) storedWires e4 in
                let e6 :=
                  set_fnCache (mapDelete icId (fnCache e5))
                    (set_nodes (mapDelete icId (nodes e5)) e5) in
                let sel :=
                  fold_left
                    (fun s n => if hasGroupId groupId n then setAdd (id n) s else s)
                    (mapValues (nodes e6)) [groupId] in
                triggerUpdate (set_selectedNodeIds sel e6)
            end
        end
  end.

(* ================================================================== *)
(** ** Pin remapping ([updateIOMapping]) *)

Inductive PinKind : Type := input | output.

(** The block [updateIOMapping] runs on the mapping of one direction:
    build the identity if unset, then swap. *)
Definition remapPin (count : option nat) (mapping : option (list (option nat)))
    (pinIndex portIndex : nat) : list (option nat) :=
  let m :=
    match mapping with
    | Some m => m
    | None => map Some (seq 0 (countOr0 count))
    end in
  let oldPort := arrGet m pinIndex in
  let m1 :=
    match indexOf Nat.eqb portIndex m with
    | Some otherPinIndex =>
        if (otherPinIndex =? pinIndex)%nat then m
        else arrSet otherPinIndex oldPort m
    | None => m
    end in
  arrSet pinIndex (Some portIndex) m1.

Definition updateIOMapping (nodeId : string) (kind : PinKind)
    (pinIndex portIndex : nat) (e : CircuitEngine) : CircuitEngine :=
  match mapGet nodeId (nodes e) with
  | None => e
  | Some node0 =>
      match type node0 with
      | IC =>
          let e1 := saveState e in
          let node1 :=
            match kind with
            | input =>
                set_inputMapping
                  (Some (remapPin (inputCount node0) (inputMapping node0)
                           pinIndex portIndex)) node0
            | output =>
                set_outputMapping
                  (Some (remapPin (outputCount node0) (outputMapping node0)
                           pinIndex portIndex)) node0
            end in
          triggerUpdate (set_nodes (mapSet nodeId node1 (nodes e1)) e1)
      | _ => e
      end
  end.

(* ================================================================== *)
(** ** Library import ([storage/index.ts], [importLibraryFromJSON]) *)

Module Storage.







End Storage.

(* ================================================================== *)
(** ** Vocabulary of the properties *)

(** The documented per-type rule of the six gates. *)
Definition gateRule (t : NodeType) (a b : bool) : bool :=
  match t with
  | AND => a && b
  | OR => a || b
  | NOT => negb a
  | NAND => negb (a && b)
  | XOR => xorb a b
  | BUFFER => a
  | _ => false
  end.

Definition isGate (t : NodeType) : bool :=
  match t with
  | AND | OR | NOT | NAND | XOR | BUFFER => true
  | _ => false
  end.

(** The gates that read two input pins. *)
Definition isBinaryGate (t : NodeType) : bool :=
  match t with
  | AND | OR | NAND | XOR => true
  | _ => false
  end.

(** Ids for the worked examples: [n0], [n1], ... *)
Definition exampleIds (k : nat) : string := "n" ^^ showNat k.

(** A host whose [new Function] rejects every body. *)
Definition noCompile : string -> option Fn := fun _ => None.

(** The node stored under a key (a node of no pins when there is none). *)
Definition nodeAt (k : string) (e : CircuitEngine) : LogicNode :=
  match mapGet k (nodes e) with
  | Some n => n
  | None => plainNode "" GROUP (mkVector2 0 0) [] []
  end.

(** The demo circuit of the constructor, wired as the canvas does it:
    SWITCH [n0] and SWITCH [n1] into AND [n2], AND into LIGHT [n3]. *)
Definition demoWired : CircuitEngine :=
  let e1 := completed (connectPins noCompile "n0" 0 "n2" 0 (newEngine exampleIds)) in
  let e2 := completed (connectPins noCompile "n1" 0 "n2" 1 e1) in
  completed (connectPins noCompile "n2" 0 "n3" 0 e2).

(** Both switches of an engine toggled, first [a] then [b]. *)
Definition toggleBoth (nf : string -> option Fn) (a b : string)
    (e : CircuitEngine) : CircuitEngine :=
  completed (toggleSwitch nf b (completed (toggleSwitch nf a e))).

(** What a wire carries in a node map, and whether both its ends exist. *)
Definition wireValue (ns : JsMap LogicNode) (w : Wire) : bool :=
  match mapGet (sourceNodeId w) ns with
  | Some s => truthy (arrGet (outputs s) (sourcePinIndex w))
  | None => false
  end.

Definition wireLive (ns : JsMap LogicNode) (w : Wire) : bool :=
  mapHas (sourceNodeId w) ns && mapHas (targetNodeId w) ns.

(** What one wire does to the inputs of the node stored under [k]. *)
Definition drive (ns : JsMap LogicNode) (k : string) (acc : Signals) (w : Wire)
  : Signals :=
  if wireLive ns w && (targetNodeId w =? k)
  then arrSet (targetPinIndex w) (Some (wireValue ns w)) acc
  else acc.

(** Propagation consistency as the specification words it: after one forced
    tick the target input equals the source output as it stood before. *)
Definition propagationConsistent (nf : string -> option Fn)
    (e : CircuitEngine) (w : Wire) : Prop :=
  forall a b,
    mapGet (sourceNodeId w) (nodes e) = Some a ->
    mapGet (targetNodeId w) (nodes e) = Some b ->
    arrGet (inputs (nodeAt (targetNodeId w) (completed (tick nf (-1) e))))
      (targetPinIndex w)
    = arrGet (outputs a) (sourcePinIndex w).

(** The demo circuit with a CLOCK [n4] wired to the LIGHT [n3] (wire [n5]),
    after three more forced ticks: the tick counter stands at 4. *)
Definition clockDemo : CircuitEngine :=
  let e1 := snd (addNode CLOCK (mkVector2 100 300) None (newEngine exampleIds)) in
  let e2 := completed (connectPins noCompile "n4" 0 "n3" 0 e1) in
  forcedTicks noCompile 3 e2.

(** Two switches wired to the same input pin of the AND gate: [n0] (on)
    first, [n1] (off) second. *)
Definition twoDrivers : CircuitEngine :=
  let e0 := completed (toggleSwitch noCompile "n0" (newEngine exampleIds)) in
  let e1 := completed (connectPins noCompile "n0" 0 "n2" 0 e0) in
  completed (connectPins noCompile "n1" 0 "n2" 0 e1).

(** Two node maps that differ in inputs only. *)
Definition sameButInputs (ns ns' : JsMap LogicNode) : Prop :=
  forall k, exists f,
    mapGet k ns' = option_map (fun n => set_inputs (f n) n) (mapGet k ns).

(** The wires of the worked examples. *)
Definition clockWire : Wire := mkWire "n5" "n4" 0 "n3" 0 true.
Definition firstDriver : Wire := mkWire "n4" "n0" 0 "n2" 0 true.

(** The node types the evaluation phase leaves alone. *)
Definition isPassive (t : NodeType) : bool :=
  match t with
  | SWITCH | LIGHT | CLOCK | GROUP => true
  | _ => false
  end.

(** Output pin 0 of the node under [k], read after [first], [first + 1], ...
    forced ticks ([count] readings). *)
Definition clockTrace (nf : string -> option Fn) (k : string)
    (e : CircuitEngine) (first count : nat) : list (option bool) :=
  map (fun j => arrGet (outputs (nodeAt k (forcedTicks nf j e))) 0)
    (seq first count).

(** The trace the specification documents: ticks 0-4 high, 5-9 low. *)
Definition documentedClockTrace : list (option bool) :=
  map Some [true; true; true; true; true; false; false; false; false; false].

(** A fresh engine with a CLOCK [n4] placed on it; no tick has run. *)
Definition clockFresh : CircuitEngine :=
  snd (addNode CLOCK (mkVector2 100 300) None (newEngine exampleIds)).

(** An IC whose evaluation finds nothing to run: its body is set but does
    not compile (and no callable is cached for it), or it carries only a
    truth table that has no entry for the current input bit-string. *)
Definition compileFails (nf : string -> option Fn) (cache : JsMap Fn)
    (n : LogicNode) : Prop :=
  strTruthy (compiledFunction n) = true /\
  mapGet (id n) cache = None /\
  forall body, compiledFunction n = Some body -> nf body = None.

Definition tableMisses (n : LogicNode) : Prop :=
  strTruthy (compiledFunction n) = false /\
  exists table,
    truthTable n = Some table /\
    lookupKey (truthTableKey (inputs n)) table = None.

(** A mapping array that is a permutation of [0 .. n-1]. *)
Definition isPermutation (n : nat) (m : list (option nat)) : Prop :=
  Permutation m (map Some (seq 0 n)).

Definition countOf (kind : PinKind) (node : LogicNode) : nat :=
  countOr0 match kind with
           | input => inputCount node
           | output => outputCount node
           end.

Definition mappingOf (kind : PinKind) (node : LogicNode)
  : option (list (option nat)) :=
  match kind with
  | input => inputMapping node
  | output => outputMapping node
  end.

(** The mapping in force: the stored one, or the identity when unset. *)
Definition effectiveMapping (kind : PinKind) (node : LogicNode)
  : list (option nat) :=
  match mappingOf kind node with
  | Some m => m
  | None => map Some (seq 0 (countOf kind node))
  end.

(** A sequence of [updateIOMapping(nodeId, kind, pin, port)] calls. *)
Definition remapAll (nodeId : string) (kind : PinKind)
    (calls : list (nat * nat)) (e : CircuitEngine) : CircuitEngine :=
  fold_left (fun acc c => updateIOMapping nodeId kind (fst c) (snd c) acc)
    calls e.

(** The demo circuit grouped and packed: the IC [n7], two inputs, one
    output. *)
Definition demoGrouped : CircuitEngine :=
  createGroupFromSelection
    (set_selectedNodeIds ["n0"; "n1"; "n2"; "n3"] demoWired).

Definition demoPacked : CircuitEngine := packGroupToIC demoGrouped.






(** Deep equality of two serialized states, as a test. *)
Definition sameSnapshot (a b : Snapshot) : bool :=
  if Snapshot_eq_dec a b then true else false.

(** The wired demo circuit with switch [n0] selected (a click on it). *)
Definition demoSelected : CircuitEngine :=
  set_selectedNodeIds ["n0"] demoWired.

(** The wired demo circuit with switch [n0] and the AND gate copied. *)
Definition demoCopied : CircuitEngine :=
  copy (set_selectedNodeIds ["n0"; "n2"] demoWired).

(** Every wire has both its ends in the node map. *)
Definition noDangling (e : CircuitEngine) : bool :=
  forallb (wireLive (nodes e)) (wires e).

(** The packed demo IC [n7] fed by an outside SWITCH [n8] through wire
    [n9]; the IC is the selection. *)
Definition demoFed : CircuitEngine :=
  let e1 := snd (addNode SWITCH (mkVector2 0 150) None demoPacked) in
  let e2 := completed (connectPins noCompile "n8" 0 "n7" 0 e1) in
  set_selectedNodeIds ["n7"] e2.

Definition feedWire : Wire := mkWire "n9" "n8" 0 "n7" 0 false.

(** How many nodes of a type the graph holds. *)
Definition countType (t : NodeType) (e : CircuitEngine) : nat :=
  List.length (filter (isType t) (mapValues (nodes e))).

(** A wire without its identity and cached state, its ends renamed. *)
Definition wireShape (f : string -> string) (w : Wire)
  : string * nat * string * nat :=
  (f (sourceNodeId w), sourcePinIndex w, f (targetNodeId w), targetPinIndex w).

(** The demo circuit packed and unpacked again: group [n8], switches [n9]
    and [n10], AND [n11], LIGHT [n12]. *)
Definition demoUnpacked : CircuitEngine := unpackICToGroup demoPacked.

(** The renaming of the round trip on the demo circuit. *)
Definition demoRenaming (k : string) : string :=
  if k =? "n0" then "n9"
  else if k =? "n1" then "n10"
  else if k =? "n2" then "n11"
  else if k =? "n3" then "n12"
  else k.

(** Input pin 0 of the LIGHT [n12] of the unpacked demo circuit after both
    switches are toggled on and [k] ticks are forced; [running] is the mode
    of the simulator while this happens. *)
Definition lightAfter (running : bool) (k : nat) : option bool :=
  let e := toggleBoth noCompile "n9" "n10" (set_isRunning running demoUnpacked) in
  arrGet (inputs (nodeAt "n12" (forcedTicks noCompile k e))) 0.

(** A call [tick(timestamp)] that passes the run gate: forced, or made while
    running once [tickRate] milliseconds have passed. *)
Definition accepted (timestamp : Z) (e : CircuitEngine) : bool :=
  (isRunning e || (timestamp =? -1)%Z)
  && ((timestamp =? -1)%Z || negb (timestamp - lastTick e <? tickRate e)%Z).

(** A node map as the engine keeps it: every node under its own id, no id
    twice. *)
Definition wellKeyed (ns : JsMap LogicNode) : Prop :=
  NoDup (map fst ns) /\ Forall (fun kv => id (snd kv) = fst kv) ns.

(** The members of group [g]: what [packGroupToIC] calls [internals]. *)
Definition membersOf (g : string) (e : CircuitEngine) : list LogicNode :=
  filter (hasGroupId g) (mapValues (nodes e)).

(** A member as [packGroupToIC] stores it: relative to the group centre. *)
Definition storeNode (centre : Vector2) (n : LogicNode) : LogicNode :=
  set_position_groupId
    (mkVector2 (px (position n) - px centre) (py (position n) - py centre))
    None n.

(** A stored node as [unpackICToGroup] re-instantiates it. *)
Definition instantiate (newId groupId : string) (icPos : Vector2)
    (n : LogicNode) : LogicNode :=
  set_id_position_groupId newId
    (mkVector2 (px icPos + px (position n)) (py icPos + py (position n)))
    (Some groupId) n.

(** The entries [unpackICToGroup] adds for the stored nodes [l], drawing ids
    [r k], [r (k+1)], ... *)
Fixpoint freshNodes (r : nat -> string) (groupId : string) (icPos : Vector2)
    (k : nat) (l : list LogicNode) : JsMap LogicNode :=
  match l with
  | [] => []
  | n :: rest =>
      (r k, instantiate (r k) groupId icPos n)
      :: freshNodes r groupId icPos (S k) rest
  end.

(** The identity substitution it builds alongside. *)
Fixpoint freshIdMap (r : nat -> string) (k : nat) (l : list LogicNode)
  : JsMap string :=
  match l with
  | [] => []
  | n :: rest => (id n, r k) :: freshIdMap r (S k) rest
  end.

(** The wires it adds for the stored wires [l], drawing ids from [r k] on. *)
Fixpoint renamedWires (r : nat -> string) (idMap : JsMap string) (k : nat)
    (l : list Wire) : list Wire :=
  match l with
  | [] => []
  | w :: rest =>
      match mapGet (sourceNodeId w) idMap, mapGet (targetNodeId w) idMap with
      | Some s, Some t =>
          mkWire (r k) s (sourcePinIndex w) t (targetPinIndex w) false
          :: renamedWires r idMap (S k) rest
      | _, _ => renamedWires r idMap k rest
      end
  end.

(** The renaming a substitution stands for. *)
Definition renameBy (idMap : JsMap string) (k : string) : string :=
  match mapGet k idMap with
  | Some k' => k'
  | None => k
  end.

(** Keys outside group [g]: neither a member nor the group node. *)
Definition outsideKey (g : string) (members : list LogicNode) (k : string)
  : bool :=
  negb (hasId k members) && negb (k =? g).

(** Wires with no end on a member. *)
Definition isOutsideWire (members : list LogicNode) (w : Wire) : bool :=
  negb (hasId (sourceNodeId w) members)
  && negb (hasId (targetNodeId w) members).

(** What a tick never changes: which type sits under which key, and which
    pins each wire joins. *)
Definition keyTypes (ns : JsMap LogicNode) : JsMap NodeType :=
  map (fun kv => (fst kv, type (snd kv))) ns.

Definition wireEnds (w : Wire) : string * nat * string * nat :=
  wireShape (fun k => k) w.

(** The wire list after propagation: each live wire stamped with the value
    it carried. *)
Definition stamp (ns : JsMap LogicNode) (w : Wire) : Wire :=
  if wireLive ns w then set_state (wireValue ns w) w else w.

(** In a list of wire ends, [sh] is the last one on its input pin. *)
Definition lastOnPin (ends : list (string * nat * string * nat))
    (sh : string * nat * string * nat) : Prop :=
  exists pre post,
    ends = pre ++ sh :: post /\
    forall sh', In sh' post ->
      ~ (snd (fst sh') = snd (fst sh) /\ snd sh' = snd sh).

(** Two switches [s1], [s2] into the AND gate [a], the gate into the LIGHT
    [l], each of the three wires the last on its input pin, and no IC
    anywhere in the graph. *)
Definition andLight (x : CircuitEngine) (s1 s2 a l : string) : Prop :=
  mapGet a (keyTypes (nodes x)) = Some AND /\
  mapGet l (keyTypes (nodes x)) = Some LIGHT /\
  lastOnPin (map wireEnds (wires x)) (s1, 0, a, 0) /\
  lastOnPin (map wireEnds (wires x)) (s2, 0, a, 1) /\
  lastOnPin (map wireEnds (wires x)) (a, 0, l, 0) /\
  Forall (fun kt => snd kt <> IC) (keyTypes (nodes x)).

(** The node under [s] is a SWITCH whose output reads [b]. *)
Definition switchIs (b : bool) (x : CircuitEngine) (s : string) : Prop :=
  exists n,
    mapGet s (nodes x) = Some n /\ type n = SWITCH /\
    truthy (arrGet (outputs n) 0) = b.

(** Packing the selected group and unpacking the chip again. *)
Definition roundTrip (e : CircuitEngine) : CircuitEngine :=
  unpackICToGroup (packGroupToIC e).

(** The renaming of that round trip: each member of group [g] goes to the
    id [unpackICToGroup] draws for it. *)
Definition tripRenaming (g : string) (e : CircuitEngine) : string -> string :=
  renameBy (freshIdMap (rng e) (S (rngPos e)) (membersOf g e)).

(** The ids the round trip draws: one for the new group, one per member. *)
Definition drawnIds (g : string) (e : CircuitEngine) : list string :=
  map (rng e) (seq (rngPos e) (S (List.length (membersOf g e)))).

(** What the round trip needs of the engine: nodes stored under their own
    ids, the group [g] selected, named and not a member of itself, and ids
    drawn by [generateId] that are new and distinct. *)
Definition packable (g : string) (e : CircuitEngine) : Prop :=
  wellKeyed (nodes e) /\
  findSelected GROUP e = Some g /\
  g <> "" /\
  hasId g (membersOf g e) = false /\
  NoDup (drawnIds g e) /\
  (forall k, In k (drawnIds g e) -> mapGet k (nodes e) = None).

(** The switch under [s] flipped, before any tick. *)
Definition flipped (s : string) (x : CircuitEngine) : CircuitEngine :=
  match mapGet s (nodes x) with
  | Some node =>
      set_nodes (mapSet s (set_outputs (arrSet 0 (jsNot (arrGet (outputs node) 0))
                                          (outputs node)) node) (nodes x)) x
  | None => x
  end.

(** No string occurs twice, as a test. *)
Fixpoint distinct (l : list string) : bool :=
  match l with
  | [] => true
  | h :: r => negb (existsb (String.eqb h) r) && distinct r
  end.

(* ================================================================== *)
(** ** Further operations of the engine *)

(** [duplicateSelected], per selected id: a clone under a fresh id, moved by
    the offset, its pins reset to [false]. *)
Definition duplicateNode (acc : CircuitEngine * JsMap string * list LogicNode)
    (i : string) : CircuitEngine * JsMap string * list LogicNode :=
  let '(e, idMap, newNodes) := acc in
  match mapGet i (nodes e) with
  | Some node =>
      let (newId, e1) := generateId e in
      let clone :=
        set_outputs (fill false (newArray bool (List.length (outputs node))))
          (set_inputs (fill false (newArray bool (List.length (inputs node))))
             (set_id_position_groupId newId
                (mkVector2 (px (position node) + 20) (py (position node) + 20))
                (groupId node) (cloneNode node))) in
      (e1, mapSet i newId idMap, newNodes ++ [clone])
  | None => acc
  end.

Definition duplicateWire (idMap : JsMap string)
    (acc : CircuitEngine * list Wire) (w : Wire) : CircuitEngine * list Wire :=
  let (e, newWires) := acc in
  match mapGet (sourceNodeId w) idMap, mapGet (targetNodeId w) idMap with
  | Some s, Some t =>
      let (i, e1) := generateId e in
      (e1, newWires
           ++ [mkWire i s (sourcePinIndex w) t (targetPinIndex w) (state w)])
  | _, _ => acc
  end.

(** The group of a clone: the clone of its group when that was duplicated
    too, none otherwise. *)
Definition relinkGroup (idMap : JsMap string) (n : LogicNode) : LogicNode :=
  if strTruthy (groupId n) then
    match groupId n with
    | Some g =>
        match mapGet g idMap with
        | Some g' => set_groupId (Some g') n
        | None => set_groupId None n
        end
    | None => n
    end
  else n.

(** [duplicateSelected] checkpoints before its change only. *)
Definition duplicateSelected (e : CircuitEngine) : CircuitEngine :=
  match selectedNodeIds e with
  | [] => e
  | sel =>
      let e1 := saveState e in
      let '(e2, idMap, newNodes) := fold_left duplicateNode sel (e1, [], []) in
      let (e3, newWires) :=
        fold_left (duplicateWire idMap) (wires e2) (e2, []) in
      let e4 :=
        fold_left
          (fun acc n =>
             let n1 := relinkGroup idMap n in
             set_selectedNodeIds (setAdd (id n1) (selectedNodeIds acc))
               (set_nodes (mapSet (id n1) n1 (nodes acc)) acc))
          newNodes (set_selectedNodeIds [] e3) in
      triggerUpdate (set_wires (wires e4 ++ newWires) e4)
  end.

(** The ids of the selected GROUP nodes ([groupsToUngroup]). *)
Definition groupsToUngroup (e : CircuitEngine) : JsSet :=
  fold_left
    (fun s i =>
       match mapGet i (nodes e) with
       | Some n => if isType GROUP n then setAdd (id n) s else s
       | None => s
       end)
    (selectedNodeIds e) [].

(** What [ungroupSelected] does to one node: a member of a dissolved group
    loses its group and joins the selection. *)
Definition releaseMember (groups : JsSet)
    (acc : JsMap LogicNode * JsSet) (kn : string * LogicNode)
  : JsMap LogicNode * JsSet :=
  let (ns, sel) := acc in
  let (k, n) := kn in
  if strTruthy (groupId n)
     && match groupId n with Some g => setHas g groups | None => false end
  then (ns ++ [(k, set_groupId None n)], setAdd (id n) sel)
  else (ns ++ [(k, n)], sel).

Definition ungroupSelected (e : CircuitEngine) : CircuitEngine :=
  match groupsToUngroup e with
  | [] => e
  | groups =>
      let e1 := saveState e in
      let e2 :=
        fold_left
          (fun acc gid =>
             set_selectedNodeIds (setDelete gid (selectedNodeIds acc))
               (set_nodes (mapDelete gid (nodes acc)) acc))
          groups e1 in
      let (ns, sel) :=
        fold_left (releaseMember groups) (nodes e2) ([], selectedNodeIds e2) in
      triggerUpdate (set_selectedNodeIds sel (set_nodes ns e2))
  end.

(** A [Partial<LogicNode>] as [updateNodeData] receives it: for each field,
    [None] when the object has no such property; an optional field may be
    present and hold [undefined]. *)
Record Patch : Type := mkPatch {
  p_id : option string;
  p_type : option NodeType;
  p_position : option Vector2;
  p_inputs : option Signals;
  p_outputs : option Signals;
  p_label : option (option string);
  p_color : option (option string);
  p_groupId : option (option string);
  p_width : option (option Z);
  p_height : option (option Z);
  p_inputCount : option (option nat);
  p_outputCount : option (option nat);
  p_truthTable : option (option (list (string * list Z)));
  p_ioMap : option (option IOMap);
  p_internalState : option (option JsVal);
  p_inputMapping : option (option (list (option nat)));
  p_outputMapping : option (option (list (option nat)));
  p_compiledFunction : option (option string);
  p_equations : option (option (list string));
  p_internals : option (option (list LogicNode * list Wire))
}.

Definition emptyPatch : Patch :=
  mkPatch None None None None None None None None None None None None None
    None None None None None None None.

(** One field of [Object.assign(node, data)]. *)
Definition assigned {A} (new : option A) (old : A) : A :=
  match new with Some v => v | None => old end.

(** [Object.assign(node, data)]. *)
Definition assign (n : LogicNode) (d : Patch) : LogicNode :=
  mkNode (assigned (p_id d) (id n)) (assigned (p_type d) (type n))
    (assigned (p_position d) (position n)) (assigned (p_inputs d) (inputs n))
    (assigned (p_outputs d) (outputs n)) (assigned (p_label d) (label n))
    (assigned (p_color d) (color n)) (assigned (p_groupId d) (groupId n))
    (assigned (p_width d) (width n)) (assigned (p_height d) (height n))
    (assigned (p_inputCount d) (inputCount n))
    (assigned (p_outputCount d) (outputCount n))
    (assigned (p_truthTable d) (truthTable n)) (assigned (p_ioMap d) (ioMap n))
    (assigned (p_internalState d) (internalState n))
    (assigned (p_inputMapping d) (inputMapping n))
    (assigned (p_outputMapping d) (outputMapping n))
    (assigned (p_compiledFunction d) (compiledFunction n))
    (assigned (p_equations d) (equations n))
    (assigned (p_internals d) (internals n)).

(** [data.compiledFunction] used as a condition. *)
Definition patchesCode (d : Patch) : bool :=
  match p_compiledFunction d with
  | Some cf => strTruthy cf
  | None => false
  end.

Definition updateNodeData (i : string) (data : Patch) (e : CircuitEngine)
  : CircuitEngine :=
  match mapGet i (nodes e) with
  | Some n =>
      let e1 := saveState e in
      let node := assign n data in
      let e2 := set_nodes (mapSet i node (nodes e1)) e1 in
      let e3 :=
        if isType IC node && patchesCode data
        then set_fnCache (mapDelete (id node) (fnCache e2)) e2
        else e2 in
      triggerUpdate e3
  | None => e
  end.

(** The test of [findNodeAt] on one node: the point lies in the rectangle of
    the node's dimensions around its position. The half widths are kept exact
    by comparing the doubles. *)
Definition covers (pos : Vector2) (node : LogicNode) : bool :=
  let '(w, h) := getNodeDimensions node in
  ((2 * px (position node) - w <=? 2 * px pos)
   && (2 * px pos <=? 2 * px (position node) + w)
   && (2 * py (position node) - h <=? 2 * py pos)
   && (2 * py pos <=? 2 * py (position node) + h))%Z.

(** [findNodeAt]: the last inserted node that covers the point. *)
Definition findNodeAt (pos : Vector2) (e : CircuitEngine) : option string :=
  option_map id (find (covers pos) (rev (mapValues (nodes e)))).

(** The rubber band of the canvas ([Canvas.tsx], [handlePointerUp]): the
    nodes whose position lies in the rectangle spanned by the two corners
    become the selection. *)
Definition selectArea (a b : Vector2) (e : CircuitEngine) : CircuitEngine :=
  let x1 := Z.min (px a) (px b) in
  let y1 := Z.min (py a) (py b) in
  let x2 := Z.max (px a) (px b) in
  let y2 := Z.max (py a) (py b) in
  let inside (n : LogicNode) :=
    ((x1 <=? px (position n)) && (px (position n) <=? x2)
     && (y1 <=? py (position n)) && (py (position n) <=? y2))%Z in
  triggerUpdate
    (set_selectedNodeIds
       (fold_left (fun s n => if inside n then setAdd (id n) s else s)
          (mapValues (nodes e)) [])
       (set_selectedWireIds [] e)).

(* ================================================================== *)
(** ** The chip library and the circuit store ([storage/]) *)

Module Library.

(** A record of the object store [library]. *)
Record LibraryItem : Type := mkItem {
  li_id : string;
  li_name : string;
  li_inputCount : nat;
  li_outputCount : nat;
  li_width : Z;
  li_height : Z;
  li_truthTable : option (list (string * list Z));
  li_ioMap : option IOMap;
  li_compiledFunction : option string;
  li_equations : option (list string);
  li_internals : option (list LogicNode * list Wire);
  li_createdAt : Z
}.

(** [a ?? d]. *)
Definition orElse {A} (a : option A) (d : A) : A :=
  match a with Some v => v | None => d end.

(** [saveToLibrary(node)]: [None] is the exception for a node that is no IC;
    otherwise the new id and the store after [db.put]. [newId] and [now] are
    what [generateId()] and [Date.now()] return. *)
Definition saveToLibrary (newId : string) (now : Z) (node : LogicNode)
    (lib : JsMap LibraryItem) : option (string * JsMap LibraryItem) :=
  match type node with
  | IC =>
      let item :=
        mkItem newId (labelOr (label node) "Untitled Chip")
          (orElse (inputCount node) 0) (orElse (outputCount node) 0)
          (orElse (width node) 100%Z) (orElse (height node) 100%Z)
          (truthTable node) (ioMap node) (compiledFunction node)
          (equations node) (internals node) now in
      Some (newId, mapSet newId item lib)
  | _ => None
  end.

Definition libraryItemToNodeTemplate (item : LibraryItem) : Template :=
  mkTemplate (Some (li_name item)) (Some (li_inputCount item))
    (Some (li_outputCount item)) (Some (li_width item)) (Some (li_height item))
    (li_truthTable item) (li_ioMap item) (li_compiledFunction item)
    (li_equations item) (li_internals item).

(** A record of the object store [circuits]. *)
Record SavedCircuit : Type := mkCircuit {
  sc_id : string;
  sc_name : string;
  sc_nodes : list LogicNode;
  sc_wires : list Wire;
  sc_viewport : Viewport;
  sc_createdAt : Z;
  sc_updatedAt : Z
}.

(** [saveCircuit(name, nodes, wires, viewport, existingId)]: the id of the
    record and the store after [db.put]. An absent or empty [existingId]
    draws a new id. *)
Definition saveCircuit (newId : string) (now : Z) (name : string)
    (ns : list LogicNode) (ws : list Wire) (vp : Viewport)
    (existingId : option string) (db : JsMap SavedCircuit)
  : string * JsMap SavedCircuit :=
  let i := if strTruthy existingId then orElse existingId "" else newId in
  let created :=
    if strTruthy existingId then
      match mapGet (orElse existingId "") db with
      | Some c => if (sc_createdAt c =? 0)%Z then now else sc_createdAt c
      | None => now
      end
    else now in
  (i, mapSet i (mkCircuit i name ns ws vp created now) db).

Definition loadCircuit (i : string) (db : JsMap SavedCircuit)
  : option SavedCircuit :=
  mapGet i db.

Definition deleteCircuit (i : string) (db : JsMap SavedCircuit)
  : JsMap SavedCircuit :=
  mapDelete i db.

End Library.

(* ================================================================== *)
(** ** Vocabulary of the further properties *)

(** The checkpoint on top of the history and the one below it (the state of
    the engine when there is none). *)
Definition historyTop (e : CircuitEngine) : Snapshot :=
  match top (historyStack e) with Some s => s | None => serialize e end.

Definition historyBelow (e : CircuitEngine) : Snapshot :=
  match top (removelast (historyStack e)) with
  | Some s => s
  | None => serialize e
  end.

(** A checked form of [wellKeyed], for closed node maps. *)
Definition wellKeyedb (ns : JsMap LogicNode) : bool :=
  distinct (map fst ns) && forallb (fun kv => id (snd kv) =? fst kv) ns.

(** A node after the nodes [sel] were deleted: detached from its group when
    the group was one of them. *)
Definition ungrouped (sel : JsSet) (n : LogicNode) : LogicNode :=
  match groupId n with
  | Some g => if setHas g sel then set_groupId None n else n
  | None => n
  end.

(** One turn of the loop of [deleteSelected] over the selected ids. *)
Definition deleteNode (acc : CircuitEngine) (i : string) : CircuitEngine :=
  set_fnCache (mapDelete i (fnCache acc))
    (set_nodes (mapForEach (clearGroupRef i) (mapDelete i (nodes acc)))
       (set_wires (filter (fun w => negb (touches i w)) (wires acc)) acc)).

(** A clipboard node as [paste] inserts it: its clone under a new id, moved
    by the offset, outside any group. *)
Definition pasted (newId : string) (n : LogicNode) : LogicNode :=
  set_id_position_groupId newId
    (mkVector2 (px (position n) + 20) (py (position n) + 20)) None
    (cloneNode n).

(** The ids [generateId] returns from position [k] on, [n] of them. *)
Definition drawn (r : nat -> string) (k n : nat) : list string :=
  map r (seq k n).

(** The nodes and the wires on the clipboard (none when it is empty). *)
Definition clipNodes (e : CircuitEngine) : list LogicNode :=
  match clipboard e with Some (cn, _) => cn | None => [] end.

Definition clipWires (e : CircuitEngine) : list Wire :=
  match clipboard e with Some (_, cw) => cw | None => [] end.

(** The selected ids that name a node, each with the id drawn for its
    duplicate: ids are drawn from position [k] on, one per node found. *)
Fixpoint dupPairs (r : nat -> string) (ns : JsMap LogicNode) (k : nat)
    (sel : list string) : JsMap string :=
  match sel with
  | [] => []
  | i :: rest =>
      if mapHas i ns then (i, r k) :: dupPairs r ns (S k) rest
      else dupPairs r ns k rest
  end.

(** The group of a duplicate, read off the original: the duplicate of its
    group when that was duplicated too, none otherwise (an empty group id
    counts as none and is left as it is). *)
Definition duplicateGroup (pairs : JsMap string) (n : LogicNode)
  : option string :=
  match groupId n with
  | Some g => if g =? "" then Some g else mapGet g pairs
  | None => None
  end.

(** A duplicate before its group is settled. *)
Definition rawDuplicate (newId : string) (node : LogicNode) : LogicNode :=
  set_outputs (fill false (newArray bool (List.length (outputs node))))
    (set_inputs (fill false (newArray bool (List.length (inputs node))))
       (set_id_position_groupId newId
          (mkVector2 (px (position node) + 20) (py (position node) + 20))
          (groupId node) (cloneNode node))).

(** An entry of the node map after [createGroupFromSelection] made group
    [g] of the selection [sel]: a selected node that is no GROUP joins [g]. *)
Definition joined (g : string) (sel : JsSet) (kv : string * LogicNode)
  : string * LogicNode :=
  if setHas (fst kv) sel && negb (isType GROUP (snd kv))
  then (fst kv, set_groupId (Some g) (snd kv))
  else kv.

(** The step of [createGroupFromSelection] that puts one selected node into
    the group. *)
Definition joinGroup (g : string) (m : JsMap LogicNode) (i : string)
  : JsMap LogicNode :=
  match mapGet i m with
  | Some n => if isType GROUP n then m else mapSet i (set_groupId (Some g) n) m
  | None => m
  end.

(** An entry of the node map after [ungroupSelected] dissolved the groups
    [groups]: a member of one of them is detached. *)
Definition released (groups : JsSet) (kv : string * LogicNode)
  : string * LogicNode :=
  if strTruthy (groupId (snd kv))
     && match groupId (snd kv) with
        | Some g => setHas g groups
        | None => false
        end
  then (fst kv, set_groupId None (snd kv))
  else kv.

(** The wired demo circuit with its four nodes selected. *)
Definition demoAllSelected : CircuitEngine :=
  set_selectedNodeIds ["n0"; "n1"; "n2"; "n3"] demoWired.

(** A patch that replaces the code of a node. *)
Definition codePatch : Patch :=
  mkPatch None None None None None None None None None None None None None
    None None None None (Some (Some "return [1]")) None None.



(** The packed demo IC with input pin 0 moved to port 1 (the two input pins
    are swapped). *)
Definition demoRemapped : CircuitEngine :=
  updateIOMapping "n7" input 0 1 demoPacked.

(* ================================================================== *)
(** ** Vocabulary of the claims as they are worded *)

(** A host that compiles the body [throw 0] to a function that throws when
    it is called, and no other body. *)
Definition throwHost : string -> option Fn :=
  fun body => if body =? "throw 0" then Some (fun _ _ => Throws) else None.

(** A library chip whose code body is [throw 0]. *)
Definition badChip : Template :=
  mkTemplate (Some "Bad chip") (Some 1) (Some 1) (Some 100%Z) (Some 100%Z)
    None None (Some "throw 0") None None.

(** The constructor's circuit with that chip placed ([n4]) and a NOT gate
    added after it ([n5]). *)
Definition demoBadChip : CircuitEngine :=
  let e1 := snd (addNode IC (mkVector2 200 300) (Some badChip)
                   (newEngine exampleIds)) in
  snd (addNode NOT (mkVector2 300 300) None e1).

(** The gate rule as the specification words it, for every call of [tick]
    that runs: whatever way the tick ends, each gate holds on output 0 its
    rule on the booleans of its input pins. *)
Definition gatesFollowRule (nf : string -> option Fn) (timestamp : Z)
    (e : CircuitEngine) : Prop :=
  forall (k : string) (n' : LogicNode) (a b : bool),
    mapGet k (nodes (completed (tick nf timestamp e))) = Some n' ->
    isGate (type n') = true ->
    arrGet (inputs n') 0 = Some a ->
    (isBinaryGate (type n') = true -> arrGet (inputs n') 1 = Some b) ->
    arrGet (outputs n') 0 = Some (gateRule (type n') a b).

(** No exception leaves the tick loop. *)
Definition tickNeverThrows (nf : string -> option Fn) (timestamp : Z)
    (e : CircuitEngine) : Prop :=
  exists e', tick nf timestamp e = Normal e'.

(** The mapping of one direction is a permutation of the declared count
    after a sequence of [updateIOMapping] calls, whatever the calls. *)
Definition remapKeepsPermutation (nodeId : string) (kind : PinKind)
    (calls : list (nat * nat)) (e : CircuitEngine) : Prop :=
  isPermutation (countOf kind (nodeAt nodeId e))
    (effectiveMapping kind (nodeAt nodeId (remapAll nodeId kind calls e))).

(* ================================================================== *)
(** * Properties *)

Unset Implicit Arguments.

(** ** JS arrays and maps *)

Lemma arrGet_arrSet_same A (i : nat) (v : option A) (a : list (option A)) :
  arrGet (arrSet i v a) i = v.
Proof.
  unfold arrGet. revert a.
  induction i as [|i IH]; intros [|h r]; simpl; auto.
Qed.

Lemma arrGet_arrSet_other A (i j : nat) (v : option A) (a : list (option A)) :
  i <> j -> arrGet (arrSet i v a) j = arrGet a j.
Proof.
  unfold arrGet. revert j a.
  induction i as [|i IH]; intros [|j] [|h r] Hij; simpl; try congruence; auto.
  - destruct j; reflexivity.
  - rewrite IH by congruence. destruct j; reflexivity.
Qed.

Lemma mapGet_mapSet_same V (k : string) (v : V) (m : JsMap V) :
  mapGet k (mapSet k v m) = Some v.
Proof.
  induction m as [|[k' v'] r IH]; simpl.
  - now rewrite String.eqb_refl.
  - destruct (k' =? k) eqn:E; simpl; rewrite E; auto.
Qed.

Lemma mapGet_mapSet_other V (k k' : string) (v : V) (m : JsMap V) :
  k <> k' -> mapGet k' (mapSet k v m) = mapGet k' m.
Proof.
  intros Hk. induction m as [|[k0 v0] r IH]; simpl.
  - apply String.eqb_neq in Hk. now rewrite Hk.
  - destruct (k0 =? k) eqn:E; simpl.
    + apply String.eqb_eq in E; subst k0.
      apply String.eqb_neq in Hk. now rewrite Hk.
    + destruct (k0 =? k'); auto.
Qed.

Lemma mapGet_mapForEach V (f : V -> V) (k : string) (m : JsMap V) :
  mapGet k (mapForEach f m) = option_map f (mapGet k m).
Proof.
  induction m as [|[k0 v0] r IH]; simpl; auto.
  destruct (k0 =? k); auto.
Qed.

(** ** The run gate of [tick] *)

Lemma tick_accepted nf (timestamp : Z) (e : CircuitEngine) :
  accepted timestamp e = true ->
  tick nf timestamp e =
    let e1 := set_tickCount (S (tickCount e)) (set_lastTick timestamp e) in
    let ns2 := mapForEach resetInputs
                 (mapForEach (updateClock (S (tickCount e))) (nodes e)) in
    let e3 := set_wires (snd (propagate ns2 (wires e)))
                (set_nodes (fst (propagate ns2 (wires e))) e1) in
    match evalNodes nf (fnCache e) (fst (propagate ns2 (wires e))) with
    | Normal (c, ns4) => Normal (set_fnCache c (set_nodes ns4 e3))
    | Throw (c, ns4) => Throw (set_fnCache c (set_nodes ns4 e3))
    end.
Proof.
  unfold accepted, tick. intros Ha.
  apply andb_true_iff in Ha. destruct Ha as [H1 H2].
  replace (negb (isRunning e) && negb (timestamp =? -1)%Z) with false
    by (destruct (isRunning e), (timestamp =? -1)%Z; simpl in *; congruence).
  replace (negb (timestamp =? -1)%Z
           && (timestamp - lastTick e <? tickRate e)%Z) with false
    by (destruct (timestamp =? -1)%Z,
                 (timestamp - lastTick e <? tickRate e)%Z;
        simpl in *; congruence).
  simpl. destruct (propagate _ _) as [ns3 ws]. reflexivity.
Qed.

Lemma accepted_forced (e : CircuitEngine) : accepted (-1) e = true.
Proof. unfold accepted. simpl. now rewrite orb_true_r. Qed.

Lemma tick_forced nf (e : CircuitEngine) :
  tick nf (-1) e =
    let e1 := set_tickCount (S (tickCount e)) (set_lastTick (-1)%Z e) in
    let ns2 := mapForEach resetInputs
                 (mapForEach (updateClock (S (tickCount e))) (nodes e)) in
    let e3 := set_wires (snd (propagate ns2 (wires e)))
                (set_nodes (fst (propagate ns2 (wires e))) e1) in
    match evalNodes nf (fnCache e) (fst (propagate ns2 (wires e))) with
    | Normal (c, ns4) => Normal (set_fnCache c (set_nodes ns4 e3))
    | Throw (c, ns4) => Throw (set_fnCache c (set_nodes ns4 e3))
    end.
Proof. apply tick_accepted, accepted_forced. Qed.

(** C10. A call [tick(timestamp)] with [timestamp] other than [-1], made
    while the simulator is not running or before [tickRate] milliseconds
    have passed since the last accepted tick, returns without an exception
    and leaves the whole engine state as it was: tick counter, nodes (inputs
    and outputs), wires (cached states) and everything else. *)
Theorem C10_tick_gate_frame nf (timestamp : Z) (e : CircuitEngine) :
  timestamp <> (-1)%Z ->
  isRunning e = false \/ (timestamp - lastTick e < tickRate e)%Z ->
  tick nf timestamp e = Normal e.
Proof.
  intros Hts Hgate. unfold tick.
  apply Z.eqb_neq in Hts. rewrite Hts. simpl.
  destruct Hgate as [Hrun | Hearly].
  - rewrite Hrun. reflexivity.
  - apply Z.ltb_lt in Hearly. rewrite Hearly.
    rewrite andb_true_r. destruct (isRunning e); reflexivity.
Qed.

Lemma C10_tick_gate_frame_witness :
  tick noCompile 16 (set_isRunning true (newEngine exampleIds))
  = Normal (set_isRunning true (newEngine exampleIds)).
Proof.
  apply C10_tick_gate_frame.
  - discriminate.
  - right. vm_compute. reflexivity.
Defined.

(** ** Evaluation of one node and of all nodes *)

Lemma evalNode_keeps nf (c : JsMap Fn) (n : LogicNode) :
  let n' := snd (completed (evalNode nf c n)) in
  id n' = id n /\ type n' = type n /\ inputs n' = inputs n.
Proof.
  unfold evalNode.
  destruct (type n) eqn:Ht; simpl; auto.
  destruct (strTruthy (compiledFunction n)).
  - destruct (mapGet (id n) c) as [f|].
    + destruct (f _ _); simpl; auto.
    + destruct (nf _) as [f|]; simpl; auto.
      destruct (f _ _); simpl; auto.
  - destruct (truthTable n) as [table|]; simpl; auto.
    destruct (lookupKey _ _); simpl; auto.
Qed.

Lemma evalNode_gate_rule nf (c : JsMap Fn) (n : LogicNode) (a b : bool) :
  isGate (type n) = true ->
  arrGet (inputs n) 0 = Some a ->
  (isBinaryGate (type n) = true -> arrGet (inputs n) 1 = Some b) ->
  evalNode nf c n
  = Normal (c, set_outputs
                 (arrSet 0 (Some (gateRule (type n) a b)) (outputs n)) n).
Proof.
  intros Hg H0 H1. unfold evalNode.
  destruct (type n); simpl in *; try discriminate;
    rewrite H0; try rewrite (H1 eq_refl);
    unfold jsAnd, jsOr, jsNot, jsXor;
    destruct a, b; reflexivity.
Qed.

Lemma evalNodes_get nf (ns : JsMap LogicNode) :
  forall c c' ns' k n',
    evalNodes nf c ns = Normal (c', ns') ->
    mapGet k ns' = Some n' ->
    exists n c0 c1,
      mapGet k ns = Some n /\ evalNode nf c0 n = Normal (c1, n').
Proof.
  induction ns as [|[k0 n0] r IH]; intros c c' ns' k n' He Hg; simpl in He.
  - inversion He; subst. discriminate.
  - destruct (evalNode nf c n0) as [[c1 n1]|[c1 n1]] eqn:E0; try discriminate.
    destruct (evalNodes nf c1 r) as [[c2 r2]|[c2 r2]] eqn:Er; try discriminate.
    inversion He; subst. simpl in Hg. simpl.
    destruct (k0 =? k).
    + inversion Hg; subst. eauto.
    + eapply IH; eauto.
Qed.

(** What evaluation leaves at every key, however it ends. *)
Lemma evalNodes_keeps nf (ns : JsMap LogicNode) :
  forall c k,
    let ns' := snd (completed (evalNodes nf c ns)) in
    match mapGet k ns, mapGet k ns' with
    | Some n, Some n' =>
        id n' = id n /\ type n' = type n /\ inputs n' = inputs n
    | None, None => True
    | _, _ => False
    end.
Proof.
  induction ns as [|[k0 n0] r IH]; intros c k; simpl; auto.
  pose proof (evalNode_keeps nf c n0) as Hk. simpl in Hk.
  destruct (evalNode nf c n0) as [[c1 n1]|[c1 n1]]; simpl in *.
  - specialize (IH c1 k). simpl in IH.
    destruct (evalNodes nf c1 r) as [[c2 r2]|[c2 r2]]; simpl in *;
      destruct (k0 =? k); auto.
  - destruct (k0 =? k); auto.
    destruct (mapGet k r); auto.
Qed.

(** The rule of a gate holds on its node after a tick that ends normally. *)
Lemma gate_after_tick nf (timestamp : Z) (e e' : CircuitEngine)
    (k : string) (n' : LogicNode) (a b : bool) :
  accepted timestamp e = true ->
  tick nf timestamp e = Normal e' ->
  mapGet k (nodes e') = Some n' ->
  isGate (type n') = true ->
  arrGet (inputs n') 0 = Some a ->
  (isBinaryGate (type n') = true -> arrGet (inputs n') 1 = Some b) ->
  arrGet (outputs n') 0 = Some (gateRule (type n') a b).
Proof.
  intros Hacc Ht Hk Hg H0 H1.
  rewrite tick_accepted in Ht by assumption. cbv zeta in Ht.
  destruct (evalNodes nf _ _) as [[c ns4]|[c ns4]] eqn:Ev; try discriminate.
  inversion Ht; subst e'; clear Ht. simpl in Hk.
  destruct (evalNodes_get nf _ _ _ _ k n' Ev Hk) as (n & c0 & c1 & _ & Hn).
  pose proof (evalNode_keeps nf c0 n) as Hkeep. rewrite Hn in Hkeep.
  simpl in Hkeep. destruct Hkeep as (_ & Hty & Hin).
  rewrite Hty in Hg, H1 |- *. rewrite Hin in H0, H1.
  rewrite (evalNode_gate_rule nf c0 n a b Hg H0 H1) in Hn.
  inversion Hn; subst. simpl. destruct (outputs n); reflexivity.
Qed.

(** C1 (amended). After a tick that runs (forced, or accepted by the run
    gate) and is not ended by an exception, every node of type AND, OR, NOT,
    NAND, XOR or BUFFER has on output pin 0 the value of its fixed rule on
    the booleans its input pins hold: AND both, OR either, NOT the negation
    of input 0, NAND the negation of AND, XOR inputs differ, BUFFER
    input 0. *)
Theorem C1_gate_truth_tables nf (timestamp : Z) (e e' : CircuitEngine)
    (k : string) (n' : LogicNode) (a b : bool) :
  accepted timestamp e = true ->
  tick nf timestamp e = Normal e' ->
  mapGet k (nodes e') = Some n' ->
  isGate (type n') = true ->
  arrGet (inputs n') 0 = Some a ->
  (isBinaryGate (type n') = true -> arrGet (inputs n') 1 = Some b) ->
  arrGet (outputs n') 0 = Some (gateRule (type n') a b).
Proof. apply gate_after_tick. Qed.

Lemma C1_gate_truth_tables_witness :
  arrGet (outputs (nodeAt "n2"
            (completed (tick noCompile (-1) (toggleBoth noCompile "n0" "n1" demoWired)))))
    0 = Some true.
Proof.
  set (e := toggleBoth noCompile "n0" "n1" demoWired).
  set (e' := completed (tick noCompile (-1) e)).
  change (Some true) with (Some (gateRule (type (nodeAt "n2" e')) true true)).
  apply (C1_gate_truth_tables noCompile (-1) e e' "n2" (nodeAt "n2" e')
           true true);
    vm_compute; auto.
Defined.

(** The four values the specification quotes, on one evaluation. *)
Example gate_examples :
  let out t a b :=
    arrGet (outputs (snd (completed
      (evalNode noCompile []
         (plainNode "g" t (mkVector2 0 0) [Some a; Some b] [Some false]))))) 0 in
  out AND true true = Some true /\ out AND true false = Some false /\
  out NAND false false = Some true /\ out XOR true true = Some false.
Proof. repeat split. Qed.

(** C1, as worded, fails when an IC earlier in the node map throws: the
    exception ends the evaluation loop, and the NOT gate [n5] behind the
    chip [n4] keeps its output [false] although its input is [false]. *)
Lemma C1_counterexample : ~ gatesFollowRule throwHost (-1) demoBadChip.
Proof.
  intros H.
  specialize (H "n5"
                (nodeAt "n5" (completed (tick throwHost (-1) demoBadChip)))
                false false).
  assert (H' : arrGet (outputs (nodeAt "n5"
                 (completed (tick throwHost (-1) demoBadChip)))) 0
               = Some true).
  { etransitivity; [apply H|]; vm_compute; try reflexivity.
    intros Hb; discriminate Hb. }
  vm_compute in H'. discriminate H'.
Qed.

(** ** Propagation *)

Lemma set_inputs_same (n : LogicNode) : set_inputs (inputs n) n = n.
Proof. destruct n; reflexivity. Qed.

Lemma set_inputs_twice (u v : Signals) (n : LogicNode) :
  set_inputs v (set_inputs u n) = set_inputs v n.
Proof. reflexivity. Qed.

Lemma propagateWire_get (ns : JsMap LogicNode) (w : Wire) (k : string) :
  mapGet k (fst (propagateWire ns w))
  = option_map (fun n => set_inputs (drive ns k (inputs n) w) n) (mapGet k ns).
Proof.
  unfold propagateWire, drive, wireLive, wireValue, mapHas.
  destruct (mapGet (sourceNodeId w) ns) as [s|] eqn:Es;
    destruct (mapGet (targetNodeId w) ns) as [t|] eqn:Et; simpl;
    try (destruct (mapGet k ns); simpl; now rewrite ?set_inputs_same).
  destruct (targetNodeId w =? k) eqn:Ek.
  - apply String.eqb_eq in Ek. subst k.
    rewrite mapGet_mapSet_same, Et. reflexivity.
  - apply String.eqb_neq in Ek.
    rewrite mapGet_mapSet_other by assumption.
    destruct (mapGet k ns); simpl; now rewrite ?set_inputs_same.
Qed.

Lemma sameButInputs_wire (ns ns' : JsMap LogicNode) (w : Wire) :
  sameButInputs ns ns' ->
  wireLive ns' w = wireLive ns w /\ wireValue ns' w = wireValue ns w.
Proof.
  intros H. unfold wireLive, wireValue, mapHas.
  destruct (H (sourceNodeId w)) as [f Hf].
  destruct (H (targetNodeId w)) as [g Hg].
  rewrite Hf, Hg.
  destruct (mapGet (sourceNodeId w) ns), (mapGet (targetNodeId w) ns);
    simpl; auto.
Qed.

Lemma sameButInputs_drive (ns ns' : JsMap LogicNode) (k : string) :
  sameButInputs ns ns' ->
  forall ws init, fold_left (drive ns' k) ws init = fold_left (drive ns k) ws init.
Proof.
  intros H ws. induction ws as [|w r IH]; intros init; simpl; auto.
  unfold drive at 2 4.
  destruct (sameButInputs_wire ns ns' w H) as [Hl Hv].
  rewrite Hl, Hv. apply IH.
Qed.

Lemma propagate_get (ws : list Wire) :
  forall (ns : JsMap LogicNode) (k : string),
    mapGet k (fst (propagate ns ws))
    = option_map (fun n => set_inputs (fold_left (drive ns k) ws (inputs n)) n)
        (mapGet k ns).
Proof.
  induction ws as [|w r IH]; intros ns k; simpl.
  - destruct (mapGet k ns); simpl; now rewrite ?set_inputs_same.
  - pose proof (propagateWire_get ns w) as Hw.
    destruct (propagateWire ns w) as [ns1 w1] eqn:Ew. simpl in Hw.
    specialize (IH ns1 k).
    destruct (propagate ns1 r) as [ns2 r2]. simpl in *.
    rewrite IH, Hw.
    assert (Hs : sameButInputs ns ns1).
    { intros k'. exists (fun n => drive ns k' (inputs n) w). apply Hw. }
    destruct (mapGet k ns); simpl; auto.
    rewrite (sameButInputs_drive ns ns1 k Hs). reflexivity.
Qed.

(** The last live wire on a pin decides what the pin holds. *)
Lemma drive_last (ns : JsMap LogicNode) (w : Wire) (pre post : list Wire)
    (init : Signals) :
  wireLive ns w = true ->
  (forall w', In w' post ->
     targetNodeId w' = targetNodeId w ->
     targetPinIndex w' = targetPinIndex w -> wireLive ns w' = false) ->
  arrGet (fold_left (drive ns (targetNodeId w)) (pre ++ w :: post) init)
    (targetPinIndex w)
  = Some (wireValue ns w).
Proof.
  intros Hlive Hpost.
  rewrite fold_left_app. simpl.
  set (acc := fold_left (drive ns (targetNodeId w)) pre init).
  assert (H0 : arrGet (drive ns (targetNodeId w) acc w) (targetPinIndex w)
               = Some (wireValue ns w)).
  { unfold drive. rewrite Hlive, String.eqb_refl. simpl.
    apply arrGet_arrSet_same. }
  revert H0. generalize (drive ns (targetNodeId w) acc w).
  induction post as [|w' r IH]; intros cur Hcur; simpl; auto.
  apply IH.
  - intros w2 Hin. apply Hpost. now right.
  - unfold drive.
    destruct (wireLive ns w') eqn:El; simpl; auto.
    destruct (targetNodeId w' =? targetNodeId w) eqn:Et; auto.
    apply String.eqb_eq in Et.
    destruct (Nat.eq_dec (targetPinIndex w') (targetPinIndex w)) as [Ep | Ep].
    + rewrite (Hpost w' (or_introl eq_refl) Et Ep) in El. discriminate.
    + rewrite arrGet_arrSet_other by assumption. exact Hcur.
Qed.

Lemma outputs_resetInputs (n : LogicNode) :
  outputs (resetInputs n) = outputs n.
Proof. unfold resetInputs. destruct (type n); reflexivity. Qed.

Lemma updateClock_other (tc : nat) (n : LogicNode) :
  type n <> CLOCK -> updateClock tc n = n.
Proof. unfold updateClock. destruct (type n); congruence. Qed.

(** The inputs a forced tick leaves at a key: those the wires drive, from
    the outputs as they stand after the clock update. *)
Lemma tick_accepted_inputs nf (timestamp : Z) (e : CircuitEngine)
    (k : string) (n : LogicNode) :
  accepted timestamp e = true ->
  mapGet k (nodes e) = Some n ->
  let ns2 := mapForEach resetInputs
               (mapForEach (updateClock (S (tickCount e))) (nodes e)) in
  exists n',
    mapGet k (nodes (completed (tick nf timestamp e))) = Some n' /\
    inputs n'
    = fold_left (drive ns2 k) (wires e)
        (inputs (resetInputs (updateClock (S (tickCount e)) n))).
Proof.
  intros Hacc Hk ns2.
  assert (Hns2 : mapGet k ns2
                 = Some (resetInputs (updateClock (S (tickCount e)) n))).
  { unfold ns2. rewrite !mapGet_mapForEach, Hk. reflexivity. }
  pose proof (propagate_get (wires e) ns2 k) as Hp. rewrite Hns2 in Hp.
  simpl in Hp.
  rewrite tick_accepted by assumption. cbv zeta. fold ns2.
  pose proof (evalNodes_keeps nf (fst (propagate ns2 (wires e))) (fnCache e) k)
    as Hev.
  simpl in Hev. rewrite Hp in Hev.
  destruct (evalNodes nf (fnCache e) (fst (propagate ns2 (wires e))))
    as [[c ns4]|[c ns4]]; simpl in *;
    (destruct (mapGet k ns4) as [n'|]; [|contradiction]);
    exists n'; split; auto; destruct Hev as (_ & _ & Hin); exact Hin.
Qed.

(** What the last wire on an input pin leaves there after a tick. *)
Lemma wire_after_tick nf (timestamp : Z) (e : CircuitEngine)
    (pre post : list Wire) (w : Wire) (a b : LogicNode) :
  accepted timestamp e = true ->
  wires e = pre ++ w :: post ->
  mapGet (sourceNodeId w) (nodes e) = Some a ->
  mapGet (targetNodeId w) (nodes e) = Some b ->
  (forall w', In w' post ->
     targetNodeId w' = targetNodeId w ->
     targetPinIndex w' = targetPinIndex w ->
     wireLive (nodes e) w' = false) ->
  exists b',
    mapGet (targetNodeId w) (nodes (completed (tick nf timestamp e)))
    = Some b' /\
    arrGet (inputs b') (targetPinIndex w)
    = Some (truthy (arrGet (outputs (updateClock (S (tickCount e)) a))
                      (sourcePinIndex w))) /\
    (type a <> CLOCK ->
     arrGet (inputs b') (targetPinIndex w)
     = Some (truthy (arrGet (outputs a) (sourcePinIndex w)))).
Proof.
  intros Hacc Hw Ha Hb Hpost.
  destruct (tick_accepted_inputs nf timestamp e (targetNodeId w) b Hacc Hb)
    as (b' & Hb' & Hin).
  exists b'. split; [exact Hb'|].
  set (ns2 := mapForEach resetInputs
                (mapForEach (updateClock (S (tickCount e))) (nodes e))) in *.
  assert (Hget : forall k, mapGet k ns2
                 = option_map (fun n => resetInputs (updateClock (S (tickCount e)) n))
                     (mapGet k (nodes e))).
  { intros k. unfold ns2. rewrite !mapGet_mapForEach.
    destruct (mapGet k (nodes e)); reflexivity. }
  assert (Hlive : forall w0, wireLive ns2 w0 = wireLive (nodes e) w0).
  { intros w0. unfold wireLive, mapHas. rewrite !Hget.
    destruct (mapGet (sourceNodeId w0) (nodes e)),
             (mapGet (targetNodeId w0) (nodes e)); reflexivity. }
  assert (Hval : wireValue ns2 w
                 = truthy (arrGet (outputs (updateClock (S (tickCount e)) a))
                             (sourcePinIndex w))).
  { unfold wireValue. rewrite Hget, Ha. simpl.
    now rewrite outputs_resetInputs. }
  assert (Hmain : arrGet (inputs b') (targetPinIndex w)
                  = Some (wireValue ns2 w)).
  { rewrite Hin, Hw. apply drive_last.
    - rewrite Hlive. unfold wireLive, mapHas. now rewrite Ha, Hb.
    - intros w' Hin' Ht Hp. rewrite Hlive. now apply Hpost. }
  rewrite Hmain, Hval. split; [reflexivity|].
  intros Hty. now rewrite updateClock_other.
Qed.

(** C2 (amended). For a wire from output pin [i] of node [A] to input pin
    [j] of node [B], both present, that no later live wire of the wire list
    follows on the same input pin: after one tick that runs (forced, or
    accepted by the run gate) [B.inputs[j]] is the boolean reading of
    [A.outputs[i]] as it stands after the clock update of that tick; when
    [A] is not a CLOCK that is [A.outputs[i]] as it stood at the start of
    the tick (an absent slot reads as [false]). This holds whether the
    evaluation phase ends normally or not. *)
Theorem C2_propagation_amended nf (timestamp : Z) (e : CircuitEngine)
    (pre post : list Wire) (w : Wire) (a b : LogicNode) :
  accepted timestamp e = true ->
  wires e = pre ++ w :: post ->
  mapGet (sourceNodeId w) (nodes e) = Some a ->
  mapGet (targetNodeId w) (nodes e) = Some b ->
  (forall w', In w' post ->
     targetNodeId w' = targetNodeId w ->
     targetPinIndex w' = targetPinIndex w ->
     wireLive (nodes e) w' = false) ->
  exists b',
    mapGet (targetNodeId w) (nodes (completed (tick nf timestamp e)))
    = Some b' /\
    arrGet (inputs b') (targetPinIndex w)
    = Some (truthy (arrGet (outputs (updateClock (S (tickCount e)) a))
                      (sourcePinIndex w))) /\
    (type a <> CLOCK ->
     arrGet (inputs b') (targetPinIndex w)
     = Some (truthy (arrGet (outputs a) (sourcePinIndex w)))).
Proof. apply wire_after_tick. Qed.

Lemma C2_propagation_amended_witness :
  exists b',
    mapGet "n2" (nodes (completed (tick noCompile (-1)
                                     (toggleBoth noCompile "n0" "n1" demoWired)))) = Some b' /\
    arrGet (inputs b') 0 = Some true.
Proof.
  set (e := toggleBoth noCompile "n0" "n1" demoWired).
  assert (Hw : wires e = [] ++ hd clockWire (wires e) :: tl (wires e))
    by (vm_compute; reflexivity).
  assert (Ha : mapGet (sourceNodeId (hd clockWire (wires e))) (nodes e)
               = Some (nodeAt "n0" e)) by (vm_compute; reflexivity).
  assert (Hb : mapGet (targetNodeId (hd clockWire (wires e))) (nodes e)
               = Some (nodeAt "n2" e)) by (vm_compute; reflexivity).
  assert (Hpost : forall w', In w' (tl (wires e)) ->
            targetNodeId w' = targetNodeId (hd clockWire (wires e)) ->
            targetPinIndex w' = targetPinIndex (hd clockWire (wires e)) ->
            wireLive (nodes e) w' = false).
  { vm_compute. intros w' [<- | [<- | []]] Ht Hp;
      try discriminate Hp; inversion Ht. }
  destruct (C2_propagation_amended noCompile (-1) e [] (tl (wires e))
              (hd clockWire (wires e)) (nodeAt "n0" e) (nodeAt "n2" e)
              (accepted_forced e) Hw Ha Hb Hpost) as (b' & Hb' & Hv & _).
  exists b'. vm_compute in Hb', Hv |- *. split; [exact Hb' | exact Hv].
Defined.

(** C2, as worded, fails on a CLOCK source: the clock update runs before
    propagation. With the tick counter at 4 the CLOCK [n4] outputs [true];
    the next tick sets it to [false] first, so the LIGHT input it drives is
    [false] after the tick, not the [true] that stood at tick start. *)
Lemma C2_counterexample_clock :
  In clockWire (wires clockDemo) /\
  ~ propagationConsistent noCompile clockDemo clockWire.
Proof.
  split.
  - vm_compute. left. reflexivity.
  - intros H.
    assert (Ha : mapGet (sourceNodeId clockWire) (nodes clockDemo)
                 = Some (nodeAt "n4" clockDemo)) by (vm_compute; reflexivity).
    assert (Hb : mapGet (targetNodeId clockWire) (nodes clockDemo)
                 = Some (nodeAt "n3" clockDemo)) by (vm_compute; reflexivity).
    specialize (H _ _ Ha Hb). vm_compute in H. discriminate H.
Qed.

(** It also fails for a wire that a later wire follows on the same pin: the
    later wire wins. Switch [n0] is on, yet the AND input it drives reads the
    output of switch [n1]. *)
Example two_drivers_last_wins :
  In firstDriver (wires twoDrivers) /\
  ~ propagationConsistent noCompile twoDrivers firstDriver.
Proof.
  split.
  - vm_compute. left. reflexivity.
  - intros H.
    assert (Ha : mapGet (sourceNodeId firstDriver) (nodes twoDrivers)
                 = Some (nodeAt "n0" twoDrivers)) by (vm_compute; reflexivity).
    assert (Hb : mapGet (targetNodeId firstDriver) (nodes twoDrivers)
                 = Some (nodeAt "n2" twoDrivers)) by (vm_compute; reflexivity).
    specialize (H _ _ Ha Hb). vm_compute in H. discriminate H.
Qed.

(** ** The clock *)

Lemma evalNode_passive nf (c : JsMap Fn) (n : LogicNode) :
  isPassive (type n) = true -> evalNode nf c n = Normal (c, n).
Proof.
  unfold evalNode. destruct (type n); simpl; try discriminate; reflexivity.
Qed.

Lemma evalNodes_passive nf (ns : JsMap LogicNode) :
  forall c k n,
    mapGet k ns = Some n ->
    isPassive (type n) = true ->
    mapGet k (snd (completed (evalNodes nf c ns))) = Some n.
Proof.
  induction ns as [|[k0 n0] r IH]; intros c k n Hk Hp; simpl in *.
  - discriminate.
  - destruct (k0 =? k) eqn:E.
    + inversion Hk; subst n0. rewrite evalNode_passive by assumption.
      destruct (evalNodes nf c r) as [[c2 r2]|[c2 r2]]; simpl; now rewrite E.
    + destruct (evalNode nf c n0) as [[c1 n1]|[c1 n1]]; simpl.
      * specialize (IH c1 k n Hk Hp).
        destruct (evalNodes nf c1 r) as [[c2 r2]|[c2 r2]]; simpl in *;
          now rewrite E.
      * now rewrite E.
Qed.

Lemma tickCount_forced nf (e : CircuitEngine) :
  tickCount (completed (tick nf (-1) e)) = S (tickCount e).
Proof.
  rewrite tick_forced. cbv zeta.
  destruct (evalNodes nf _ _) as [[c ns4]|[c ns4]]; reflexivity.
Qed.

Lemma reset_clock (tc : nat) (n : LogicNode) :
  type n = CLOCK ->
  resetInputs (updateClock tc n)
  = set_outputs (arrSet 0 (Some (clockLevel tc)) (outputs n)) n.
Proof.
  intros Hty. unfold updateClock. rewrite Hty.
  unfold resetInputs. simpl. rewrite Hty. reflexivity.
Qed.

Lemma tick_forced_clock nf (e : CircuitEngine) (k : string) (n : LogicNode) :
  mapGet k (nodes e) = Some n ->
  type n = CLOCK ->
  exists n',
    mapGet k (nodes (completed (tick nf (-1) e))) = Some n' /\
    type n' = CLOCK /\
    arrGet (outputs n') 0 = Some (clockLevel (S (tickCount e))).
Proof.
  intros Hk Hty.
  set (ns2 := mapForEach resetInputs
                (mapForEach (updateClock (S (tickCount e))) (nodes e))).
  assert (Hns2 : mapGet k ns2
                 = Some (resetInputs (updateClock (S (tickCount e)) n))).
  { unfold ns2. rewrite !mapGet_mapForEach, Hk. reflexivity. }
  pose proof (propagate_get (wires e) ns2 k) as Hp.
  rewrite Hns2 in Hp. simpl in Hp.
  match type of Hp with _ = Some ?x => set (n3 := x) in * end.
  assert (Hp3 : isPassive (type n3) = true).
  { unfold n3. rewrite reset_clock by assumption. simpl. now rewrite Hty. }
  pose proof (evalNodes_passive nf _ (fnCache e) k n3 Hp Hp3) as Hev.
  exists n3. split; [|split].
  - rewrite tick_forced. cbv zeta. fold ns2.
    destruct (evalNodes nf (fnCache e) (fst (propagate ns2 (wires e))))
      as [[c ns4]|[c ns4]]; exact Hev.
  - unfold n3. rewrite reset_clock by assumption. exact Hty.
  - unfold n3. rewrite reset_clock by assumption. simpl.
    destruct (outputs n); reflexivity.
Qed.

Lemma forcedTicks_clock nf (k : string) (j : nat) :
  forall (e : CircuitEngine) (n : LogicNode),
    mapGet k (nodes e) = Some n ->
    type n = CLOCK ->
    exists n',
      mapGet k (nodes (forcedTicks nf (S j) e)) = Some n' /\
      type n' = CLOCK /\
      arrGet (outputs n') 0 = Some (clockLevel (tickCount e + S j)).
Proof.
  induction j as [|j IH]; intros e n Hk Hty.
  - simpl. replace (tickCount e + 1) with (S (tickCount e)) by lia.
    now apply tick_forced_clock with (n := n).
  - destruct (tick_forced_clock nf e k n Hk Hty) as (n1 & Hk1 & Hty1 & _).
    destruct (IH _ n1 Hk1 Hty1) as (n' & Hk' & Hty' & Hout).
    exists n'. rewrite tickCount_forced in Hout.
    replace (tickCount e + S (S j)) with (S (tickCount e) + S j) by lia.
    change (forcedTicks nf (S (S j)) e)
      with (forcedTicks nf (S j) (completed (tick nf (-1) e))).
    auto.
Qed.

(** C5 (amended). On an engine whose tick counter is 0, a CLOCK node's
    output after the [j]-th forced tick ([j >= 1]) is high exactly when
    [floor(j / 5)] is even, [j] being the tick counter after the increment
    that opens the tick. Over 10 consecutive forced ticks it is high after
    ticks 1-4, low after ticks 5-9 and high again after tick 10: the first
    high phase lasts four ticks, every later phase five. *)
Theorem C5_clock_amended nf (e : CircuitEngine) (k : string) (n : LogicNode) :
  tickCount e = 0 ->
  mapGet k (nodes e) = Some n ->
  type n = CLOCK ->
  (forall j, 1 <= j ->
     arrGet (outputs (nodeAt k (forcedTicks nf j e))) 0
     = Some (Nat.even (j / 5))) /\
  clockTrace nf k e 1 10
  = map Some [true; true; true; true; false; false; false; false; false; true].
Proof.
  intros Htc Hk Hty.
  assert (Hall : forall j, 1 <= j ->
            arrGet (outputs (nodeAt k (forcedTicks nf j e))) 0
            = Some (Nat.even (j / 5))).
  { intros [|j] Hj; [lia|].
    destruct (forcedTicks_clock nf k j e n Hk Hty) as (n' & Hk' & _ & Hout).
    unfold nodeAt. rewrite Hk', Hout, Htc. reflexivity. }
  split; [exact Hall|].
  unfold clockTrace. cbn [seq map].
  rewrite !Hall by lia. reflexivity.
Qed.

Lemma C5_clock_amended_witness :
  clockTrace noCompile "n4" clockFresh 1 10
  = map Some [true; true; true; true; false; false; false; false; false; true].
Proof.
  assert (Htc : tickCount clockFresh = 0) by (vm_compute; reflexivity).
  assert (Hk : mapGet "n4" (nodes clockFresh) = Some (nodeAt "n4" clockFresh))
    by (vm_compute; reflexivity).
  assert (Hty : type (nodeAt "n4" clockFresh) = CLOCK)
    by (vm_compute; reflexivity).
  exact (proj2 (C5_clock_amended noCompile clockFresh "n4"
                  (nodeAt "n4" clockFresh) Htc Hk Hty)).
Defined.

(** C5, as worded, fails on a fresh engine with a CLOCK: the output after
    the 5th forced tick is already low and after the 10th it is high again;
    read before each tick instead, the first reading (no tick yet) is low. *)
Lemma C5_counterexample :
  tickCount clockFresh = 0 /\
  type (nodeAt "n4" clockFresh) = CLOCK /\
  clockTrace noCompile "n4" clockFresh 1 10 <> documentedClockTrace /\
  clockTrace noCompile "n4" clockFresh 0 10 <> documentedClockTrace.
Proof.
  split; [vm_compute; reflexivity|].
  split; [vm_compute; reflexivity|].
  split; vm_compute; intros H; discriminate H.
Qed.

(** ** IC evaluation that finds nothing to run *)

(** C4 (amended). During the evaluation of an IC node: when its
    generated-code body does not compile, the failure is caught, no
    exception leaves the evaluation and the node (its outputs in particular)
    and the function cache are unchanged; when the IC carries only a truth
    table and the input bit-string matches no key, the node is unchanged as
    well. *)
Theorem C4_ic_nothing_to_run nf (cache : JsMap Fn) (node : LogicNode) :
  type node = IC ->
  compileFails nf cache node \/ tableMisses node ->
  evalNode nf cache node = Normal (cache, node).
Proof.
  intros Hty [(Hcf & Hmiss & Hnf) | (Hcf & table & Htt & Hkey)];
    unfold evalNode; rewrite Hty, Hcf.
  - rewrite Hmiss.
    destruct (compiledFunction node) as [body|] eqn:Eb; [|discriminate].
    rewrite (Hnf body eq_refl). reflexivity.
  - rewrite Htt, Hkey. reflexivity.
Qed.

Lemma C4_ic_nothing_to_run_witness :
  let broken :=
    mkNode "ic" IC (mkVector2 0 0) [Some true] [Some true] None None None
      None None (Some 1) (Some 1) None None None None None
      (Some "return {") None None in
  evalNode noCompile [] broken = Normal ([], broken).
Proof.
  intros broken. apply C4_ic_nothing_to_run.
  - reflexivity.
  - left. repeat split.
Defined.

(** C4, as worded, fails for a body that compiles and throws when it runs:
    only [new Function] is inside the [try], the call of the function is
    not, so the exception leaves the evaluation of the chip [n4] and the
    tick. *)
Lemma C4_counterexample :
  type (nodeAt "n4" demoBadChip) = IC /\
  ~ tickNeverThrows throwHost (-1) demoBadChip.
Proof.
  split; [vm_compute; reflexivity|].
  intros (e' & H). vm_compute in H. discriminate H.
Qed.

(** When the host compiles no body at all, a whole tick ends normally and
    every IC that has a body keeps its outputs. *)
Lemma evalNodes_no_compile nf (ns : JsMap LogicNode) :
  (forall body, nf body = None) ->
  exists ns',
    evalNodes nf [] ns = Normal ([], ns') /\
    forall k n, mapGet k ns = Some n ->
      type n = IC -> strTruthy (compiledFunction n) = true ->
      mapGet k ns' = Some n.
Proof.
  intros Hnf. induction ns as [|[k0 n0] r (r' & Hr & IH)]; simpl.
  - exists []. split; [reflexivity | intros k n Hk; discriminate Hk].
  - assert (H0 : exists n1, evalNode nf [] n0 = Normal ([], n1) /\
                   (type n0 = IC -> strTruthy (compiledFunction n0) = true ->
                    n1 = n0)).
    { unfold evalNode.
      destruct (type n0); simpl;
        try (eexists; split; [reflexivity | discriminate]).
      destruct (strTruthy (compiledFunction n0)).
      - rewrite Hnf. eauto.
      - destruct (truthTable n0) as [table|];
          [destruct (lookupKey _ _)|];
          (eexists; split; [reflexivity | discriminate]). }
    destruct H0 as (n1 & E1 & Hsame). rewrite E1, Hr.
    exists ((k0, n1) :: r'). split; auto.
    intros k n Hk Hty Hcf. simpl.
    destruct (k0 =? k); auto.
    inversion Hk; subst n0. now rewrite Hsame.
Qed.

Lemma tick_no_compile nf (e : CircuitEngine) :
  (forall body, nf body = None) ->
  fnCache e = [] ->
  exists e',
    tick nf (-1) e = Normal e' /\
    forall k n, mapGet k (nodes e) = Some n ->
      type n = IC -> strTruthy (compiledFunction n) = true ->
      exists n', mapGet k (nodes e') = Some n' /\ outputs n' = outputs n.
Proof.
  intros Hnf Hc. rewrite tick_forced. cbv zeta. rewrite Hc.
  set (ns2 := mapForEach resetInputs
                (mapForEach (updateClock (S (tickCount e))) (nodes e))).
  destruct (evalNodes_no_compile nf (fst (propagate ns2 (wires e))) Hnf)
    as (ns4 & Hev & Hkeep).
  rewrite Hev. eexists. split; [reflexivity|].
  intros k n Hk Hty Hcf. simpl.
  pose proof (propagate_get (wires e) ns2 k) as Hp.
  assert (Hns2 : mapGet k ns2 = Some (set_inputs (fill false (inputs n)) n)).
  { unfold ns2. rewrite !mapGet_mapForEach, Hk. simpl.
    rewrite updateClock_other by congruence.
    unfold resetInputs. now rewrite Hty. }
  rewrite Hns2 in Hp. simpl in Hp.
  eexists. split.
  - apply Hkeep with (k := k); [exact Hp | exact Hty | exact Hcf].
  - reflexivity.
Qed.

(** ** Pin remapping *)

Lemma length_arrSet_in A (i : nat) (v : option A) (a : list (option A)) :
  i < List.length a -> List.length (arrSet i v a) = List.length a.
Proof.
  revert a. induction i as [|i IH]; intros [|h r] Hi; simpl in *; try lia.
  rewrite IH by lia. reflexivity.
Qed.

Lemma arrGet_arrSet A (i j : nat) (v : option A) (a : list (option A)) :
  arrGet (arrSet i v a) j = if (i =? j)%nat then v else arrGet a j.
Proof.
  destruct (Nat.eqb_spec i j) as [->|Hne].
  - apply arrGet_arrSet_same.
  - now apply arrGet_arrSet_other.
Qed.

Lemma indexOf_In (v : nat) (m : list (option nat)) :
  In (Some v) m ->
  exists q, indexOf Nat.eqb v m = Some q /\
            q < List.length m /\ arrGet m q = Some v.
Proof.
  induction m as [|[h|] r IH]; simpl; intros Hin.
  - contradiction.
  - destruct (Nat.eqb_spec h v) as [->|Hne].
    + exists 0. repeat split. lia.
    + destruct Hin as [Heq | Hin]; [congruence|].
      destruct (IH Hin) as (q & Hq & Hlt & Hget).
      exists (S q). rewrite Hq. repeat split; [lia | exact Hget].
  - destruct Hin as [Heq | Hin]; [discriminate|].
    destruct (IH Hin) as (q & Hq & Hlt & Hget).
    exists (S q). rewrite Hq. repeat split; [lia | exact Hget].
Qed.

Lemma indexOf_None (v : nat) (m : list (option nat)) :
  indexOf Nat.eqb v m = None -> ~ In (Some v) m.
Proof.
  induction m as [|[h|] r IH]; simpl; auto.
  - destruct (Nat.eqb_spec h v) as [->|Hne]; [discriminate|].
    destruct (indexOf Nat.eqb v r); [discriminate|].
    intros _ [Heq | Hin]; [congruence | now apply IH].
  - destruct (indexOf Nat.eqb v r); [discriminate|].
    intros _ [Heq | Hin]; [discriminate | now apply IH].
Qed.

Lemma NoDup_map_Some A (l : list A) : NoDup l -> NoDup (map Some l).
Proof.
  induction 1 as [|x l Hx Hnd IH]; simpl; constructor; auto.
  rewrite in_map_iff. intros (y & Hy & Hin). congruence.
Qed.

(** What being a permutation of [0 .. n-1] amounts to. *)
Lemma isPermutation_spec (n : nat) (m : list (option nat)) :
  isPermutation n m <->
  NoDup m /\ List.length m = n /\ forall x, In x m -> exists i, i < n /\ x = Some i.
Proof.
  unfold isPermutation. split.
  - intros Hp. split; [|split].
    + apply Permutation_NoDup with (l := map Some (seq 0 n)).
      * now apply Permutation_sym.
      * apply NoDup_map_Some, seq_NoDup.
    + rewrite (Permutation_length Hp), length_map, length_seq. reflexivity.
    + intros x Hx. apply (Permutation_in _ Hp) in Hx.
      apply in_map_iff in Hx. destruct Hx as (i & <- & Hi).
      apply in_seq in Hi. exists i. split; [lia | reflexivity].
  - intros (Hnd & Hlen & Hin).
    apply NoDup_Permutation_bis; auto.
    + rewrite length_map, length_seq. lia.
    + intros x Hx. destruct (Hin x Hx) as (i & Hi & ->).
      apply in_map, in_seq. lia.
Qed.

Lemma isPermutation_identity (n : nat) : isPermutation n (map Some (seq 0 n)).
Proof. apply Permutation_refl. Qed.

Lemma arrSet_same_value A (i : nat) (a : list (option A)) :
  i < List.length a -> arrSet i (arrGet a i) a = a.
Proof.
  unfold arrGet. revert a.
  induction i as [|i IH]; intros [|h r] Hi; simpl in *; try lia; auto.
  rewrite IH by lia. reflexivity.
Qed.

(** One call of the swap block on a permutation, with pin and port in
    range: the result is a permutation, the pin holds the port, the pin that
    held the port before (if another) takes the old port of the pin, and no
    other pin changes. *)
Lemma remapPin_swaps (n : nat) (c : option nat) (m : list (option nat))
    (p v : nat) :
  isPermutation n m -> p < n -> v < n ->
  let m' := remapPin c (Some m) p v in
  isPermutation n m' /\
  arrGet m' p = Some v /\
  (forall q, q <> p -> arrGet m q = Some v -> arrGet m' q = arrGet m p) /\
  (forall q, q <> p -> arrGet m q <> Some v -> arrGet m' q = arrGet m q).
Proof.
  intros Hperm Hp Hv m'.
  pose proof Hperm as Hspec. apply isPermutation_spec in Hspec.
  destruct Hspec as (Hnd & Hlen & Hin).
  assert (Hv_in : In (Some v) m).
  { apply Permutation_in with (l := map Some (seq 0 n)).
    - now apply Permutation_sym.
    - apply in_map, in_seq. lia. }
  destruct (indexOf_In v m Hv_in) as (q0 & Hidx & Hq0 & Hget0).
  assert (Huniq : forall q, arrGet m q = Some v -> q = q0).
  { intros q Hq.
    destruct (Nat.lt_ge_cases q (List.length m)) as [Hlt | Hge].
    - apply (proj1 (NoDup_nth m None) Hnd); auto.
      unfold arrGet in *. congruence.
    - unfold arrGet in Hq. rewrite nth_overflow in Hq by lia. discriminate. }
  unfold m', remapPin. rewrite Hidx.
  destruct (Nat.eqb_spec q0 p) as [-> | Hne].
  - (* the pin already holds the port *)
    rewrite <- Hget0. rewrite arrSet_same_value by lia.
    repeat split; auto.
  - (* a real swap of pins [p] and [q0] *)
    set (m2 := arrSet p (Some v) (arrSet q0 (arrGet m p) m)).
    set (sw := fun j => if (p =? j)%nat then q0
                        else if (q0 =? j)%nat then p else j).
    assert (Hm2 : forall j, arrGet m2 j = arrGet m (sw j)).
    { intros j. unfold m2, sw. rewrite !arrGet_arrSet.
      destruct (Nat.eqb_spec p j); [congruence|].
      destruct (Nat.eqb_spec q0 j); reflexivity. }
    assert (Hlen2 : List.length m2 = n).
    { unfold m2. rewrite !length_arrSet_in; try lia.
      rewrite length_arrSet_in; lia. }
    assert (Hsw_lt : forall j, j < n -> sw j < n).
    { intros j Hj. unfold sw.
      destruct (Nat.eqb_spec p j); [lia|].
      destruct (Nat.eqb_spec q0 j); lia. }
    assert (Hsw_inj : forall i j, sw i = sw j -> i = j).
    { intros i j. unfold sw.
      destruct (Nat.eqb_spec p i), (Nat.eqb_spec p j),
               (Nat.eqb_spec q0 i), (Nat.eqb_spec q0 j); lia. }
    split; [|split; [|split]].
    + apply isPermutation_spec. split; [|split]; auto.
      * apply (proj2 (NoDup_nth m2 None)). intros i j Hi Hj Hij.
        fold (arrGet m2 i) in Hij. fold (arrGet m2 j) in Hij.
        rewrite !Hm2 in Hij. apply Hsw_inj.
        apply (proj1 (NoDup_nth m None) Hnd); auto.
        -- rewrite Hlen. apply Hsw_lt. lia.
        -- rewrite Hlen. apply Hsw_lt. lia.
      * intros x Hx. apply (In_nth _ _ None) in Hx.
        destruct Hx as (j & Hj & Hnth). fold (arrGet m2 j) in Hnth.
        rewrite Hm2 in Hnth. apply Hin. rewrite <- Hnth.
        apply nth_In. rewrite Hlen. apply Hsw_lt. lia.
    + unfold m2. apply arrGet_arrSet_same.
    + intros q Hq Hqv. apply Huniq in Hqv. subst q.
      rewrite Hm2. unfold sw.
      destruct (Nat.eqb_spec p q0); [congruence|].
      now rewrite Nat.eqb_refl.
    + intros q Hq Hqv. rewrite Hm2. unfold sw.
      destruct (Nat.eqb_spec p q); [congruence|].
      destruct (Nat.eqb_spec q0 q); [subst q; contradiction | reflexivity].
Qed.

Lemma nodes_saveState (e : CircuitEngine) : nodes (saveState e) = nodes e.
Proof.
  unfold saveState.
  destruct (isRestoringHistory e); [reflexivity|].
  destruct (isTop _ _); reflexivity.
Qed.

Lemma remapPin_unset (c : option nat) (p v : nat) :
  remapPin c None p v = remapPin c (Some (map Some (seq 0 (countOr0 c)))) p v.
Proof. reflexivity. Qed.

(** One [updateIOMapping] call on an IC: the node under the key afterwards. *)
Lemma updateIOMapping_node (nodeId : string) (kind : PinKind) (p v : nat)
    (e : CircuitEngine) (node : LogicNode) :
  mapGet nodeId (nodes e) = Some node ->
  type node = IC ->
  exists node',
    mapGet nodeId (nodes (updateIOMapping nodeId kind p v e)) = Some node' /\
    type node' = IC /\
    countOf kind node' = countOf kind node /\
    mappingOf kind node'
    = Some (remapPin (Some (countOf kind node))
              (Some (effectiveMapping kind node)) p v).
Proof.
  intros Hk Hty. unfold updateIOMapping. rewrite Hk, Hty.
  unfold triggerUpdate. simpl. rewrite nodes_saveState.
  rewrite mapGet_mapSet_same. eexists. split; [reflexivity|].
  unfold effectiveMapping, mappingOf, countOf.
  destruct kind; simpl; repeat split; auto.
Qed.

Lemma remapAll_invariant (nodeId : string) (kind : PinKind)
    (calls : list (nat * nat)) :
  forall (e : CircuitEngine) (node : LogicNode),
    mapGet nodeId (nodes e) = Some node ->
    type node = IC ->
    isPermutation (countOf kind node) (effectiveMapping kind node) ->
    Forall (fun c => fst c < countOf kind node /\ snd c < countOf kind node)
      calls ->
    exists node',
      mapGet nodeId (nodes (remapAll nodeId kind calls e)) = Some node' /\
      type node' = IC /\
      countOf kind node' = countOf kind node /\
      isPermutation (countOf kind node) (effectiveMapping kind node').
Proof.
  induction calls as [|[p v] r IH]; intros e node Hk Hty Hperm Hall; simpl.
  - exists node. auto.
  - inversion Hall as [|c r' [Hp Hv] Hr]; subst. simpl in Hp, Hv.
    destruct (updateIOMapping_node nodeId kind p v e node Hk Hty)
      as (n1 & Hk1 & Hty1 & Hc1 & Hm1).
    destruct (remapPin_swaps (countOf kind node) (Some (countOf kind node))
                (effectiveMapping kind node) p v Hperm Hp Hv)
      as (Hperm1 & _).
    assert (He1 : effectiveMapping kind n1
                  = remapPin (Some (countOf kind node))
                      (Some (effectiveMapping kind node)) p v).
    { unfold effectiveMapping at 1. now rewrite Hm1. }
    destruct (IH _ n1 Hk1 Hty1) as (n2 & Hk2 & Hty2 & Hc2 & Hperm2).
    + rewrite Hc1, He1. exact Hperm1.
    + now rewrite Hc1.
    + exists n2. rewrite Hc1 in Hc2, Hperm2. auto.
Qed.

(** C7 (amended). On an IC whose mapping of one direction is unset or a
    permutation of [0 .. n-1] ([n] the declared count of that direction),
    after any sequence of [updateIOMapping] calls with pin and port below
    [n], one more such call leaves a mapping that is again a permutation of
    [0 .. n-1]; the call swaps: pin [p] now maps to port [v], a different
    pin [q] that mapped to [v] now maps to the port [p] held, and every
    other pin keeps its port. *)
Theorem C7_pin_remap_bijection (nodeId : string) (kind : PinKind)
    (calls : list (nat * nat)) (p v : nat) (e : CircuitEngine)
    (node : LogicNode) :
  mapGet nodeId (nodes e) = Some node ->
  type node = IC ->
  isPermutation (countOf kind node) (effectiveMapping kind node) ->
  Forall (fun c => fst c < countOf kind node /\ snd c < countOf kind node)
    calls ->
  p < countOf kind node ->
  v < countOf kind node ->
  let e1 := remapAll nodeId kind calls e in
  let e2 := updateIOMapping nodeId kind p v e1 in
  let m1 := effectiveMapping kind (nodeAt nodeId e1) in
  exists m2,
    mappingOf kind (nodeAt nodeId e2) = Some m2 /\
    isPermutation (countOf kind node) m2 /\
    arrGet m2 p = Some v /\
    (forall q, q <> p -> arrGet m1 q = Some v -> arrGet m2 q = arrGet m1 p) /\
    (forall q, q <> p -> arrGet m1 q <> Some v -> arrGet m2 q = arrGet m1 q).
Proof.
  intros Hk Hty Hperm Hall Hp Hv e1 e2 m1.
  destruct (remapAll_invariant nodeId kind calls e node Hk Hty Hperm Hall)
    as (n1 & Hk1 & Hty1 & Hc1 & Hperm1).
  fold e1 in Hk1.
  destruct (updateIOMapping_node nodeId kind p v e1 n1 Hk1 Hty1)
    as (n2 & Hk2 & _ & _ & Hm2).
  fold e2 in Hk2.
  assert (Hn1 : nodeAt nodeId e1 = n1) by (unfold nodeAt; now rewrite Hk1).
  assert (Hn2 : nodeAt nodeId e2 = n2) by (unfold nodeAt; now rewrite Hk2).
  unfold m1. rewrite Hn1, Hn2, Hm2, Hc1.
  eexists. split; [reflexivity|].
  apply remapPin_swaps; assumption.
Qed.

Lemma C7_pin_remap_bijection_witness :
  exists m2,
    mappingOf input
      (nodeAt "n7" (updateIOMapping "n7" input 1 1
                      (remapAll "n7" input [(0, 1)] demoPacked))) = Some m2 /\
    isPermutation 2 m2.
Proof.
  assert (Hk : mapGet "n7" (nodes demoPacked) = Some (nodeAt "n7" demoPacked))
    by (vm_compute; reflexivity).
  assert (Hty : type (nodeAt "n7" demoPacked) = IC)
    by (vm_compute; reflexivity).
  assert (Hn : countOf input (nodeAt "n7" demoPacked) = 2)
    by (vm_compute; reflexivity).
  assert (Hperm : isPermutation (countOf input (nodeAt "n7" demoPacked))
                    (effectiveMapping input (nodeAt "n7" demoPacked))).
  { rewrite Hn. vm_compute. apply Permutation_refl. }
  assert (Hall : Forall (fun c => fst c < countOf input (nodeAt "n7" demoPacked)
                               /\ snd c < countOf input (nodeAt "n7" demoPacked))
                   [(0, 1)]).
  { rewrite Hn. repeat constructor. }
  assert (Hp : 1 < countOf input (nodeAt "n7" demoPacked))
    by (rewrite Hn; lia).
  destruct (C7_pin_remap_bijection "n7" input [(0, 1)] 1 1 demoPacked
              (nodeAt "n7" demoPacked) Hk Hty Hperm Hall Hp Hp)
    as (m2 & Hm2 & Hperm2 & _).
  exists m2. rewrite Hn in Hperm2. split; [exact Hm2 | exact Hperm2].
Defined.

(** C7, as worded, fails for a port past the declared count:
    [updateIOMapping] checks no range, and on the packed demo chip (two
    input pins) the call with pin 0 and port 7 leaves the mapping [7, 1]. *)
Lemma C7_counterexample :
  ~ remapKeepsPermutation "n7" input [(0, 7)] demoPacked.
Proof.
  unfold remapKeepsPermutation.
  assert (Ec : countOf input (nodeAt "n7" demoPacked) = 2)
    by (vm_compute; reflexivity).
  assert (Em : effectiveMapping input
                 (nodeAt "n7" (remapAll "n7" input [(0, 7)] demoPacked))
               = [Some 7; Some 1])
    by (vm_compute; reflexivity).
  rewrite Ec, Em. intros Hp.
  apply isPermutation_spec in Hp. destruct Hp as (_ & _ & Hin).
  destruct (Hin (Some 7)) as (i & Hi & Heq); [now left|].
  inversion Heq. lia.
Qed.

(** ** Library import *)




(** ** History *)

Lemma sameSnapshot_false (a b : Snapshot) : sameSnapshot a b = false -> a <> b.
Proof.
  unfold sameSnapshot. destruct (Snapshot_eq_dec a b); congruence.
Qed.

Lemma sameSnapshot_true (a b : Snapshot) : sameSnapshot a b = true -> a = b.
Proof.
  unfold sameSnapshot. destruct (Snapshot_eq_dec a b); congruence.
Qed.

(** C8, evaluated. On the wired demo circuit with switch [n0] selected,
    [deleteSelected] followed by [undo] does not give back the state before
    the deletion: it gives the state of the checkpoint before that one (the
    deleted node is back, the last wire drawn is gone); [redo] then gives the
    state before the deletion, not the state after it. *)
Theorem C8_delete_undo_evaluation :
  let pre := serialize demoSelected in
  let post := serialize (deleteSelected demoSelected) in
  let undone := serialize (undo (deleteSelected demoSelected)) in
  let redone := serialize (redo (undo (deleteSelected demoSelected))) in
  pre <> post /\
  undone <> pre /\
  map id (s_nodes undone) = ["n0"; "n1"; "n2"; "n3"] /\
  map wireId (s_wires pre) = ["n4"; "n5"; "n6"] /\
  map wireId (s_wires undone) = ["n4"; "n5"] /\
  redone = pre /\
  redone <> post.
Proof.
  cbv zeta.
  split; [apply sameSnapshot_false; vm_compute; reflexivity|].
  split; [apply sameSnapshot_false; vm_compute; reflexivity|].
  split; [vm_compute; reflexivity|].
  split; [vm_compute; reflexivity|].
  split; [vm_compute; reflexivity|].
  split; [apply sameSnapshot_true; vm_compute; reflexivity|].
  apply sameSnapshot_false; vm_compute; reflexivity.
Qed.

(** [paste] checkpoints after its change as well, and there undo and redo do
    what is expected of them. *)
Example paste_undo_redo :
  serialize (undo (paste demoCopied)) = serialize demoCopied /\
  serialize (redo (undo (paste demoCopied))) = serialize (paste demoCopied) /\
  serialize (paste demoCopied) <> serialize demoCopied.
Proof.
  split; [apply sameSnapshot_true; vm_compute; reflexivity|].
  split; [apply sameSnapshot_true; vm_compute; reflexivity|].
  apply sameSnapshot_false; vm_compute; reflexivity.
Qed.

(** ** Dangling wires *)

(** C6, evaluated. The packed demo IC is fed by an outside switch. Before
    the unpack no wire dangles. [unpackICToGroup] deletes the IC and keeps
    the wire that ends on it: afterwards that wire names a node that is no
    longer in the node map. A tick on that state still ends normally. *)
Theorem C6_unpack_leaves_dangling :
  noDangling demoFed = true /\
  In feedWire (wires (unpackICToGroup demoFed)) /\
  mapGet (targetNodeId feedWire) (nodes (unpackICToGroup demoFed)) = None /\
  noDangling (unpackICToGroup demoFed) = false /\
  threw (tick noCompile (-1) (unpackICToGroup demoFed)) = false.
Proof.
  split; [vm_compute; reflexivity|].
  split; [vm_compute; left; reflexivity|].
  split; [vm_compute; reflexivity|].
  split; vm_compute; reflexivity.
Qed.

(** ** Pack and unpack *)

(** The round trip evaluated on the demo group (two SWITCH nodes and one AND
    gate feeding one LIGHT): packed into an IC and unpacked again, it gives
    a graph with the same number of SWITCH, AND and LIGHT nodes and the same
    pin-to-pin wiring up to the renaming of nodes and wires. On the unpacked
    graph, toggling both switches on and forcing two ticks makes input pin 0
    of the LIGHT true, whether the simulator is running or idle. *)
Example demo_round_trip (running : bool) :
  countType SWITCH demoUnpacked = 2 /\
  countType AND demoUnpacked = 1 /\
  countType LIGHT demoUnpacked = 1 /\
  map (fun t => countType t demoUnpacked) [SWITCH; AND; LIGHT]
  = map (fun t => countType t demoGrouped) [SWITCH; AND; LIGHT] /\
  map (fun k => type (nodeAt (demoRenaming k) demoUnpacked))
    ["n0"; "n1"; "n2"; "n3"]
  = map (fun k => type (nodeAt k demoGrouped)) ["n0"; "n1"; "n2"; "n3"] /\
  map (wireShape (fun k => k)) (wires demoUnpacked)
  = map (wireShape demoRenaming) (wires demoGrouped) /\
  lightAfter running 2 = Some true.
Proof.
  split; [vm_compute; reflexivity|].
  split; [vm_compute; reflexivity|].
  split; [vm_compute; reflexivity|].
  split; [vm_compute; reflexivity|].
  split; [vm_compute; reflexivity|].
  split; [vm_compute; reflexivity|].
  destruct running; vm_compute; reflexivity.
Qed.

(** C3, as worded, fails on the idle simulator: after both switches are
    toggled on, one forced tick leaves input pin 0 of the LIGHT false (the
    AND output it reads is the one from before the tick). *)
Lemma C3_counterexample : lightAfter false 1 <> Some true.
Proof. vm_compute. intros H. discriminate H. Qed.

(** The two sibling operations do prune: [deleteSelected] and
    [packGroupToIC] keep every wire attached at both ends. *)

Lemma mapGet_mapDelete V (i k : string) (m : JsMap V) :
  mapGet k (mapDelete i m) = if i =? k then None else mapGet k m.
Proof.
  unfold mapDelete. induction m as [|[k0 v0] r IH]; simpl.
  - destruct (i =? k); reflexivity.
  - destruct (k0 =? i) eqn:E0; simpl.
    + apply String.eqb_eq in E0. subst k0. rewrite IH.
      destruct (i =? k); reflexivity.
    + rewrite IH. destruct (k0 =? k) eqn:E1; auto.
      apply String.eqb_eq in E1. subst k0.
      rewrite String.eqb_sym in E0. now rewrite E0.
Qed.

Lemma wires_saveState (e : CircuitEngine) : wires (saveState e) = wires e.
Proof.
  unfold saveState.
  destruct (isRestoringHistory e); [reflexivity|].
  destruct (isTop _ _); reflexivity.
Qed.

Lemma noDangling_saveState (e : CircuitEngine) :
  noDangling (saveState e) = noDangling e.
Proof. unfold noDangling. now rewrite nodes_saveState, wires_saveState. Qed.

Lemma wireLive_after_delete (i : string) (ns : JsMap LogicNode) (w : Wire) :
  touches i w = false ->
  wireLive (mapForEach (clearGroupRef i) (mapDelete i ns)) w = wireLive ns w.
Proof.
  unfold touches, wireLive, mapHas. intros Ht.
  apply orb_false_elim in Ht. destruct Ht as [Hs Ht].
  rewrite !mapGet_mapForEach, !mapGet_mapDelete.
  rewrite (String.eqb_sym i), Hs, (String.eqb_sym i), Ht.
  destruct (mapGet (sourceNodeId w) ns), (mapGet (targetNodeId w) ns);
    reflexivity.
Qed.

Lemma forallb_filter_keep A (f g : A -> bool) (l : list A) :
  forallb f l = true -> forallb f (filter g l) = true.
Proof.
  rewrite !forallb_forall. intros H x Hx.
  apply filter_In in Hx. now apply H.
Qed.

Lemma deleteSelected_noDangling (e : CircuitEngine) :
  noDangling e = true -> noDangling (deleteSelected e) = true.
Proof.
  intros H. unfold deleteSelected.
  assert (Hstep : forall ids acc,
            noDangling acc = true ->
            noDangling
              (fold_left
                 (fun acc i =>
                    set_fnCache (mapDelete i (fnCache acc))
                      (set_nodes (mapForEach (clearGroupRef i)
                                    (mapDelete i (nodes acc)))
                         (set_wires
                            (filter (fun w => negb (touches i w)) (wires acc))
                            acc)))
                 ids acc) = true).
  { induction ids as [|i r IH]; intros acc Hacc; simpl; auto.
    apply IH. unfold noDangling in *. simpl.
    rewrite forallb_forall in *. intros w Hw.
    apply filter_In in Hw. destruct Hw as [Hw Ht].
    apply negb_true_iff in Ht.
    rewrite wireLive_after_delete by assumption. now apply Hacc. }
  assert (Hmain : forall e2,
            noDangling e2 = true ->
            noDangling
              (triggerUpdate
                 (set_selectedWireIds []
                    (set_selectedNodeIds []
                       match selectedWireIds e2 with
                       | [] => e2
                       | sel =>
                           set_wires
                             (filter (fun w => negb (setHas (wireId w) sel))
                                (wires e2)) e2
                       end))) = true).
  { intros e2 H2. unfold triggerUpdate, noDangling in *.
    destruct (selectedWireIds e2); simpl; auto.
    now apply forallb_filter_keep. }
  destruct (selectedNodeIds e) eqn:Es; [destruct (selectedWireIds e) eqn:Ew|];
    auto; apply Hmain, Hstep; now rewrite noDangling_saveState.
Qed.

Lemma mapGet_delete_members (members : list LogicNode) :
  forall (ns : JsMap LogicNode) (k : string),
    mapGet k (fold_left (fun m n => mapDelete (id n) m) members ns)
    = if hasId k members then None else mapGet k ns.
Proof.
  induction members as [|n r IH]; intros ns k; simpl; auto.
  rewrite IH, mapGet_mapDelete.
  destruct (hasId k r); simpl; [now rewrite orb_true_r|].
  rewrite orb_false_r. reflexivity.
Qed.

Lemma packGroupToIC_noDangling (e : CircuitEngine) :
  noDangling e = true -> noDangling (packGroupToIC e) = true.
Proof.
  intros H. unfold packGroupToIC.
  destruct (findSelected GROUP e) as [g|]; auto.
  destruct (g =? ""); auto.
  destruct (mapGet g (nodes e)) as [groupNode|]; auto.
  set (members := filter (hasGroupId g) (mapValues (nodes e))).
  assert (Hmain : forall ic,
            noDangling
              (triggerUpdate
                 (set_selectedNodeIds [g]
                    (set_nodes
                       (mapSet g ic
                          (mapDelete g
                             (fold_left (fun m n => mapDelete (id n) m)
                                members (nodes (saveState e)))))
                       (set_wires
                          (filter
                             (fun w =>
                                negb (hasId (sourceNodeId w) members)
                                && negb (hasId (targetNodeId w) members))
                             (wires (saveState e)))
                          (saveState e))))) = true).
  { intros ic. unfold triggerUpdate, noDangling in *. simpl.
    rewrite nodes_saveState, wires_saveState.
    rewrite forallb_forall in *. intros w Hw.
    apply filter_In in Hw. destruct Hw as [Hw Hout].
    apply andb_true_iff in Hout. destruct Hout as [Hs Ht].
    apply negb_true_iff in Hs, Ht.
    specialize (H w Hw). unfold wireLive, mapHas in *.
    assert (Hget : forall k, hasId k members = false ->
              match mapGet k (nodes e) with Some _ => true | None => false end
              = true ->
              match mapGet k
                      (mapSet g ic
                         (mapDelete g
                            (fold_left (fun m n => mapDelete (id n) m)
                               members (nodes e)))) with
              | Some _ => true
              | None => false
              end = true).
    { intros k Hk Hin. destruct (String.eqb_spec g k) as [->|Hne].
      - now rewrite mapGet_mapSet_same.
      - rewrite mapGet_mapSet_other by assumption.
        rewrite mapGet_mapDelete, mapGet_delete_members, Hk.
        apply String.eqb_neq in Hne. now rewrite Hne. }
    apply andb_true_iff in H. destruct H as [H1 H2].
    rewrite (Hget _ Hs H1), (Hget _ Ht H2). reflexivity. }
  fold members.
  destruct (sortBy byY (filter (isType SWITCH) members));
    destruct (sortBy byY (filter (isType LIGHT) members));
    auto; apply Hmain.
Qed.

(** [unpackICToGroup] does not: whenever it runs, every wire of the graph
    is still there afterwards, and the IC it was attached to is gone. *)

Lemma wires_unpackNode (g : string) (pos : Vector2) (l : list LogicNode) :
  forall (e : CircuitEngine) (im : JsMap string),
    wires (fst (fold_left (unpackNode g pos) l (e, im))) = wires e.
Proof.
  induction l as [|n r IH]; intros e im; simpl; auto.
  rewrite IH. reflexivity.
Qed.

Lemma wires_unpackWire (im : JsMap string) (l : list Wire) :
  forall (e : CircuitEngine) (w : Wire),
    In w (wires e) -> In w (wires (fold_left (unpackWire im) l e)).
Proof.
  induction l as [|w0 r IH]; intros e w Hw; simpl; auto.
  apply IH. unfold unpackWire.
  destruct (mapGet (sourceNodeId w0) im); auto.
  destruct (mapGet (targetNodeId w0) im); auto.
  simpl. apply in_or_app. now left.
Qed.

Lemma unpackICToGroup_keeps_wires (e : CircuitEngine) (icId : string)
    (icNode : LogicNode) (stored : list LogicNode * list Wire) (w : Wire) :
  findSelected IC e = Some icId ->
  icId <> "" ->
  mapGet icId (nodes e) = Some icNode ->
  internals icNode = Some stored ->
  In w (wires e) ->
  In w (wires (unpackICToGroup e)) /\
  mapGet icId (nodes (unpackICToGroup e)) = None.
Proof.
  intros Hsel Hne Hk Hint Hw.
  remember (unpackICToGroup e) as u eqn:Hu.
  unfold unpackICToGroup in Hu.
  apply String.eqb_neq in Hne. rewrite Hsel, Hne, Hk, Hint in Hu.
  destruct stored as [storedNodes storedWires].
  cbv zeta in Hu. unfold generateId in Hu at 1.
  set (p := fold_left (unpackNode _ _) storedNodes _) in Hu.
  assert (Hn : wires (fst p) = wires e).
  { unfold p. rewrite wires_unpackNode. simpl. apply wires_saveState. }
  clearbody p. destruct p as [e4 idMap]. simpl in Hn.
  unfold triggerUpdate in Hu. subst u.
  cbn [nodes wires set_selectedNodeIds set_fnCache set_nodes]. split.
  - apply wires_unpackWire. rewrite Hn. exact Hw.
  - rewrite mapGet_mapDelete. now rewrite String.eqb_refl.
Qed.

(** ** The round trip of pack and unpack, in general *)

Lemma mapSet_fresh V (k : string) (v : V) (m : JsMap V) :
  mapGet k m = None -> mapSet k v m = m ++ [(k, v)].
Proof.
  induction m as [|[k0 v0] r IH]; simpl; auto.
  destruct (k0 =? k); [discriminate|].
  intros H. now rewrite IH.
Qed.

Lemma mapGet_None_iff V (k : string) (m : JsMap V) :
  mapGet k m = None <-> ~ In k (map fst m).
Proof.
  induction m as [|[k0 v0] r IH]; simpl.
  - tauto.
  - destruct (String.eqb_spec k0 k) as [->|Hne].
    + split; [discriminate | tauto].
    + rewrite IH. tauto.
Qed.

Lemma mapGet_app V (k : string) (m1 m2 : JsMap V) :
  mapGet k (m1 ++ m2)
  = match mapGet k m1 with Some v => Some v | None => mapGet k m2 end.
Proof.
  induction m1 as [|[k0 v0] r IH]; simpl; auto.
  destruct (k0 =? k); auto.
Qed.

Lemma mapDelete_as_filter V (i : string) (m : JsMap V) :
  mapDelete i m = filter (fun kv => negb (fst kv =? i)) m.
Proof. reflexivity. Qed.

Lemma filter_filter A (f g : A -> bool) (l : list A) :
  filter f (filter g l) = filter (fun x => g x && f x) l.
Proof.
  induction l as [|x r IH]; simpl; auto.
  destruct (g x); simpl; [destruct (f x)|]; now rewrite IH.
Qed.

Lemma delete_members_as_filter (members : list LogicNode) :
  forall ns : JsMap LogicNode,
    fold_left (fun m n => mapDelete (id n) m) members ns
    = filter (fun kv => negb (hasId (fst kv) members)) ns.
Proof.
  induction members as [|n r IH]; intros ns; simpl.
  - induction ns as [|kv ns' IHns]; simpl; congruence.
  - rewrite IH, mapDelete_as_filter, filter_filter.
    apply filter_ext. intros [k v]. simpl.
    rewrite (String.eqb_sym (id n) k).
    destruct (k =? id n), (hasId k r); reflexivity.
Qed.

Lemma mapGet_filter_key V (p : string -> bool) (k : string) (m : JsMap V) :
  mapGet k (filter (fun kv => p (fst kv)) m)
  = if p k then mapGet k m else None.
Proof.
  induction m as [|[k0 v0] r IH]; simpl.
  - destruct (p k); reflexivity.
  - destruct (p k0) eqn:E0; simpl.
    + destruct (String.eqb_spec k0 k) as [->|Hne].
      * now rewrite E0.
      * exact IH.
    + rewrite IH. destruct (String.eqb_spec k0 k) as [->|Hne]; auto.
      now rewrite E0.
Qed.

Lemma insertBy_not_nil A (le : A -> A -> bool) (x : A) (l : list A) :
  insertBy le x l <> [].
Proof. destruct l; simpl; [|destruct (le a x)]; discriminate. Qed.

Lemma sortBy_nil A (le : A -> A -> bool) (l : list A) :
  sortBy le l = [] -> l = [].
Proof.
  unfold sortBy. destruct l as [|x r]; auto. simpl.
  assert (H : forall r acc, acc <> [] ->
            fold_left (fun acc x => insertBy le x acc) r acc <> []).
  { clear. induction r as [|y r IH]; intros acc Hacc; simpl; auto.
    apply IH, insertBy_not_nil. }
  intros Hs. exfalso. eapply H; [|exact Hs]. discriminate.
Qed.

(** [saveState] touches the two history stacks only. *)
Lemma saveState_fields (e : CircuitEngine) :
  selectedNodeIds (saveState e) = selectedNodeIds e /\
  rng (saveState e) = rng e /\
  rngPos (saveState e) = rngPos e /\
  isRunning (saveState e) = isRunning e /\
  fnCache (saveState e) = fnCache e.
Proof.
  unfold saveState.
  destruct (isRestoringHistory e); [auto|].
  destruct (isTop _ _); auto.
Qed.

Lemma filter_nil_existsb A (p : A -> bool) (l : list A) :
  filter p l = [] -> existsb p l = false.
Proof.
  induction l as [|x r IH]; simpl; auto.
  destruct (p x); [discriminate | auto].
Qed.

Lemma existsb_orb A (p q : A -> bool) (l : list A) :
  existsb (fun x => p x || q x) l = existsb p l || existsb q l.
Proof.
  induction l as [|x r IH]; simpl; auto.
  rewrite IH. destruct (p x), (q x), (existsb p r), (existsb q r); reflexivity.
Qed.

(** What [packGroupToIC] leaves when it goes through. *)
Lemma packGroupToIC_result (e : CircuitEngine) (g : string)
    (groupNode : LogicNode) :
  findSelected GROUP e = Some g ->
  g <> "" ->
  mapGet g (nodes e) = Some groupNode ->
  existsb (fun n => isType SWITCH n || isType LIGHT n) (membersOf g e) = true ->
  exists ic,
    type ic = IC /\
    position ic = position groupNode /\
    label ic = Some (labelOr (label groupNode) "Chip") /\
    internals ic
    = Some (map (storeNode (position groupNode)) (membersOf g e),
            filter (isInternalWire (membersOf g e)) (wires e)) /\
    nodes (packGroupToIC e)
    = mapSet g ic
        (mapDelete g
           (fold_left (fun m n => mapDelete (id n) m) (membersOf g e)
              (nodes e))) /\
    wires (packGroupToIC e) = filter (isOutsideWire (membersOf g e)) (wires e) /\
    selectedNodeIds (packGroupToIC e) = [g] /\
    rng (packGroupToIC e) = rng e /\
    rngPos (packGroupToIC e) = rngPos e /\
    isRunning (packGroupToIC e) = isRunning e.
Proof.
  intros Hsel Hne Hk Hpack. unfold packGroupToIC.
  apply String.eqb_neq in Hne. rewrite Hsel, Hne, Hk.
  fold (membersOf g e). set (members := membersOf g e) in *.
  destruct (saveState_fields e) as (_ & Hr & Hp & Hrun & _).
  destruct (sortBy byY (filter (isType SWITCH) members)) as [|i0 ir] eqn:Ei;
    [destruct (sortBy byY (filter (isType LIGHT) members)) as [|o0 or] eqn:Eo|].
  - apply sortBy_nil, filter_nil_existsb in Ei.
    apply sortBy_nil, filter_nil_existsb in Eo.
    rewrite existsb_orb, Ei, Eo in Hpack. discriminate.
  - unfold triggerUpdate.
    match goal with
    | |- context [set_nodes (mapSet g ?x _)] => exists x
    end.
    cbn [type position label internals nodes wires selectedNodeIds rng rngPos
         isRunning set_selectedNodeIds set_nodes set_wires].
    rewrite nodes_saveState, wires_saveState, Hr, Hp, Hrun.
    repeat split; reflexivity.
  - unfold triggerUpdate.
    match goal with
    | |- context [set_nodes (mapSet g ?x _)] => exists x
    end.
    cbn [type position label internals nodes wires selectedNodeIds rng rngPos
         isRunning set_selectedNodeIds set_nodes set_wires].
    rewrite nodes_saveState, wires_saveState, Hr, Hp, Hrun.
    repeat split; reflexivity.
Qed.

Lemma fold_mapSet_fresh V (l : JsMap V) :
  forall m0 : JsMap V,
    NoDup (map fst l) ->
    (forall k, In k (map fst l) -> mapGet k m0 = None) ->
    fold_left (fun m kv => mapSet (fst kv) (snd kv) m) l m0 = m0 ++ l.
Proof.
  induction l as [|[k v] r IH]; intros m0 Hnd Hfresh; simpl.
  - now rewrite app_nil_r.
  - inversion Hnd as [|k' r' Hk Hr]; subst.
    rewrite mapSet_fresh by (apply Hfresh; now left).
    rewrite IH; auto.
    + now rewrite <- app_assoc.
    + intros k0 Hk0. rewrite mapGet_app, Hfresh by (now right). simpl.
      destruct (String.eqb_spec k k0) as [->|Hne]; [contradiction | reflexivity].
Qed.

Lemma keys_freshNodes (r : nat -> string) (g : string) (pos : Vector2)
    (l : list LogicNode) :
  forall k, map fst (freshNodes r g pos k l) = map r (seq k (List.length l)).
Proof.
  induction l as [|n rest IH]; intros k; simpl; auto.
  now rewrite IH.
Qed.

Lemma keys_freshIdMap (r : nat -> string) (l : list LogicNode) :
  forall k, map fst (freshIdMap r k l) = map id l.
Proof.
  induction l as [|n rest IH]; intros k; simpl; auto.
  now rewrite IH.
Qed.

Lemma unpackNode_fold (g : string) (pos : Vector2) (l : list LogicNode) :
  forall (E : CircuitEngine) (im : JsMap string),
    let R := fold_left (unpackNode g pos) l (E, im) in
    nodes (fst R)
    = fold_left (fun m kv => mapSet (fst kv) (snd kv) m)
        (freshNodes (rng E) g pos (rngPos E) l) (nodes E) /\
    snd R
    = fold_left (fun m kv => mapSet (fst kv) (snd kv) m)
        (freshIdMap (rng E) (rngPos E) l) im /\
    rng (fst R) = rng E /\
    rngPos (fst R) = rngPos E + List.length l /\
    wires (fst R) = wires E /\
    isRunning (fst R) = isRunning E.
Proof.
  induction l as [|n rest IH]; intros E im; simpl.
  - rewrite Nat.add_0_r. repeat split.
  - specialize (IH (set_nodes
                      (mapSet (rng E (rngPos E))
                         (instantiate (rng E (rngPos E)) g pos n)
                         (nodes (set_rngPos (S (rngPos E)) E)))
                      (set_rngPos (S (rngPos E)) E))
                   (mapSet (id n) (rng E (rngPos E)) im)).
    simpl in IH. destruct IH as (H1 & H2 & H3 & H4 & H5 & H6).
    unfold instantiate in *.
    rewrite H1, H2, H3, H4, H5, H6. repeat split; auto; lia.
Qed.

Lemma unpackNode_fold_eq (g : string) (pos : Vector2) (l : list LogicNode)
    (E e4 : CircuitEngine) (im idMap : JsMap string) :
  fold_left (unpackNode g pos) l (E, im) = (e4, idMap) ->
  nodes e4
  = fold_left (fun m kv => mapSet (fst kv) (snd kv) m)
      (freshNodes (rng E) g pos (rngPos E) l) (nodes E) /\
  idMap
  = fold_left (fun m kv => mapSet (fst kv) (snd kv) m)
      (freshIdMap (rng E) (rngPos E) l) im /\
  rng e4 = rng E /\
  rngPos e4 = rngPos E + List.length l /\
  wires e4 = wires E /\
  isRunning e4 = isRunning E.
Proof.
  intros H. pose proof (unpackNode_fold g pos l E im) as Hn.
  cbv zeta in Hn. rewrite H in Hn. exact Hn.
Qed.

Lemma unpackWire_fold (im : JsMap string) (l : list Wire) :
  forall E : CircuitEngine,
    let R := fold_left (unpackWire im) l E in
    wires R = wires E ++ renamedWires (rng E) im (rngPos E) l /\
    nodes R = nodes E /\
    isRunning R = isRunning E.
Proof.
  induction l as [|w rest IH]; intros E; simpl.
  - now rewrite app_nil_r.
  - unfold unpackWire at 2 4 6.
    destruct (mapGet (sourceNodeId w) im) as [s|];
      [destruct (mapGet (targetNodeId w) im) as [t|]|]; try apply IH.
    simpl.
    match goal with
    | |- context [fold_left (unpackWire im) rest ?E1] =>
        destruct (IH E1) as (H1 & H2 & H3)
    end.
    simpl in *. rewrite H1, H2, H3, <- app_assoc. auto.
Qed.

(** What [unpackICToGroup] leaves when it goes through. *)
Lemma unpackICToGroup_result (p : CircuitEngine) (icId : string)
    (icNode : LogicNode) (sn : list LogicNode) (sw : list Wire) :
  findSelected IC p = Some icId ->
  icId <> "" ->
  mapGet icId (nodes p) = Some icNode ->
  internals icNode = Some (sn, sw) ->
  let g' := rng p (rngPos p) in
  exists group',
    type group' = GROUP /\
    nodes (unpackICToGroup p)
    = mapDelete icId
        (fold_left (fun m kv => mapSet (fst kv) (snd kv) m)
           (freshNodes (rng p) g' (position icNode) (S (rngPos p)) sn)
           (mapSet g' group' (nodes p))) /\
    wires (unpackICToGroup p)
    = wires p
      ++ renamedWires (rng p)
           (fold_left (fun m kv => mapSet (fst kv) (snd kv) m)
              (freshIdMap (rng p) (S (rngPos p)) sn) [])
           (S (rngPos p) + List.length sn) sw /\
    isRunning (unpackICToGroup p) = isRunning p.
Proof.
  intros Hsel Hne Hk Hint g'.
  remember (unpackICToGroup p) as u eqn:Hu.
  unfold unpackICToGroup in Hu.
  apply String.eqb_neq in Hne. rewrite Hsel, Hne, Hk, Hint in Hu.
  cbv zeta in Hu. unfold generateId in Hu at 1.
  destruct (saveState_fields p) as (_ & Hr & Hp & Hrun & _).
  rewrite Hr, Hp in Hu. fold g' in Hu.
  match type of Hu with
  | context [set_nodes (mapSet g' ?x _)] => exists x
  end.
  set (E3 := set_nodes _ (set_rngPos (S (rngPos p)) (saveState p))) in Hu.
  destruct (fold_left (unpackNode g' (position icNode)) sn (E3, []))
    as [e4 idMap] eqn:E4.
  destruct (unpackNode_fold_eq _ _ _ _ _ _ _ E4)
    as (Hn1 & Hn2 & Hn3 & Hn4 & Hn5 & Hn6).
  pose proof (unpackWire_fold idMap sw e4) as Hw. cbv zeta in Hw.
  destruct Hw as (Hw1 & Hw2 & Hw3).
  unfold triggerUpdate in Hu. subst u.
  cbn [type nodes wires isRunning set_selectedNodeIds set_fnCache set_nodes].
  rewrite Hw1, Hw2, Hw3, Hn1, Hn2, Hn3, Hn4, Hn5, Hn6.
  unfold E3.
  cbn [type nodes wires isRunning rng rngPos set_nodes set_rngPos].
  rewrite nodes_saveState, wires_saveState, Hr, Hrun.
  repeat split; reflexivity.
Qed.

Lemma filter_all A (p : A -> bool) (l : list A) :
  (forall x, In x l -> p x = true) -> filter p l = l.
Proof.
  induction l as [|x r IH]; intros H; simpl; auto.
  rewrite (H x (or_introl eq_refl)), IH; auto.
  intros y Hy. apply H. now right.
Qed.

Lemma NoDup_map_filter A B (keep : A -> bool) (f : A -> B) :
  forall xs : list A, NoDup (map f xs) -> NoDup (map f (filter keep xs)).
Proof.
  intros xs. induction xs as [|x r IH]; simpl; intros H; auto.
  inversion H as [|y r' Hx Hr]; subst.
  destruct (keep x); simpl; auto.
  constructor; auto.
  rewrite in_map_iff in *. intros (z & Hz & Hin).
  apply Hx. exists z. apply filter_In in Hin. tauto.
Qed.

Lemma wellKeyed_ids (ns : JsMap LogicNode) :
  wellKeyed ns -> map id (mapValues ns) = map fst ns.
Proof.
  intros [_ Hid]. unfold mapValues.
  induction Hid as [|[k n] r Hk Hr IH]; simpl in *; congruence.
Qed.

Lemma members_NoDup (g : string) (e : CircuitEngine) :
  wellKeyed (nodes e) -> NoDup (map id (membersOf g e)).
Proof.
  intros Hwk. unfold membersOf. apply NoDup_map_filter.
  rewrite wellKeyed_ids by assumption. apply Hwk.
Qed.

Lemma freshIdMap_stored (r : nat -> string) (c : Vector2) (l : list LogicNode) :
  forall k, freshIdMap r k (map (storeNode c) l) = freshIdMap r k l.
Proof.
  induction l as [|n rest IH]; intros k; simpl; auto.
  now rewrite IH.
Qed.

Lemma hasId_In (k : string) (l : list LogicNode) :
  hasId k l = true <-> In k (map id l).
Proof.
  unfold hasId. rewrite existsb_exists, in_map_iff.
  split; intros (n & H1 & H2).
  - exists n. apply String.eqb_eq in H2. tauto.
  - exists n. subst k. now rewrite String.eqb_refl.
Qed.

(** The graph after pack and unpack, in full: the nodes outside the group
    as they were, a new GROUP node, the members re-instantiated under fresh
    ids; the wires outside the group as they were, the internal wires
    re-instantiated between the fresh ids. *)
Lemma pack_unpack_round_trip (e : CircuitEngine) (g : string)
    (groupNode : LogicNode) :
  wellKeyed (nodes e) ->
  findSelected GROUP e = Some g ->
  g <> "" ->
  mapGet g (nodes e) = Some groupNode ->
  existsb (fun n => isType SWITCH n || isType LIGHT n) (membersOf g e) = true ->
  hasId g (membersOf g e) = false ->
  NoDup (map (rng e) (seq (rngPos e) (S (List.length (membersOf g e))))) ->
  (forall k,
     In k (map (rng e) (seq (rngPos e) (S (List.length (membersOf g e))))) ->
     mapGet k (nodes e) = None) ->
  let members := membersOf g e in
  let u := unpackICToGroup (packGroupToIC e) in
  let g' := rng e (rngPos e) in
  exists group',
    type group' = GROUP /\
    nodes u
    = filter (fun kv => outsideKey g members (fst kv)) (nodes e)
      ++ (g', group')
         :: freshNodes (rng e) g' (position groupNode) (S (rngPos e))
              (map (storeNode (position groupNode)) members) /\
    wires u
    = filter (isOutsideWire members) (wires e)
      ++ renamedWires (rng e) (freshIdMap (rng e) (S (rngPos e)) members)
           (S (rngPos e) + List.length members)
           (filter (isInternalWire members) (wires e)) /\
    isRunning u = isRunning e.
Proof.
  intros Hwk Hsel Hne Hk Hpack Hself Hnd Hfresh members u g'.
  destruct (packGroupToIC_result e g groupNode Hsel Hne Hk Hpack)
    as (ic & Hty & Hpos & _ & Hint & Hnodes & Hwires & Hselp & Hr & Hp & Hrun).
  fold members in Hint, Hnodes, Hwires, Hnd, Hfresh, Hself.
  set (p := packGroupToIC e) in *.
  set (rest := filter (fun kv => outsideKey g members (fst kv)) (nodes e)).
  (* the node map after pack *)
  assert (Hrest_get : forall k, mapGet k rest
                        = if outsideKey g members k
                          then mapGet k (nodes e) else None).
  { intros k. unfold rest. apply mapGet_filter_key. }
  assert (Hp_nodes : nodes p = rest ++ [(g, ic)]).
  { rewrite Hnodes, delete_members_as_filter, mapDelete_as_filter,
      filter_filter.
    fold rest. apply mapSet_fresh. rewrite Hrest_get.
    unfold outsideKey. now rewrite String.eqb_refl, andb_false_r. }
  (* unpack finds the IC *)
  assert (Hget : mapGet g (nodes p) = Some ic).
  { rewrite Hp_nodes, mapGet_app, Hrest_get. unfold outsideKey.
    rewrite String.eqb_refl, andb_false_r. simpl.
    now rewrite String.eqb_refl. }
  assert (Hfind : findSelected IC p = Some g).
  { unfold findSelected. rewrite Hselp. simpl. rewrite Hget.
    unfold isType. rewrite Hty. reflexivity. }
  destruct (unpackICToGroup_result p g ic _ _ Hfind Hne Hget Hint)
    as (group' & Hgty & Hu_nodes & Hu_wires & Hu_run).
  fold u in Hu_nodes, Hu_wires, Hu_run.
  rewrite Hr, Hp in Hu_nodes, Hu_wires. fold g' in Hu_nodes.
  rewrite Hpos in Hu_nodes.
  exists group'. split; [exact Hgty|].
  (* freshness, piece by piece *)
  simpl in Hnd. inversion Hnd as [|x l Hg'_tail Hnd_tail]; subst x l.
  fold g' in Hg'_tail.
  assert (Hg'_fresh : mapGet g' (nodes e) = None).
  { apply Hfresh. simpl. now left. }
  assert (Htail_fresh : forall k,
            In k (map (rng e) (seq (S (rngPos e)) (List.length members))) ->
            mapGet k (nodes e) = None).
  { intros k Hin. apply Hfresh. simpl. now right. }
  assert (Hgg' : g <> g').
  { intros Heq. rewrite <- Heq, Hk in Hg'_fresh. discriminate. }
  assert (Hlen : List.length (map (storeNode (position groupNode)) members)
                 = List.length members) by apply length_map.
  split; [|split].
  - (* nodes *)
    rewrite Hu_nodes, Hp_nodes.
    rewrite (mapSet_fresh _ g' group').
    2:{ rewrite mapGet_app, Hrest_get, Hg'_fresh. simpl.
        apply String.eqb_neq in Hgg'.
        destruct (outsideKey g members g'); now rewrite Hgg'. }
    rewrite fold_mapSet_fresh.
    + rewrite mapDelete_as_filter, !filter_app. simpl.
      rewrite String.eqb_refl. simpl.
      apply String.eqb_neq in Hgg'. rewrite String.eqb_sym, Hgg'. simpl.
      rewrite (filter_all _ _ rest).
      2:{ intros [k v] Hin. unfold rest in Hin.
          apply filter_In in Hin. destruct Hin as [_ Hout]. simpl in *.
          unfold outsideKey in Hout. apply andb_true_iff in Hout. tauto. }
      rewrite (filter_all _ _ (freshNodes _ _ _ _ _)).
      2:{ intros [k v] Hin. simpl.
          apply negb_true_iff, String.eqb_neq. intros ->.
          assert (Hin' : In g (map fst (freshNodes (rng e) g'
                                          (position groupNode) (S (rngPos e))
                                          (map (storeNode (position groupNode))
                                             members)))).
          { apply in_map_iff. exists (g, v). auto. }
          rewrite keys_freshNodes, Hlen in Hin'.
          apply Htail_fresh in Hin'. rewrite Hk in Hin'. discriminate. }
      rewrite ?app_nil_r, <- ?app_assoc. reflexivity.
    + rewrite keys_freshNodes, Hlen. exact Hnd_tail.
    + intros k Hin. rewrite keys_freshNodes, Hlen in Hin.
      rewrite !mapGet_app, Hrest_get, (Htail_fresh k Hin). simpl.
      assert (Hkg : (g =? k) = false).
      { apply String.eqb_neq. intros ->.
        rewrite (Htail_fresh k Hin) in Hk. discriminate. }
      assert (Hkg' : (g' =? k) = false).
      { apply String.eqb_neq. intros <-. contradiction. }
      destruct (outsideKey g members k); simpl; now rewrite Hkg, Hkg'.
  - (* wires *)
    rewrite Hu_wires, Hwires, Hlen, freshIdMap_stored.
    rewrite fold_mapSet_fresh; [reflexivity| |].
    + rewrite keys_freshIdMap. now apply members_NoDup.
    + intros k _. reflexivity.
  - now rewrite Hu_run.
Qed.

(** Counting nodes by type across the round trip. *)

Lemma length_filter_split A (p q : A -> bool) (l : list A) :
  List.length (filter p l)
  = List.length (filter p (filter q l))
    + List.length (filter p (filter (fun x => negb (q x)) l)).
Proof.
  induction l as [|x r IH]; simpl; auto.
  destruct (q x); simpl; destruct (p x); simpl; lia.
Qed.

Lemma countType_entries (t : NodeType) (e : CircuitEngine) :
  countType t e
  = List.length (filter (fun kv => isType t (snd kv)) (nodes e)).
Proof.
  unfold countType, mapValues.
  induction (nodes e) as [|[k n] r IH]; simpl; auto.
  destruct (isType t n); simpl; now rewrite IH.
Qed.

Lemma NoDup_keys_unique V (ns : JsMap V) (k : string) (v1 v2 : V) :
  NoDup (map fst ns) -> In (k, v1) ns -> In (k, v2) ns -> v1 = v2.
Proof.
  induction ns as [|[k0 v0] r IH]; simpl; intros Hnd H1 H2; [contradiction|].
  inversion Hnd as [|x l Hk Hr]; subst.
  destruct H1 as [H1 | H1], H2 as [H2 | H2].
  - congruence.
  - inversion H1; subst. exfalso. apply Hk.
    apply in_map_iff. exists (k, v2). auto.
  - inversion H2; subst. exfalso. apply Hk.
    apply in_map_iff. exists (k, v1). auto.
  - auto.
Qed.

Lemma mapGet_In V (ns : JsMap V) (k : string) (v : V) :
  mapGet k ns = Some v -> In (k, v) ns.
Proof.
  induction ns as [|[k0 v0] r IH]; simpl; [discriminate|].
  destruct (String.eqb_spec k0 k) as [->|Hne].
  - intros H. inversion H. now left.
  - intros H. right. auto.
Qed.

Lemma filter_key_single V (ns : JsMap V) (k : string) (v : V) :
  NoDup (map fst ns) ->
  mapGet k ns = Some v ->
  filter (fun kv => fst kv =? k) ns = [(k, v)].
Proof.
  induction ns as [|[k0 v0] r IH]; simpl; intros Hnd Hk; [discriminate|].
  inversion Hnd as [|x l Hk0 Hr]; subst.
  destruct (String.eqb_spec k0 k) as [->|Hne].
  - inversion Hk; subst. f_equal.
    assert (Hnone : forall l : JsMap V,
              ~ In k (map fst l) -> filter (fun kv => fst kv =? k) l = []).
    { clear. induction l as [|[k1 v1] l IHl]; simpl; intros H; auto.
      destruct (String.eqb_spec k1 k) as [->|Hne]; [tauto|].
      apply IHl. tauto. }
    now apply Hnone.
  - auto.
Qed.

(** Under [wellKeyed], a key names a member exactly when its node is one. *)
Lemma member_key_iff (g : string) (e : CircuitEngine) (kv : string * LogicNode) :
  wellKeyed (nodes e) ->
  In kv (nodes e) ->
  hasId (fst kv) (membersOf g e) = hasGroupId g (snd kv).
Proof.
  intros [Hnd Hid] Hin. destruct kv as [k v]. simpl.
  rewrite Forall_forall in Hid.
  destruct (hasGroupId g v) eqn:Hg.
  - apply hasId_In, in_map_iff. exists v. split.
    + now apply (Hid (k, v)).
    + unfold membersOf. apply filter_In. split; auto.
      unfold mapValues. apply in_map_iff. exists (k, v). auto.
  - destruct (hasId k (membersOf g e)) eqn:Hh; auto.
    apply hasId_In, in_map_iff in Hh. destruct Hh as (n & Hn & Hmem).
    unfold membersOf in Hmem. apply filter_In in Hmem.
    destruct Hmem as [Hval Hgn]. unfold mapValues in Hval.
    apply in_map_iff in Hval. destruct Hval as ([k' n'] & Heq & Hin').
    simpl in Heq. subst n'.
    pose proof (Hid _ Hin') as Hk'. simpl in Hk'.
    assert (Hkk : k' = k) by congruence.
    rewrite Hkk in Hin'.
    rewrite (NoDup_keys_unique _ _ _ v n Hnd Hin Hin') in Hg. congruence.
Qed.

Lemma types_freshNodes (r : nat -> string) (g : string) (pos c : Vector2)
    (t : NodeType) (l : list LogicNode) :
  forall k,
    List.length (filter (fun kv => isType t (snd kv))
                   (freshNodes r g pos k (map (storeNode c) l)))
    = List.length (filter (isType t) l).
Proof.
  induction l as [|n rest IH]; intros k; simpl; auto.
  unfold isType at 1 3. simpl.
  fold (isType t n). destruct (isType t n); simpl; now rewrite IH.
Qed.

Lemma filter_map_swap A B (f : A -> B) (p : B -> bool) (l : list A) :
  filter p (map f l) = map f (filter (fun x => p (f x)) l).
Proof.
  induction l as [|x r IH]; simpl; auto.
  destruct (p (f x)); simpl; now rewrite IH.
Qed.

Lemma findSelected_type (t : NodeType) (e : CircuitEngine) (k : string)
    (n : LogicNode) :
  findSelected t e = Some k -> mapGet k (nodes e) = Some n -> type n = t.
Proof.
  unfold findSelected. intros Hf Hk.
  apply find_some in Hf. destruct Hf as [_ Hf]. rewrite Hk in Hf.
  unfold isType in Hf. destruct (type n), t; simpl in Hf; congruence.
Qed.

(** The graph before the round trip, counted in its three parts. *)
Lemma countType_parts (t : NodeType) (e : CircuitEngine) (g : string)
    (groupNode : LogicNode) :
  wellKeyed (nodes e) ->
  mapGet g (nodes e) = Some groupNode ->
  hasId g (membersOf g e) = false ->
  countType t e
  = List.length
      (filter (fun kv => isType t (snd kv))
         (filter (fun kv => outsideKey g (membersOf g e) (fst kv)) (nodes e)))
    + (if isType t groupNode then 1 else 0)
    + List.length (filter (isType t) (membersOf g e)).
Proof.
  intros Hwk Hk Hself.
  rewrite countType_entries.
  rewrite (length_filter_split _ _
             (fun kv => outsideKey g (membersOf g e) (fst kv))).
  rewrite <- Nat.add_assoc. f_equal.
  rewrite (length_filter_split _ _ (fun kv => fst kv =? g)).
  set (l2 := filter (fun x => negb (outsideKey g (membersOf g e) (fst x)))
               (nodes e)).
  assert (H1 : filter (fun kv => fst kv =? g) l2 = [(g, groupNode)]).
  { unfold l2. rewrite filter_filter.
    rewrite (filter_ext _ (fun kv => fst kv =? g)).
    - apply filter_key_single; [apply Hwk | exact Hk].
    - intros [k v]. simpl. unfold outsideKey.
      destruct (k =? g); simpl; now rewrite andb_false_r. }
  assert (H2 : filter (fun kv => negb (fst kv =? g)) l2
               = filter (fun kv => hasGroupId g (snd kv)) (nodes e)).
  { unfold l2. rewrite filter_filter. apply filter_ext_in.
    intros [k v] Hin.
    pose proof (member_key_iff g e (k, v) Hwk Hin) as Hm.
    simpl in *. rewrite <- Hm. unfold outsideKey.
    destruct (String.eqb_spec k g) as [->|Hne]; simpl.
    - rewrite Hself. reflexivity.
    - destruct (hasId k (membersOf g e)); reflexivity. }
  rewrite H1, H2. f_equal.
  - cbn [filter snd]. destruct (isType t groupNode); reflexivity.
  - unfold membersOf, mapValues. now rewrite !filter_map_swap, length_map.
Qed.

(** The round trip keeps the number of nodes of every type. *)
Lemma pack_unpack_counts (t : NodeType) (e : CircuitEngine) (g : string)
    (groupNode : LogicNode) :
  wellKeyed (nodes e) ->
  findSelected GROUP e = Some g ->
  g <> "" ->
  mapGet g (nodes e) = Some groupNode ->
  existsb (fun n => isType SWITCH n || isType LIGHT n) (membersOf g e) = true ->
  hasId g (membersOf g e) = false ->
  NoDup (map (rng e) (seq (rngPos e) (S (List.length (membersOf g e))))) ->
  (forall k,
     In k (map (rng e) (seq (rngPos e) (S (List.length (membersOf g e))))) ->
     mapGet k (nodes e) = None) ->
  countType t (unpackICToGroup (packGroupToIC e)) = countType t e.
Proof.
  intros Hwk Hsel Hne Hk Hpack Hself Hnd Hfresh.
  destruct (pack_unpack_round_trip e g groupNode Hwk Hsel Hne Hk Hpack Hself
              Hnd Hfresh) as (group' & Hgty & Hnodes & _).
  rewrite (countType_parts t e g groupNode Hwk Hk Hself).
  rewrite countType_entries, Hnodes, filter_app, length_app. simpl.
  rewrite <- Nat.add_assoc. f_equal.
  assert (Hg : isType t group' = isType t groupNode).
  { unfold isType. rewrite Hgty.
    now rewrite (findSelected_type GROUP e g groupNode Hsel Hk). }
  rewrite Hg.
  destruct (isType t groupNode); simpl; now rewrite types_freshNodes.
Qed.

(** ** What a tick keeps: types under keys, wire ends, switch outputs *)

Lemma keyTypes_mapForEach (f : LogicNode -> LogicNode) (m : JsMap LogicNode) :
  (forall n, type (f n) = type n) ->
  keyTypes (mapForEach f m) = keyTypes m.
Proof.
  intros Hf. unfold keyTypes, mapForEach. rewrite map_map.
  apply map_ext. intros [k n]. simpl. now rewrite Hf.
Qed.

Lemma keyTypes_mapSet (k : string) (v v0 : LogicNode) (m : JsMap LogicNode) :
  mapGet k m = Some v0 -> type v = type v0 ->
  keyTypes (mapSet k v m) = keyTypes m.
Proof.
  intros Hk Hty. induction m as [|[k1 n1] r IH]; simpl in *; [discriminate|].
  destruct (k1 =? k); simpl.
  - inversion Hk; subst. now rewrite Hty.
  - now rewrite IH.
Qed.

Lemma type_resetInputs (n : LogicNode) : type (resetInputs n) = type n.
Proof. unfold resetInputs. destruct (type n) eqn:E; simpl; auto. Qed.

Lemma type_updateClock (tc : nat) (n : LogicNode) :
  type (updateClock tc n) = type n.
Proof. unfold updateClock. destruct (type n) eqn:E; simpl; auto. Qed.

Lemma keyTypes_propagate (ws : list Wire) :
  forall ns, keyTypes (fst (propagate ns ws)) = keyTypes ns.
Proof.
  induction ws as [|w r IH]; intros ns; simpl; auto.
  assert (Hw : keyTypes (fst (propagateWire ns w)) = keyTypes ns).
  { unfold propagateWire.
    destruct (mapGet (sourceNodeId w) ns); auto.
    destruct (mapGet (targetNodeId w) ns) as [t|] eqn:Et; auto.
    simpl. now apply keyTypes_mapSet with (v0 := t). }
  destruct (propagateWire ns w) as [ns1 w1]. simpl in Hw.
  specialize (IH ns1). destruct (propagate ns1 r) as [ns2 r2]. simpl in *.
  congruence.
Qed.

Lemma keyTypes_evalNodes nf (ns : JsMap LogicNode) :
  forall c, keyTypes (snd (completed (evalNodes nf c ns))) = keyTypes ns.
Proof.
  induction ns as [|[k n] r IH]; intros c; simpl; auto.
  pose proof (evalNode_keeps nf c n) as Hk. simpl in Hk.
  destruct (evalNode nf c n) as [[c1 n1]|[c1 n1]]; simpl in *;
    destruct Hk as (_ & Hty & _).
  - specialize (IH c1).
    destruct (evalNodes nf c1 r) as [[c2 r2]|[c2 r2]]; simpl in *;
      now rewrite Hty, IH.
  - now rewrite Hty.
Qed.

Lemma ends_propagate (ws : list Wire) :
  forall ns, map wireEnds (snd (propagate ns ws)) = map wireEnds ws.
Proof.
  induction ws as [|w r IH]; intros ns; simpl; auto.
  assert (Hw : wireEnds (snd (propagateWire ns w)) = wireEnds w).
  { unfold propagateWire.
    destruct (mapGet (sourceNodeId w) ns); auto.
    destruct (mapGet (targetNodeId w) ns); auto. }
  destruct (propagateWire ns w) as [ns1 w1]. simpl in Hw.
  specialize (IH ns1). destruct (propagate ns1 r) as [ns2 r2]. simpl in *.
  congruence.
Qed.

(** A tick, accepted or not, keeps the types under the keys and the ends of
    the wires. *)
Lemma tick_skeleton nf (timestamp : Z) (x : CircuitEngine) :
  keyTypes (nodes (completed (tick nf timestamp x))) = keyTypes (nodes x) /\
  map wireEnds (wires (completed (tick nf timestamp x)))
  = map wireEnds (wires x).
Proof.
  destruct (accepted timestamp x) eqn:Ha.
  - rewrite tick_accepted by assumption. cbv zeta.
    set (ns2 := mapForEach resetInputs
                  (mapForEach (updateClock (S (tickCount x))) (nodes x))).
    pose proof (keyTypes_evalNodes nf (fst (propagate ns2 (wires x)))
                  (fnCache x)) as He.
    rewrite keyTypes_propagate in He.
    unfold ns2 in He at 2.
    rewrite !keyTypes_mapForEach in He
      by (intros; auto using type_resetInputs, type_updateClock).
    destruct (evalNodes nf (fnCache x) (fst (propagate ns2 (wires x))))
      as [[c ns4]|[c ns4]]; simpl in *;
      (split; [exact He | apply ends_propagate]).
  - unfold accepted in Ha. unfold tick.
    destruct (isRunning x), (timestamp =? -1)%Z,
             (timestamp - lastTick x <? tickRate x)%Z;
      simpl in *; try discriminate; auto.
Qed.

Lemma mapGet_keyTypes (k : string) (ns : JsMap LogicNode) :
  mapGet k (keyTypes ns) = option_map type (mapGet k ns).
Proof.
  induction ns as [|[k0 n0] r IH]; simpl; auto.
  destruct (k0 =? k); auto.
Qed.

Lemma evalNodes_noIC nf (ns : JsMap LogicNode) :
  Forall (fun kt => snd kt <> IC) (keyTypes ns) ->
  forall c, threw (evalNodes nf c ns) = false.
Proof.
  induction ns as [|[k n] r IH]; intros H c; simpl; auto.
  inversion H as [|kt l Hn Hr]; subst. simpl in Hn.
  assert (Hev : exists n1, evalNode nf c n = Normal (c, n1)).
  { unfold evalNode. destruct (type n); try congruence; eauto. }
  destruct Hev as (n1 & ->).
  specialize (IH Hr c).
  destruct (evalNodes nf c r) as [[c2 r2]|[c2 r2]]; simpl in *; congruence.
Qed.

Lemma tick_noIC nf (timestamp : Z) (x : CircuitEngine) :
  Forall (fun kt => snd kt <> IC) (keyTypes (nodes x)) ->
  tick nf timestamp x = Normal (completed (tick nf timestamp x)).
Proof.
  intros H. destruct (accepted timestamp x) eqn:Ha.
  - rewrite tick_accepted by assumption. cbv zeta.
    set (ns2 := mapForEach resetInputs
                  (mapForEach (updateClock (S (tickCount x))) (nodes x))).
    pose proof (evalNodes_noIC nf (fst (propagate ns2 (wires x)))) as He.
    rewrite keyTypes_propagate in He. unfold ns2 in He at 1.
    rewrite !keyTypes_mapForEach in He
      by (intros; auto using type_resetInputs, type_updateClock).
    specialize (He H (fnCache x)).
    destruct (evalNodes nf (fnCache x) (fst (propagate ns2 (wires x))))
      as [[c ns4]|[c ns4]]; simpl in *; [reflexivity | discriminate].
  - unfold accepted in Ha. unfold tick.
    destruct (isRunning x), (timestamp =? -1)%Z,
             (timestamp - lastTick x <? tickRate x)%Z;
      simpl in *; try discriminate; auto.
Qed.

(** A tick leaves the output of a switch alone. *)
Lemma tick_switchIs nf (timestamp : Z) (b : bool) (x : CircuitEngine)
    (s : string) :
  switchIs b x s -> switchIs b (completed (tick nf timestamp x)) s.
Proof.
  intros (n & Hk & Hty & Hout).
  destruct (accepted timestamp x) eqn:Ha.
  - set (ns2 := mapForEach resetInputs
                  (mapForEach (updateClock (S (tickCount x))) (nodes x))).
    assert (Hns2 : mapGet s ns2 = Some n).
    { unfold ns2. rewrite !mapGet_mapForEach, Hk. simpl.
      rewrite updateClock_other by congruence.
      unfold resetInputs. now rewrite Hty. }
    pose proof (propagate_get (wires x) ns2 s) as Hp.
    rewrite Hns2 in Hp. simpl in Hp.
    match type of Hp with _ = Some ?y => set (n3 := y) in * end.
    assert (Hp3 : isPassive (type n3) = true).
    { unfold n3. simpl. now rewrite Hty. }
    pose proof (evalNodes_passive nf _ (fnCache x) s n3 Hp Hp3) as Hev.
    exists n3. split; [|split].
    + rewrite tick_accepted by assumption. cbv zeta. fold ns2.
      destruct (evalNodes nf (fnCache x) (fst (propagate ns2 (wires x))))
        as [[c ns4]|[c ns4]]; exact Hev.
    + exact Hty.
    + exact Hout.
  - exists n. unfold accepted in Ha. unfold tick.
    destruct (isRunning x), (timestamp =? -1)%Z,
             (timestamp - lastTick x <? tickRate x)%Z;
      simpl in *; try discriminate; auto.
Qed.

(** [toggleSwitch] flips the switch it is called on, leaves every other
    switch as it was, and keeps the types and the wire ends. *)
Lemma toggle_switchIs nf (b : bool) (x : CircuitEngine) (s : string) :
  switchIs b x s ->
  switchIs (negb b) (completed (toggleSwitch nf s x)) s.
Proof.
  intros (n & Hk & Hty & Hout). unfold toggleSwitch. rewrite Hk, Hty.
  set (x1 := set_nodes _ x).
  assert (H1 : switchIs (negb b) x1 s).
  { eexists. split; [|split].
    - unfold x1. simpl. apply mapGet_mapSet_same.
    - exact Hty.
    - cbn [outputs set_outputs].
      replace (arrGet _ 0) with (jsNot (arrGet (outputs n) 0))
        by (destruct (outputs n); reflexivity).
      unfold jsNot. cbn [truthy]. rewrite Hout. now destruct b. }
  destruct (isRunning x1); [now apply tick_switchIs | exact H1].
Qed.

Lemma toggle_other_switchIs nf (b : bool) (x : CircuitEngine) (s s' : string) :
  s <> s' ->
  switchIs b x s' ->
  switchIs b (completed (toggleSwitch nf s x)) s'.
Proof.
  intros Hne H. unfold toggleSwitch.
  destruct (mapGet s (nodes x)) as [n|] eqn:Hk; [|exact H].
  destruct (type n); try exact H.
  set (x1 := set_nodes _ x).
  assert (H1 : switchIs b x1 s').
  { destruct H as (n' & Hk' & Hty' & Hout'). exists n'.
    unfold x1. simpl. now rewrite mapGet_mapSet_other. }
  destruct (isRunning x1); [now apply tick_switchIs | exact H1].
Qed.

Lemma toggle_skeleton nf (x : CircuitEngine) (s : string) :
  keyTypes (nodes (completed (toggleSwitch nf s x))) = keyTypes (nodes x) /\
  map wireEnds (wires (completed (toggleSwitch nf s x)))
  = map wireEnds (wires x).
Proof.
  unfold toggleSwitch.
  destruct (mapGet s (nodes x)) as [n|] eqn:Hk; [|auto].
  destruct (type n) eqn:Hty; auto.
  set (x1 := set_nodes _ x).
  assert (H1 : keyTypes (nodes x1) = keyTypes (nodes x) /\
               map wireEnds (wires x1) = map wireEnds (wires x)).
  { unfold x1. simpl. split; [|reflexivity].
    now apply keyTypes_mapSet with (v0 := n). }
  destruct (isRunning x1); [|exact H1].
  destruct (tick_skeleton nf (-1) x1) as [Ha Hb].
  destruct H1 as [Hc Hd]. split; congruence.
Qed.

Lemma lastOnPin_wires (ws : list Wire) (s : string) (i : nat) (t : string)
    (j : nat) :
  lastOnPin (map wireEnds ws) (s, i, t, j) ->
  exists pre w post,
    ws = pre ++ w :: post /\
    sourceNodeId w = s /\ sourcePinIndex w = i /\
    targetNodeId w = t /\ targetPinIndex w = j /\
    forall w', In w' post ->
      targetNodeId w' = t -> targetPinIndex w' = j -> False.
Proof.
  intros (pre & post & Heq & Hlast).
  apply map_eq_app in Heq. destruct Heq as (pre' & rest & -> & Hpre & Hrest).
  apply map_eq_cons in Hrest. destruct Hrest as (w & post' & -> & Hw & Hpost).
  exists pre', w, post'. unfold wireEnds, wireShape in Hw.
  inversion Hw; subst. repeat split; auto.
  intros w' Hin Ht Hp.
  apply (Hlast (wireEnds w')).
  - apply in_map. exact Hin.
  - unfold wireEnds, wireShape. simpl. auto.
Qed.

Lemma keyTypes_node (k : string) (t : NodeType) (ns : JsMap LogicNode) :
  mapGet k (keyTypes ns) = Some t ->
  exists n, mapGet k ns = Some n /\ type n = t.
Proof.
  rewrite mapGet_keyTypes. destruct (mapGet k ns) as [n|]; simpl.
  - intros H. inversion H. eauto.
  - discriminate.
Qed.

(** One tick takes the value at the source of the last wire on a pin to
    the pin, when the source is not a CLOCK. *)
Lemma lastOnPin_after_tick nf (x : CircuitEngine) (s : string) (i : nat)
    (t : string) (j : nat) (a : LogicNode) :
  lastOnPin (map wireEnds (wires x)) (s, i, t, j) ->
  mapGet s (nodes x) = Some a ->
  type a <> CLOCK ->
  (exists b, mapGet t (nodes x) = Some b) ->
  exists b',
    mapGet t (nodes (completed (tick nf (-1) x))) = Some b' /\
    arrGet (inputs b') j = Some (truthy (arrGet (outputs a) i)).
Proof.
  intros Hlast Ha Hty (b & Hb).
  destruct (lastOnPin_wires _ _ _ _ _ Hlast)
    as (pre & w & post & Hw & <- & <- & <- & <- & Hpost).
  destruct (wire_after_tick nf (-1) x pre post w a b (accepted_forced x)
              Hw Ha Hb) as (b' & Hb' & _ & Hv).
  - intros w' Hin Ht Hp. exfalso. eapply Hpost; eauto.
  - exists b'. auto.
Qed.

(** With both switches on, two forced ticks light the LIGHT: the first
    evaluates the AND gate, the second carries its output along the wire. *)
Lemma and_light_two_ticks nf (x : CircuitEngine) (s1 s2 a l : string) :
  andLight x s1 s2 a l ->
  switchIs true x s1 ->
  switchIs true x s2 ->
  arrGet (inputs (nodeAt l (forcedTicks nf 2 x))) 0 = Some true.
Proof.
  intros (Ha & Hl & Hw1 & Hw2 & Hw3 & Hnoic) (n1 & Hk1 & Hty1 & Ho1)
         (n2 & Hk2 & Hty2 & Ho2).
  destruct (keyTypes_node _ _ _ Ha) as (na & Hka & Htya).
  destruct (keyTypes_node _ _ _ Hl) as (nl & Hkl & Htyl).
  set (x1 := completed (tick nf (-1) x)).
  destruct (tick_skeleton nf (-1) x) as [Hsk_n Hsk_w]. fold x1 in Hsk_n, Hsk_w.
  (* first tick: both inputs of the gate are on, so is its output *)
  destruct (lastOnPin_after_tick nf x s1 0 a 0 n1 Hw1 Hk1)
    as (b1 & Hb1 & Hin0); [congruence | eauto |].
  destruct (lastOnPin_after_tick nf x s2 0 a 1 n2 Hw2 Hk2)
    as (b2 & Hb2 & Hin1); [congruence | eauto |].
  fold x1 in Hb1, Hb2. rewrite Hb1 in Hb2. inversion Hb2; subst b2.
  rewrite Ho1 in Hin0. rewrite Ho2 in Hin1.
  assert (Htyb : type b1 = AND).
  { rewrite <- Hsk_n in Ha. rewrite mapGet_keyTypes, Hb1 in Ha.
    simpl in Ha. congruence. }
  assert (Hout : arrGet (outputs b1) 0 = Some true).
  { change (Some true) with (Some (gateRule AND true true)).
    rewrite <- Htyb.
    apply (gate_after_tick nf (-1) x x1 a b1 true true).
    - apply accepted_forced.
    - now apply tick_noIC.
    - exact Hb1.
    - now rewrite Htyb.
    - exact Hin0.
    - intros _. exact Hin1. }
  (* second tick: the output reaches the LIGHT *)
  rewrite <- Hsk_w in Hw3.
  destruct (lastOnPin_after_tick nf x1 a 0 l 0 b1 Hw3 Hb1)
    as (l' & Hl' & Hlin).
  - congruence.
  - rewrite <- Hsk_n in Hl. destruct (keyTypes_node _ _ _ Hl) as (m & Hm & _).
    eauto.
  - change (forcedTicks nf 2 x) with (completed (tick nf (-1) x1)).
    unfold nodeAt. rewrite Hl', Hlin, Hout. reflexivity.
Qed.

(** ** The round trip on the AND-and-LIGHT group *)

(** A member's new id, and what [unpackICToGroup] stores under it. *)
Lemma fresh_lookup (r : nat -> string) (g : string) (pos : Vector2)
    (f : LogicNode -> LogicNode) (Hf : forall n, id (f n) = id n)
    (l : list LogicNode) :
  forall (k : nat) (n : LogicNode),
    In n l ->
    NoDup (map id l) ->
    NoDup (map r (seq k (List.length l))) ->
    exists j,
      nth_error l j = Some n /\
      j < List.length l /\
      mapGet (id n) (freshIdMap r k l) = Some (r (k + j)) /\
      mapGet (r (k + j)) (freshNodes r g pos k (map f l))
      = Some (instantiate (r (k + j)) g pos (f n)).
Proof.
  induction l as [|h rest IH]; intros k n Hin Hid Hr; [easy|].
  simpl in Hr. inversion Hid as [|? ? Hh Hrest]; subst.
  inversion Hr as [|? ? Hk Hrr]; subst.
  destruct (string_dec (id h) (id n)) as [E|E].
  - exists 0. rewrite Nat.add_0_r. simpl.
    rewrite E, !String.eqb_refl.
    assert (n = h) as ->.
    { destruct Hin as [|Hin]; [auto|].
      exfalso. apply Hh. rewrite E. now apply in_map. }
    repeat split; auto. lia.
  - destruct Hin as [->|Hin]; [congruence|].
    destruct (IH (S k) n Hin Hrest Hrr) as (j & Hnth & Hj & H1 & H2).
    exists (S j). replace (k + S j) with (S k + j) by lia.
    simpl freshIdMap. simpl freshNodes. cbn [mapGet].
    apply String.eqb_neq in E. rewrite E.
    assert (Hne : (r k =? r (S k + j)) = false).
    { apply String.eqb_neq. intros Heq. apply Hk. rewrite Heq.
      apply in_map, in_seq. lia. }
    rewrite Hne. repeat split; auto. simpl. lia.
Qed.

Lemma id_storeNode (c : Vector2) (n : LogicNode) : id (storeNode c n) = id n.
Proof. reflexivity. Qed.

(** A member of the group: stored under its id and carrying the group. *)
Lemma member_In (g : string) (e : CircuitEngine) (k : string) :
  wellKeyed (nodes e) ->
  hasId k (membersOf g e) = true ->
  exists n, mapGet k (nodes e) = Some n /\ In n (membersOf g e) /\ id n = k.
Proof.
  intros [Hnd Hid] H. unfold hasId in H. apply existsb_exists in H.
  destruct H as (n & Hin & Heq). apply String.eqb_eq in Heq. subst k.
  exists n. repeat split; auto.
  unfold membersOf in Hin. apply filter_In in Hin. destruct Hin as [Hin _].
  unfold mapValues in Hin. apply in_map_iff in Hin.
  destruct Hin as ([k' n'] & Hn' & Hin). simpl in Hn'. subst n'.
  rewrite Forall_forall in Hid. pose proof (Hid _ Hin) as Hkk. simpl in Hkk.
  subst k'.
  destruct (mapGet (id n) (nodes e)) as [m|] eqn:Hm.
  - f_equal. apply mapGet_In in Hm.
    exact (NoDup_keys_unique _ _ _ _ _ Hnd Hm Hin).
  - apply mapGet_None_iff in Hm. exfalso. apply Hm.
    change (id n) with (fst (id n, n)). now apply in_map.
Qed.

Lemma drawn_distinct (r : nat -> string) (k len i j : nat) :
  NoDup (map r (seq k len)) ->
  i < len -> j < len -> r (k + i) = r (k + j) -> i = j.
Proof.
  intros Hnd Hi Hj Heq.
  assert (Hn : forall m, m < len -> nth m (map r (seq k len)) (r 0) = r (k + m)).
  { intros m Hm. rewrite map_nth, seq_nth by assumption. reflexivity. }
  apply (proj1 (NoDup_nth _ (r 0)) Hnd);
    rewrite ?length_map, ?length_seq; auto.
  now rewrite !Hn.
Qed.

Lemma findSelected_node (t : NodeType) (e : CircuitEngine) (k : string) :
  findSelected t e = Some k -> exists n, mapGet k (nodes e) = Some n.
Proof.
  unfold findSelected. intros H. apply find_some in H. destruct H as [_ H].
  destruct (mapGet k (nodes e)); [eauto | discriminate].
Qed.

Lemma drawnIds_cons (g : string) (e : CircuitEngine) :
  drawnIds g e
  = rng e (rngPos e)
    :: map (rng e) (seq (S (rngPos e)) (List.length (membersOf g e))).
Proof. reflexivity. Qed.

(** The graph after the round trip, from [packable] alone. *)
Lemma trip_shape (g : string) (e : CircuitEngine) :
  packable g e ->
  existsb (fun n => isType SWITCH n || isType LIGHT n) (membersOf g e) = true ->
  exists groupNode group',
    mapGet g (nodes e) = Some groupNode /\
    type group' = GROUP /\
    nodes (roundTrip e)
    = filter (fun kv => outsideKey g (membersOf g e) (fst kv)) (nodes e)
      ++ (rng e (rngPos e), group')
         :: freshNodes (rng e) (rng e (rngPos e)) (position groupNode)
              (S (rngPos e))
              (map (storeNode (position groupNode)) (membersOf g e)) /\
    wires (roundTrip e)
    = filter (isOutsideWire (membersOf g e)) (wires e)
      ++ renamedWires (rng e)
           (freshIdMap (rng e) (S (rngPos e)) (membersOf g e))
           (S (rngPos e) + List.length (membersOf g e))
           (filter (isInternalWire (membersOf g e)) (wires e)) /\
    isRunning (roundTrip e) = isRunning e.
Proof.
  intros (Hwk & Hsel & Hne & Hself & Hnd & Hfresh) Hio.
  destruct (findSelected_node _ _ _ Hsel) as (groupNode & Hk).
  destruct (pack_unpack_round_trip e g groupNode Hwk Hsel Hne Hk Hio Hself
              Hnd Hfresh) as (group' & H).
  exists groupNode, group'. split; [exact Hk | exact H].
Qed.

(** Where a member of the group ends up: under its new id sits a node of
    the same type with the same outputs. *)
Lemma member_after_trip (g : string) (e : CircuitEngine) (k : string) :
  packable g e ->
  existsb (fun n => isType SWITCH n || isType LIGHT n) (membersOf g e) = true ->
  hasId k (membersOf g e) = true ->
  exists n n' j,
    mapGet k (nodes e) = Some n /\
    nth_error (membersOf g e) j = Some n /\
    j < List.length (membersOf g e) /\
    tripRenaming g e k = rng e (S (rngPos e) + j) /\
    mapGet (tripRenaming g e k) (nodes (roundTrip e)) = Some n' /\
    type n' = type n /\ outputs n' = outputs n.
Proof.
  intros Hp Hio Hmem.
  destruct (trip_shape g e Hp Hio)
    as (groupNode & group' & Hg & Hgty & Hnodes & _).
  destruct Hp as (Hwk & Hsel & Hne & Hself & Hnd & Hfresh).
  destruct (member_In g e k Hwk Hmem) as (n & Hk & Hin & Hid).
  rewrite drawnIds_cons in Hnd, Hfresh.
  inversion Hnd as [|? ? Hg' Hnd']; subst.
  destruct (fresh_lookup (rng e) (rng e (rngPos e)) (position groupNode)
              (storeNode (position groupNode))
              (id_storeNode (position groupNode)) (membersOf g e)
              (S (rngPos e)) n Hin (members_NoDup g e Hwk) Hnd')
    as (j & Hnth & Hj & Hmap & Hget).
  assert (Hren : tripRenaming g e (id n) = rng e (S (rngPos e) + j)).
  { unfold tripRenaming, renameBy. now rewrite Hmap. }
  clear Hmem.
  assert (Hdrawn : In (rng e (S (rngPos e) + j))
                     (map (rng e) (seq (S (rngPos e))
                                     (List.length (membersOf g e))))).
  { apply in_map, in_seq. lia. }
  exists n, (instantiate (rng e (S (rngPos e) + j)) (rng e (rngPos e))
               (position groupNode) (storeNode (position groupNode) n)), j.
  repeat split; auto.
  rewrite Hren, Hnodes, mapGet_app, mapGet_filter_key.
  rewrite (Hfresh _ (or_intror Hdrawn)).
  replace (if outsideKey g (membersOf g e) (rng e (S (rngPos e) + j))
           then None else None) with (@None LogicNode)
    by (now destruct (outsideKey _ _ _)).
  cbn [mapGet].
  assert (Hneq : (rng e (rngPos e) =? rng e (S (rngPos e) + j)) = false).
  { apply String.eqb_neq. intros Heq. apply Hg'. now rewrite Heq. }
  rewrite Hneq. exact Hget.
Qed.

(** The renaming of the round trip never sends two members to one id. *)
Lemma tripRenaming_injective (g : string) (e : CircuitEngine) (k k' : string) :
  packable g e ->
  existsb (fun n => isType SWITCH n || isType LIGHT n) (membersOf g e) = true ->
  hasId k (membersOf g e) = true ->
  hasId k' (membersOf g e) = true ->
  tripRenaming g e k = tripRenaming g e k' ->
  k = k'.
Proof.
  intros Hp Hio Hk Hk' Heq.
  destruct (member_after_trip g e k Hp Hio Hk)
    as (n & _ & j & Hn & Hnth & Hj & Hr & _).
  destruct (member_after_trip g e k' Hp Hio Hk')
    as (n' & _ & j' & Hn' & Hnth' & Hj' & Hr' & _).
  destruct Hp as (Hwk & _ & _ & _ & Hnd & _).
  rewrite drawnIds_cons in Hnd. inversion Hnd as [|? ? _ Hnd']; subst.
  rewrite Hr, Hr' in Heq.
  assert (j = j') by (eapply drawn_distinct; eauto). subst j'.
  assert (n = n') by congruence. subst n'.
  destruct (member_In g e k Hwk Hk) as (m & Hm & _ & Hid).
  destruct (member_In g e k' Hwk Hk') as (m' & Hm' & _ & Hid').
  congruence.
Qed.

(** Wires whose ends are both renamed keep their pins and their order. *)
Lemma renamedWires_ends (r : nat -> string) (idMap : JsMap string)
    (l : list Wire) :
  (forall w, In w l ->
     mapGet (sourceNodeId w) idMap <> None /\
     mapGet (targetNodeId w) idMap <> None) ->
  forall k,
    map wireEnds (renamedWires r idMap k l)
    = map (wireShape (renameBy idMap)) l.
Proof.
  induction l as [|w rest IH]; intros H k; [reflexivity|].
  destruct (H w (or_introl eq_refl)) as [Hs Ht].
  simpl.
  destruct (mapGet (sourceNodeId w) idMap) as [s|] eqn:Es; [|congruence].
  destruct (mapGet (targetNodeId w) idMap) as [t|] eqn:Et; [|congruence].
  simpl. f_equal.
  - unfold wireEnds, wireShape, renameBy. simpl. now rewrite Es, Et.
  - apply IH. intros w' Hin. apply H. now right.
Qed.

Lemma member_renamed (r : nat -> string) (k : nat) (l : list LogicNode)
    (i : string) :
  hasId i l = true -> mapGet i (freshIdMap r k l) <> None.
Proof.
  intros H Hnone. apply mapGet_None_iff in Hnone. apply Hnone.
  rewrite keys_freshIdMap. now apply hasId_In.
Qed.

(** The wiring after the round trip: the wires outside the group as they
    were, then the wires inside it, renamed, in their old order. *)
Lemma trip_wiring (g : string) (e : CircuitEngine) :
  packable g e ->
  existsb (fun n => isType SWITCH n || isType LIGHT n) (membersOf g e) = true ->
  map wireEnds (wires (roundTrip e))
  = map wireEnds (filter (isOutsideWire (membersOf g e)) (wires e))
    ++ map (wireShape (tripRenaming g e))
         (filter (isInternalWire (membersOf g e)) (wires e)).
Proof.
  intros Hp Hio.
  destruct (trip_shape g e Hp Hio) as (_ & _ & _ & _ & _ & Hw & _).
  rewrite Hw, map_app. f_equal. apply renamedWires_ends.
  intros w Hin. apply filter_In in Hin. destruct Hin as [_ Hin].
  unfold isInternalWire in Hin. apply andb_true_iff in Hin.
  destruct Hin as [Hs Ht]. split; now apply member_renamed.
Qed.

(** A wire inside the group that was the last on its pin still is. *)
Lemma lastOnPin_trip (g : string) (e : CircuitEngine) (s : string) (i : nat)
    (t : string) (j : nat) :
  packable g e ->
  existsb (fun n => isType SWITCH n || isType LIGHT n) (membersOf g e) = true ->
  hasId s (membersOf g e) = true ->
  hasId t (membersOf g e) = true ->
  lastOnPin (map wireEnds (wires e)) (s, i, t, j) ->
  lastOnPin (map wireEnds (wires (roundTrip e)))
    (tripRenaming g e s, i, tripRenaming g e t, j).
Proof.
  intros Hp Hio Hs Ht Hlast.
  destruct (lastOnPin_wires _ _ _ _ _ Hlast)
    as (pre & w & post & Hw & Hws & Hwi & Hwt & Hwj & Hpost).
  rewrite (trip_wiring g e Hp Hio), Hw, !filter_app. cbn [filter].
  assert (Hint : isInternalWire (membersOf g e) w = true).
  { unfold isInternalWire. now rewrite Hws, Hwt, Hs, Ht. }
  rewrite Hint, !map_app. cbn [map].
  exists (map wireEnds (filter (isOutsideWire (membersOf g e)) pre
                        ++ filter (isOutsideWire (membersOf g e)) (w :: post))
          ++ map (wireShape (tripRenaming g e))
               (filter (isInternalWire (membersOf g e)) pre)),
         (map (wireShape (tripRenaming g e))
            (filter (isInternalWire (membersOf g e)) post)).
  split.
  - unfold wireShape at 2.
    rewrite Hws, Hwi, Hwt, Hwj, map_app, <- !app_assoc. reflexivity.
  - intros sh' Hin [Hts Htj]. apply in_map_iff in Hin.
    destruct Hin as (w' & <- & Hin). apply filter_In in Hin.
    destruct Hin as [Hin Hint']. unfold wireShape in Hts, Htj.
    simpl in Hts, Htj. unfold isInternalWire in Hint'.
    apply andb_true_iff in Hint'. destruct Hint' as [_ Ht'].
    apply (Hpost w' Hin); [|exact Htj].
    now apply (tripRenaming_injective g e _ _ Hp Hio Ht' Ht).
Qed.

Lemma freshNodes_types (r : nat -> string) (g : string) (pos : Vector2)
    (l : list LogicNode) :
  forall k kv,
    In kv (freshNodes r g pos k l) ->
    exists n, In n l /\ type (snd kv) = type n.
Proof.
  induction l as [|h rest IH]; intros k kv Hin; [easy|].
  destruct Hin as [<-|Hin].
  - exists h. split; [now left | reflexivity].
  - destruct (IH _ _ Hin) as (n & Hn & Hty). exists n. split; [now right | auto].
Qed.

(** The round trip brings no IC into a graph that had none. *)
Lemma noIC_trip (g : string) (e : CircuitEngine) :
  packable g e ->
  existsb (fun n => isType SWITCH n || isType LIGHT n) (membersOf g e) = true ->
  Forall (fun kt => snd kt <> IC) (keyTypes (nodes e)) ->
  Forall (fun kt => snd kt <> IC) (keyTypes (nodes (roundTrip e))).
Proof.
  intros Hp Hio Hno.
  destruct (trip_shape g e Hp Hio) as (groupNode & group' & _ & Hgty & Hn & _).
  rewrite Forall_forall in *. unfold keyTypes in *.
  assert (Hold : forall kv, In kv (nodes e) -> type (snd kv) <> IC).
  { intros kv Hin. apply (Hno (fst kv, type (snd kv))).
    apply in_map_iff. now exists kv. }
  intros kt Hin. apply in_map_iff in Hin. destruct Hin as (kv & <- & Hin).
  simpl. rewrite Hn in Hin. apply in_app_or in Hin.
  destruct Hin as [Hin|[<-|Hin]].
  - apply filter_In in Hin. now apply Hold.
  - simpl. congruence.
  - apply freshNodes_types in Hin. destruct Hin as (n & Hin & ->).
    apply in_map_iff in Hin. destruct Hin as (m & <- & Hin).
    change (type (storeNode (position groupNode) m)) with (type m).
    unfold membersOf in Hin. apply filter_In in Hin. destruct Hin as [Hin _].
    unfold mapValues in Hin. apply in_map_iff in Hin.
    destruct Hin as (kv' & <- & Hin). now apply Hold.
Qed.

Lemma switchIs_trip (b : bool) (g : string) (e : CircuitEngine) (s : string) :
  packable g e ->
  existsb (fun n => isType SWITCH n || isType LIGHT n) (membersOf g e) = true ->
  hasId s (membersOf g e) = true ->
  switchIs b e s ->
  switchIs b (roundTrip e) (tripRenaming g e s).
Proof.
  intros Hp Hio Hs (n & Hk & Hty & Hout).
  destruct (member_after_trip g e s Hp Hio Hs)
    as (m & n' & j & Hm & _ & _ & _ & Hget & Hty' & Hout').
  assert (m = n) by congruence. subst m.
  exists n'. rewrite Hty', Hout'. auto.
Qed.

Lemma type_trip (g : string) (e : CircuitEngine) (k : string) (t : NodeType) :
  packable g e ->
  existsb (fun n => isType SWITCH n || isType LIGHT n) (membersOf g e) = true ->
  hasId k (membersOf g e) = true ->
  mapGet k (keyTypes (nodes e)) = Some t ->
  mapGet (tripRenaming g e k) (keyTypes (nodes (roundTrip e))) = Some t.
Proof.
  intros Hp Hio Hk Ht. destruct (keyTypes_node _ _ _ Ht) as (n & Hn & Hty).
  destruct (member_after_trip g e k Hp Hio Hk)
    as (m & n' & j & Hm & _ & _ & _ & Hget & Hty' & _).
  assert (m = n) by congruence. subst m.
  rewrite mapGet_keyTypes, Hget. simpl. congruence.
Qed.

(** The AND-and-LIGHT circuit inside the group survives the round trip,
    under its new ids. *)
Lemma andLight_trip (g : string) (e : CircuitEngine) (s1 s2 a l : string) :
  packable g e ->
  existsb (fun n => isType SWITCH n || isType LIGHT n) (membersOf g e) = true ->
  Forall (fun k => hasId k (membersOf g e) = true) [s1; s2; a; l] ->
  andLight e s1 s2 a l ->
  andLight (roundTrip e) (tripRenaming g e s1) (tripRenaming g e s2)
    (tripRenaming g e a) (tripRenaming g e l).
Proof.
  intros Hp Hio Hmem (Ha & Hl & Hw1 & Hw2 & Hw3 & Hno).
  inversion Hmem as [|? ? H1 Hm1]; subst.
  inversion Hm1 as [|? ? H2 Hm2]; subst.
  inversion Hm2 as [|? ? H3 Hm3]; subst.
  inversion Hm3 as [|? ? H4 _]; subst.
  unfold andLight. repeat split.
  - now apply type_trip.
  - now apply type_trip.
  - now apply lastOnPin_trip.
  - now apply lastOnPin_trip.
  - now apply lastOnPin_trip.
  - now apply (noIC_trip g).
Qed.

Lemma andLight_skeleton (x y : CircuitEngine) (s1 s2 a l : string) :
  keyTypes (nodes y) = keyTypes (nodes x) ->
  map wireEnds (wires y) = map wireEnds (wires x) ->
  andLight x s1 s2 a l -> andLight y s1 s2 a l.
Proof. unfold andLight. intros -> ->. auto. Qed.

Lemma isRunning_tick nf (timestamp : Z) (x : CircuitEngine) :
  isRunning (completed (tick nf timestamp x)) = isRunning x.
Proof.
  destruct (accepted timestamp x) eqn:Ha.
  - rewrite tick_accepted by assumption. cbv zeta.
    now destruct (evalNodes nf _ _) as [[c ns4]|[c ns4]].
  - unfold accepted in Ha. unfold tick.
    destruct (isRunning x) eqn:Hr, (timestamp =? -1)%Z,
             (timestamp - lastTick x <? tickRate x)%Z;
      simpl in *; try discriminate; now rewrite Hr.
Qed.

(** [toggleSwitch] on a SWITCH: the flip, then a forced tick when running. *)
Lemma toggleSwitch_flipped nf (b : bool) (x : CircuitEngine) (s : string) :
  switchIs b x s ->
  completed (toggleSwitch nf s x)
  = if isRunning x then completed (tick nf (-1) (flipped s x))
    else flipped s x.
Proof.
  intros (n & Hk & Hty & _). unfold toggleSwitch, flipped.
  rewrite Hk, Hty. cbn [isRunning set_nodes].
  now destruct (isRunning x).
Qed.

Lemma isRunning_toggle nf (x : CircuitEngine) (s : string) :
  isRunning (completed (toggleSwitch nf s x)) = isRunning x.
Proof.
  unfold toggleSwitch.
  destruct (mapGet s (nodes x)) as [n|]; [|reflexivity].
  destruct (type n); try reflexivity.
  set (x1 := set_nodes _ x). change (isRunning x) with (isRunning x1).
  destruct (isRunning x1) eqn:Hr; [|exact Hr].
  now rewrite isRunning_tick.
Qed.

Lemma flipped_switchIs (b : bool) (x : CircuitEngine) (s : string) :
  switchIs b x s -> switchIs (negb b) (flipped s x) s.
Proof.
  intros (n & Hk & Hty & Hout). unfold flipped. rewrite Hk.
  eexists. split; [|split].
  - simpl. apply mapGet_mapSet_same.
  - exact Hty.
  - cbn [outputs set_outputs].
    replace (arrGet _ 0) with (jsNot (arrGet (outputs n) 0))
      by (destruct (outputs n); reflexivity).
    unfold jsNot. cbn [truthy]. rewrite Hout. now destruct b.
Qed.

Lemma flipped_other_switchIs (b : bool) (x : CircuitEngine) (s s' : string) :
  s <> s' -> switchIs b x s' -> switchIs b (flipped s x) s'.
Proof.
  intros Hne (n' & Hk' & Hty' & Hout'). unfold flipped.
  destruct (mapGet s (nodes x)) as [n|]; [|now exists n'].
  exists n'. simpl. now rewrite mapGet_mapSet_other.
Qed.

Lemma flipped_skeleton (b : bool) (x : CircuitEngine) (s : string) :
  switchIs b x s ->
  keyTypes (nodes (flipped s x)) = keyTypes (nodes x) /\
  map wireEnds (wires (flipped s x)) = map wireEnds (wires x).
Proof.
  intros (n & Hk & _). unfold flipped. rewrite Hk. simpl.
  split; [|reflexivity]. now apply keyTypes_mapSet with (v0 := n).
Qed.

(** Both switches of the AND-and-LIGHT circuit toggled on from off: two
    forced ticks light the LIGHT; while the simulator is running the second
    toggle has ticked already, and one forced tick is enough. *)
Lemma and_light_switched nf (x : CircuitEngine) (s1 s2 a l : string) :
  andLight x s1 s2 a l ->
  s1 <> s2 ->
  switchIs false x s1 ->
  switchIs false x s2 ->
  arrGet (inputs (nodeAt l (forcedTicks nf 2 (toggleBoth nf s1 s2 x)))) 0
  = Some true /\
  (isRunning x = true ->
   arrGet (inputs (nodeAt l (forcedTicks nf 1 (toggleBoth nf s1 s2 x)))) 0
   = Some true).
Proof.
  intros HA Hne Hs1 Hs2. unfold toggleBoth.
  set (x1 := completed (toggleSwitch nf s1 x)).
  assert (H1 : switchIs true x1 s1) by exact (toggle_switchIs nf false x s1 Hs1).
  assert (H2 : switchIs false x1 s2)
    by exact (toggle_other_switchIs nf false x s1 s2 Hne Hs2).
  assert (HA1 : andLight x1 s1 s2 a l).
  { destruct (toggle_skeleton nf x s1) as [Hk Hw].
    exact (andLight_skeleton x x1 s1 s2 a l Hk Hw HA). }
  split.
  - apply and_light_two_ticks with (s1 := s1) (s2 := s2) (a := a).
    + destruct (toggle_skeleton nf x1 s2) as [Hk Hw].
      exact (andLight_skeleton x1 _ s1 s2 a l Hk Hw HA1).
    + apply toggle_other_switchIs; [congruence | exact H1].
    + exact (toggle_switchIs nf false x1 s2 H2).
  - intros Hrun.
    assert (Hrun1 : isRunning x1 = true).
    { unfold x1. now rewrite isRunning_toggle. }
    rewrite (toggleSwitch_flipped nf false x1 s2 H2), Hrun1.
    change (forcedTicks nf 1 (completed (tick nf (-1) (flipped s2 x1))))
      with (forcedTicks nf 2 (flipped s2 x1)).
    apply and_light_two_ticks with (s1 := s1) (s2 := s2) (a := a).
    + destruct (flipped_skeleton false x1 s2 H2) as [Hk Hw].
      exact (andLight_skeleton x1 _ s1 s2 a l Hk Hw HA1).
    + apply flipped_other_switchIs; [congruence | exact H1].
    + exact (flipped_switchIs false x1 s2 H2).
Qed.

Lemma switch_member_packs (b : bool) (g : string) (e : CircuitEngine)
    (s : string) :
  wellKeyed (nodes e) ->
  hasId s (membersOf g e) = true ->
  switchIs b e s ->
  existsb (fun n => isType SWITCH n || isType LIGHT n) (membersOf g e) = true.
Proof.
  intros Hwk Hs (n & Hk & Hty & _).
  destruct (member_In g e s Hwk Hs) as (m & Hm & Hin & _).
  assert (m = n) by congruence. subst m.
  apply existsb_exists. exists n. split; [exact Hin|].
  unfold isType. now rewrite Hty.
Qed.

(** The behaviour after the round trip, for any engine. *)
Lemma trip_behaviour nf (g : string) (e : CircuitEngine) (s1 s2 a l : string) :
  packable g e ->
  andLight e s1 s2 a l ->
  Forall (fun k => hasId k (membersOf g e) = true) [s1; s2; a; l] ->
  s1 <> s2 ->
  switchIs false e s1 ->
  switchIs false e s2 ->
  let f := tripRenaming g e in
  let y := toggleBoth nf (f s1) (f s2) (roundTrip e) in
  arrGet (inputs (nodeAt (f l) (forcedTicks nf 2 y))) 0 = Some true /\
  (isRunning e = true ->
   arrGet (inputs (nodeAt (f l) (forcedTicks nf 1 y))) 0 = Some true).
Proof.
  intros Hp HA Hmem Hne Hs1 Hs2 f y.
  assert (Hm1 : hasId s1 (membersOf g e) = true)
    by (inversion Hmem; assumption).
  assert (Hm2 : hasId s2 (membersOf g e) = true).
  { inversion Hmem as [|? ? _ Hm]; subst. inversion Hm; assumption. }
  assert (Hio : existsb (fun n => isType SWITCH n || isType LIGHT n)
                  (membersOf g e) = true).
  { destruct Hp as (Hwk & _). exact (switch_member_packs false g e s1 Hwk Hm1 Hs1). }
  destruct (and_light_switched nf (roundTrip e) (f s1) (f s2) (f a) (f l))
    as [Htwo Hone].
  - now apply andLight_trip.
  - intros Heq. apply Hne.
    exact (tripRenaming_injective g e s1 s2 Hp Hio Hm1 Hm2 Heq).
  - now apply switchIs_trip.
  - now apply switchIs_trip.
  - split; [exact Htwo|]. intros Hrun. apply Hone.
    destruct (trip_shape g e Hp Hio) as (_ & _ & _ & _ & _ & _ & Hr).
    now rewrite Hr.
Qed.

Lemma distinct_NoDup (l : list string) : distinct l = true -> NoDup l.
Proof.
  induction l as [|h r IH]; simpl; intros H; constructor;
    apply andb_true_iff in H; destruct H as [Hh Hr]; auto.
  intros Hin. apply negb_true_iff in Hh.
  assert (Hex : existsb (String.eqb h) r = true).
  { apply existsb_exists. exists h. split; [exact Hin | apply String.eqb_refl]. }
  congruence.
Qed.

(** C3 (amended). Take an engine that keeps every node under its own id,
    in a graph without IC nodes, and let [generateId] draw ids that are
    pairwise distinct and not in use. Let the selected group [g] (its id not
    empty, not a member of itself) contain two SWITCH nodes [s1], [s2], both
    off, wired to pins 0 and 1 of an AND gate [a] that feeds pin 0 of a
    LIGHT [l], each of the three wires the last of the wire list on its
    input pin. Packing the group into an IC and unpacking that IC gives a
    graph with the same number of nodes of every type; each member sits
    under the id drawn for it, with its type, distinct members under
    distinct ids; the wire list is the wires with no end in the group, as
    before, then the wires with both ends in the group, on the same pins of
    the renamed nodes, in the same order. On that graph, toggling both
    switches on and forcing two ticks makes input pin 0 of the LIGHT true:
    one tick for the AND gate to evaluate, one for its output to travel
    along the wire. One forced tick is enough while the simulator is
    running, because the second toggle has ticked already. *)
Theorem C3_round_trip_amended nf (e : CircuitEngine) (g s1 s2 a l : string) :
  packable g e ->
  andLight e s1 s2 a l ->
  Forall (fun k => hasId k (membersOf g e) = true) [s1; s2; a; l] ->
  s1 <> s2 ->
  switchIs false e s1 ->
  switchIs false e s2 ->
  (forall t, countType t (roundTrip e) = countType t e) /\
  (forall k t,
     hasId k (membersOf g e) = true ->
     mapGet k (keyTypes (nodes e)) = Some t ->
     mapGet (tripRenaming g e k) (keyTypes (nodes (roundTrip e))) = Some t) /\
  (forall k k',
     hasId k (membersOf g e) = true ->
     hasId k' (membersOf g e) = true ->
     tripRenaming g e k = tripRenaming g e k' -> k = k') /\
  map wireEnds (wires (roundTrip e))
  = map wireEnds (filter (isOutsideWire (membersOf g e)) (wires e))
    ++ map (wireShape (tripRenaming g e))
         (filter (isInternalWire (membersOf g e)) (wires e)) /\
  arrGet (inputs (nodeAt (tripRenaming g e l)
                    (forcedTicks nf 2
                       (toggleBoth nf (tripRenaming g e s1)
                          (tripRenaming g e s2) (roundTrip e))))) 0
  = Some true /\
  (isRunning e = true ->
   arrGet (inputs (nodeAt (tripRenaming g e l)
                     (forcedTicks nf 1
                        (toggleBoth nf (tripRenaming g e s1)
                           (tripRenaming g e s2) (roundTrip e))))) 0
   = Some true).
Proof.
  intros Hp HA Hmem Hne Hs1 Hs2.
  assert (Hm1 : hasId s1 (membersOf g e) = true)
    by (inversion Hmem; assumption).
  assert (Hio : existsb (fun n => isType SWITCH n || isType LIGHT n)
                  (membersOf g e) = true).
  { destruct Hp as (Hwk & _).
    exact (switch_member_packs false g e s1 Hwk Hm1 Hs1). }
  split; [|split; [|split; [|split]]].
  - intros t. destruct Hp as (Hwk & Hsel & Hnm & Hself & Hnd & Hfresh).
    destruct (findSelected_node _ _ _ Hsel) as (groupNode & Hk).
    exact (pack_unpack_counts t e g groupNode Hwk Hsel Hnm Hk Hio Hself
             Hnd Hfresh).
  - intros k t. now apply type_trip.
  - intros k k'. now apply tripRenaming_injective.
  - now apply trip_wiring.
  - exact (trip_behaviour nf g e s1 s2 a l Hp HA Hmem Hne Hs1 Hs2).
Qed.

Lemma C3_round_trip_amended_witness :
  (forall t, countType t (roundTrip demoGrouped) = countType t demoGrouped) /\
  (forall k t,
     hasId k (membersOf "n7" demoGrouped) = true ->
     mapGet k (keyTypes (nodes demoGrouped)) = Some t ->
     mapGet (tripRenaming "n7" demoGrouped k)
       (keyTypes (nodes (roundTrip demoGrouped))) = Some t) /\
  (forall k k',
     hasId k (membersOf "n7" demoGrouped) = true ->
     hasId k' (membersOf "n7" demoGrouped) = true ->
     tripRenaming "n7" demoGrouped k = tripRenaming "n7" demoGrouped k' ->
     k = k') /\
  map wireEnds (wires (roundTrip demoGrouped))
  = map wireEnds
      (filter (isOutsideWire (membersOf "n7" demoGrouped)) (wires demoGrouped))
    ++ map (wireShape (tripRenaming "n7" demoGrouped))
         (filter (isInternalWire (membersOf "n7" demoGrouped))
            (wires demoGrouped)) /\
  arrGet (inputs (nodeAt (tripRenaming "n7" demoGrouped "n3")
                    (forcedTicks noCompile 2
                       (toggleBoth noCompile
                          (tripRenaming "n7" demoGrouped "n0")
                          (tripRenaming "n7" demoGrouped "n1")
                          (roundTrip demoGrouped))))) 0
  = Some true /\
  (isRunning demoGrouped = true ->
   arrGet (inputs (nodeAt (tripRenaming "n7" demoGrouped "n3")
                     (forcedTicks noCompile 1
                        (toggleBoth noCompile
                           (tripRenaming "n7" demoGrouped "n0")
                           (tripRenaming "n7" demoGrouped "n1")
                           (roundTrip demoGrouped))))) 0
   = Some true).
Proof.
  apply (C3_round_trip_amended noCompile demoGrouped "n7" "n0" "n1" "n2" "n3").
  - unfold packable, wellKeyed.
    split; [split|split; [|split; [|split; [|split]]]].
    + apply distinct_NoDup. vm_compute. reflexivity.
    + vm_compute. repeat (apply Forall_cons; [reflexivity|]). apply Forall_nil.
    + vm_compute. reflexivity.
    + discriminate.
    + vm_compute. reflexivity.
    + apply distinct_NoDup. vm_compute. reflexivity.
    + apply Forall_forall. vm_compute.
      repeat (apply Forall_cons; [reflexivity|]). apply Forall_nil.
  - unfold andLight.
    split; [vm_compute; reflexivity|].
    split; [vm_compute; reflexivity|].
    split; [|split; [|split]].
    + exists [], [("n1", 0, "n2", 1); ("n2", 0, "n3", 0)].
      split; [vm_compute; reflexivity|].
      intros sh' [<-|[<-|[]]] [H1 H2]; simpl in *; discriminate.
    + exists [("n0", 0, "n2", 0)], [("n2", 0, "n3", 0)].
      split; [vm_compute; reflexivity|].
      intros sh' [<-|[]] [H1 H2]; simpl in *; discriminate.
    + exists [("n0", 0, "n2", 0); ("n1", 0, "n2", 1)], [].
      split; [vm_compute; reflexivity|].
      intros sh' [].
    + vm_compute. repeat (apply Forall_cons; [discriminate|]). apply Forall_nil.
  - repeat (apply Forall_cons; [vm_compute; reflexivity|]). apply Forall_nil.
  - discriminate.
  - eexists. split; [vm_compute; reflexivity|].
    split; vm_compute; reflexivity.
  - eexists. split; [vm_compute; reflexivity|].
    split; vm_compute; reflexivity.
Defined.

(** ** History, for any engine *)

Lemma top_snoc A (l : list A) (x : A) : top (l ++ [x]) = Some x.
Proof. unfold top. now rewrite rev_app_distr. Qed.


(** [deleteSelected] makes no checkpoint of its own result: its history is
    the one [saveState] left before the deletion. *)
Lemma deleteSelected_history (e : CircuitEngine) :
  historyStack (deleteSelected e)
  = match selectedNodeIds e, selectedWireIds e with
    | [], [] => historyStack e
    | _, _ => historyStack (saveState e)
    end.
Proof.
  assert (Hfold : forall (l : list string) (x : CircuitEngine),
            historyStack
              (fold_left
                 (fun acc i =>
                    set_fnCache (mapDelete i (fnCache acc))
                      (set_nodes (mapForEach (clearGroupRef i)
                                    (mapDelete i (nodes acc)))
                         (set_wires
                            (filter (fun w => negb (touches i w)) (wires acc))
                            acc))) l x)
            = historyStack x).
  { induction l as [|i l IH]; intros x; cbn [fold_left]; [reflexivity|].
    rewrite IH. reflexivity. }
  unfold deleteSelected, triggerUpdate.
  destruct (selectedNodeIds e) as [|i l] eqn:Hn,
           (selectedWireIds e) as [|j m] eqn:Hw; try reflexivity;
    cbv zeta; match goal with
              | |- context [match selectedWireIds ?x with _ => _ end] =>
                  destruct (selectedWireIds x)
              end; cbn [historyStack set_selectedWireIds set_selectedNodeIds
                        set_wires]; apply Hfold.
Qed.

Lemma values_of_nodes (l : list LogicNode) :
  NoDup (map id l) ->
  mapValues (fold_left (fun m n => mapSet (id n) n m) l []) = l.
Proof.
  intros Hnd.
  assert (H : fold_left (fun m n => mapSet (id n) n m) l []
              = fold_left (fun m kv => mapSet (fst kv) (snd kv) m)
                  (map (fun n => (id n, n)) l) []).
  { generalize (@nil (string * LogicNode)).
    induction l as [|n r IH]; intros m0; simpl; [reflexivity|].
    inversion Hnd; subst. now rewrite IH. }
  rewrite H, fold_mapSet_fresh.
  - simpl. unfold mapValues. rewrite map_map. simpl. apply map_id.
  - now rewrite map_map.
  - reflexivity.
Qed.

(** Reading a snapshot back gives that snapshot. *)
Lemma serialize_deserialize (s : Snapshot) (e : CircuitEngine) :
  NoDup (map id (s_nodes s)) ->
  serialize (deserialize s e) = s.
Proof.
  intros Hnd. unfold serialize, deserialize, triggerUpdate.
  cbn [nodes wires viewport set_viewport set_wires set_nodes
       set_selectedWireIds set_selectedNodeIds set_fnCache].
  rewrite values_of_nodes by assumption. now destruct s.
Qed.

(** [undo] restores the checkpoint below the top one. *)
Lemma undo_restores_below (e : CircuitEngine) (h : list Snapshot)
    (below current : Snapshot) :
  historyStack e = h ++ [below; current] ->
  NoDup (map id (s_nodes below)) ->
  serialize (undo e) = below /\
  top (redoStack (undo e)) = Some current.
Proof.
  intros Hh Hnd. unfold undo. rewrite Hh.
  replace (h ++ [below; current]) with ((h ++ [below]) ++ [current])
    by (now rewrite <- app_assoc).
  rewrite length_app, top_snoc, removelast_last, top_snoc.
  replace (List.length (h ++ [below]) + List.length [current] <=? 1)%nat
    with false
    by (rewrite length_app; simpl; symmetry; apply Nat.leb_gt; lia).
  split.
  - unfold serialize at 1. cbn [nodes wires viewport set_isRestoringHistory].
    change (mkSnapshot (mapValues (nodes ?x)) (wires ?x) (viewport ?x))
      with (serialize x).
    now apply serialize_deserialize.
  - unfold deserialize, triggerUpdate. cbn. apply top_snoc.
Qed.

(** [redo] restores the top of the redo stack. *)
Lemma redo_restores_top (e : CircuitEngine) (next : Snapshot) :
  top (redoStack e) = Some next ->
  NoDup (map id (s_nodes next)) ->
  serialize (redo e) = next.
Proof.
  intros Ht Hnd. unfold redo. rewrite Ht.
  unfold serialize at 1. cbn [nodes wires viewport set_isRestoringHistory].
  change (mkSnapshot (mapValues (nodes ?x)) (wires ?x) (viewport ?x))
    with (serialize x).
  now apply serialize_deserialize.
Qed.

(** [deleteSelected] then [undo], for any engine: the checkpoint that
    [deleteSelected] leaves on top is the state before the deletion, so
    [undo] restores the checkpoint below it, and [redo] after that restores
    the state before the deletion, not the state after it. *)
Lemma delete_then_undo (e : CircuitEngine) (h : list Snapshot)
    (below : Snapshot) :
  isRestoringHistory e = false ->
  selectedNodeIds e <> [] \/ selectedWireIds e <> [] ->
  historyStack (saveState e) = h ++ [below; serialize e] ->
  NoDup (map id (s_nodes below)) ->
  NoDup (map id (mapValues (nodes e))) ->
  serialize (undo (deleteSelected e)) = below /\
  serialize (redo (undo (deleteSelected e))) = serialize e.
Proof.
  intros Hr Hsel Hh Hnd Hnd'.
  assert (Hd : historyStack (deleteSelected e) = h ++ [below; serialize e]).
  { rewrite deleteSelected_history.
    destruct (selectedNodeIds e), (selectedWireIds e); try exact Hh.
    destruct Hsel; congruence. }
  destruct (undo_restores_below _ _ _ _ Hd Hnd) as [Hu Hre].
  split; [exact Hu|].
  now apply redo_restores_top.
Qed.

(** ** The cached state of the wires *)

Lemma sameButInputs_propagateWire (ns : JsMap LogicNode) (w : Wire) :
  sameButInputs ns (fst (propagateWire ns w)).
Proof.
  intros k. exists (fun n => drive ns k (inputs n) w).
  apply propagateWire_get.
Qed.

Lemma stamp_sameButInputs (ns ns' : JsMap LogicNode) (w : Wire) :
  sameButInputs ns ns' -> stamp ns' w = stamp ns w.
Proof.
  intros H. unfold stamp.
  destruct (sameButInputs_wire ns ns' w H) as [-> ->]. reflexivity.
Qed.

(** Propagation stamps every live wire with the value at its source; the
    wires with a missing end keep the state they had. *)
Lemma propagate_wires (ws : list Wire) :
  forall ns, snd (propagate ns ws) = map (stamp ns) ws.
Proof.
  induction ws as [|w r IH]; intros ns; simpl; [reflexivity|].
  assert (Hw : snd (propagateWire ns w) = stamp ns w).
  { unfold propagateWire, stamp, wireLive, wireValue, mapHas.
    destruct (mapGet (sourceNodeId w) ns); [|reflexivity].
    destruct (mapGet (targetNodeId w) ns); reflexivity. }
  pose proof (sameButInputs_propagateWire ns w) as Hs.
  destruct (propagateWire ns w) as [ns1 w1]. simpl in Hw, Hs.
  specialize (IH ns1). destruct (propagate ns1 r) as [ns2 r2]. simpl in *.
  subst. f_equal. apply map_ext. intros w'. now apply stamp_sameButInputs.
Qed.

(** The wire list after a tick that runs: each live wire carries the output
    it read, taken after the clock update of that tick. *)
Lemma wires_after_tick nf (timestamp : Z) (e : CircuitEngine) :
  accepted timestamp e = true ->
  wires (completed (tick nf timestamp e))
  = map (stamp (mapForEach resetInputs
                  (mapForEach (updateClock (S (tickCount e))) (nodes e))))
      (wires e).
Proof.
  intros Ha. rewrite tick_accepted by assumption. cbv zeta.
  rewrite <- propagate_wires.
  now destruct (evalNodes nf _ _) as [[c ns4]|[c ns4]].
Qed.

(** ** IC bodies that throw when they run *)

(** Only the compilation is guarded. A body that compiled and throws when
    it is called is not caught: the exception leaves [evalNode]. *)
Lemma evalNode_runtime_throw nf (cache : JsMap Fn) (node : LogicNode) (f : Fn) :
  type node = IC ->
  strTruthy (compiledFunction node) = true ->
  mapGet (id node) cache = Some f ->
  (forall i st, f i st = Throws) ->
  evalNode nf cache node = Throw (cache, node).
Proof.
  intros Hty Hcf Hc Hf. unfold evalNode. rewrite Hty, Hcf, Hc, Hf.
  reflexivity.
Qed.

(* ================================================================== *)
(** * Further properties of the code *)

(** ** Checkpoints *)

Lemma serialize_saveState (e : CircuitEngine) :
  serialize (saveState e) = serialize e.
Proof.
  unfold saveState.
  destruct (isRestoringHistory e); [reflexivity|].
  destruct (isTop _ _); reflexivity.
Qed.

Lemma isRestoring_saveState (e : CircuitEngine) :
  isRestoringHistory (saveState e) = isRestoringHistory e.
Proof.
  unfold saveState.
  destruct (isRestoringHistory e) eqn:Hr; [exact Hr|].
  destruct (isTop _ _); exact Hr.
Qed.

Lemma isTop_top (s : Snapshot) (h : list Snapshot) :
  top h = Some s -> isTop s h = true.
Proof.
  unfold isTop. intros ->. now destruct (Snapshot_eq_dec s s).
Qed.

(** X1. [saveState] never records the same state twice in a row: a second
    call right after the first changes nothing, whatever the history held
    and whatever its bound. *)
Theorem X1_saveState_twice (e : CircuitEngine) :
  saveState (saveState e) = saveState e.
Proof.
  destruct (isRestoringHistory e) eqn:Hr.
  - unfold saveState. now rewrite Hr, Hr.
  - unfold saveState at 1.
    rewrite isRestoring_saveState, Hr, serialize_saveState.
    destruct (isTop (serialize e) (historyStack (saveState e))) eqn:Htop;
      [reflexivity|].
    (* the first call left a history whose top is not the state: it is empty *)
    unfold saveState in Htop |- *. rewrite Hr in Htop |- *.
    destruct (isTop (serialize e) (historyStack e)) eqn:Ht0;
      [congruence|].
    cbn [historyStack set_historyStack set_redoStack] in Htop |- *.
    destruct (maxHistory e <? List.length (historyStack e ++ [serialize e]))%nat
      eqn:Hlt.
    + destruct (historyStack e) as [|x h] eqn:Hh.
      * cbn [app tl List.length maxHistory set_redoStack set_historyStack].
        cbn [app List.length] in Hlt. rewrite Hlt. reflexivity.
      * cbn [app tl] in Htop. rewrite isTop_top in Htop by apply top_snoc.
        discriminate.
    + rewrite isTop_top in Htop by apply top_snoc. discriminate.
Qed.

(** X2. The history never grows beyond its bound: after [saveState] it
    holds at most [maxHistory] checkpoints if it did before, and one more
    than before at most in any case. *)
Theorem X2_history_bounded (e : CircuitEngine) :
  List.length (historyStack e) <= maxHistory e ->
  List.length (historyStack (saveState e)) <= maxHistory e /\
  List.length (historyStack (saveState e)) <= S (List.length (historyStack e)) /\
  maxHistory (saveState e) = maxHistory e.
Proof.
  intros Hb. unfold saveState.
  destruct (isRestoringHistory e); [repeat split; lia|].
  destruct (isTop _ _); [repeat split; lia|].
  cbn [historyStack maxHistory set_historyStack set_redoStack].
  destruct (maxHistory e <? _)%nat eqn:Hlt.
  - apply Nat.ltb_lt in Hlt. rewrite length_app in Hlt. simpl in Hlt.
    destruct (historyStack e) as [|x h]; simpl in *;
      rewrite ?length_app; simpl; repeat split; lia.
  - apply Nat.ltb_ge in Hlt. rewrite length_app in *. simpl in *.
    repeat split; lia.
Qed.

Lemma X2_history_bounded_witness :
  List.length (historyStack (saveState demoSelected)) <= maxHistory demoSelected /\
  List.length (historyStack (saveState demoSelected))
  <= S (List.length (historyStack demoSelected)) /\
  maxHistory (saveState demoSelected) = maxHistory demoSelected.
Proof.
  apply X2_history_bounded.
  assert (H : (List.length (historyStack demoSelected)
               <=? maxHistory demoSelected)%nat = true)
    by (vm_compute; reflexivity).
  apply Nat.leb_le. exact H.
Defined.

Lemma undo_eq (e : CircuitEngine) (h : list Snapshot)
    (below current : Snapshot) :
  historyStack e = h ++ [below; current] ->
  undo e
  = set_isRestoringHistory false
      (deserialize below
         (set_isRestoringHistory true
            (set_redoStack (redoStack e ++ [current])
               (set_historyStack (h ++ [below]) e)))).
Proof.
  intros Hh. unfold undo. rewrite Hh.
  replace (h ++ [below; current]) with ((h ++ [below]) ++ [current])
    by (now rewrite <- app_assoc).
  rewrite top_snoc, removelast_last, top_snoc.
  replace (List.length ((h ++ [below]) ++ [current]) <=? 1)%nat with false
    by (rewrite !length_app; simpl; symmetry; apply Nat.leb_gt; lia).
  reflexivity.
Qed.

Lemma history_two (e : CircuitEngine) :
  2 <= List.length (historyStack e) ->
  historyStack e
  = removelast (removelast (historyStack e))
    ++ [historyBelow e; historyTop e].
Proof.
  intros Hlen. unfold historyBelow, historyTop.
  destruct (exists_last (l := historyStack e)) as (l1 & c & Hl).
  { intros Hnil. rewrite Hnil in Hlen. simpl in Hlen. lia. }
  rewrite Hl in *. rewrite removelast_last, top_snoc.
  destruct (exists_last (l := l1)) as (l2 & b & Hl1).
  { intros Hnil. rewrite Hnil, length_app in Hlen. simpl in Hlen. lia. }
  rewrite Hl1, removelast_last, top_snoc, <- app_assoc. reflexivity.
Qed.

(** X3. Undo then redo is a round trip. When the history holds at least two
    checkpoints (each with distinct node ids), [undo] restores the one below
    the top, and [redo] right after gives back the top one, with the history
    and the redo stack as they were before the [undo]. *)
Theorem X3_undo_redo (e : CircuitEngine) :
  2 <= List.length (historyStack e) ->
  NoDup (map id (s_nodes (historyBelow e))) ->
  NoDup (map id (s_nodes (historyTop e))) ->
  serialize (undo e) = historyBelow e /\
  serialize (redo (undo e)) = historyTop e /\
  historyStack (redo (undo e)) = historyStack e /\
  redoStack (redo (undo e)) = redoStack e.
Proof.
  intros Hlen Hb Hc. pose proof (history_two e Hlen) as Hh.
  set (h := removelast (removelast (historyStack e))) in Hh.
  destruct (undo_restores_below e h _ _ Hh Hb) as [Hu Htop].
  split; [exact Hu|].
  split; [now apply redo_restores_top|].
  unfold redo. rewrite Htop.
  rewrite (undo_eq e h _ _ Hh).
  unfold deserialize, triggerUpdate.
  cbn [historyStack redoStack set_isRestoringHistory set_historyStack
       set_redoStack set_viewport set_wires set_nodes set_selectedWireIds
       set_selectedNodeIds set_fnCache].
  rewrite removelast_last, <- app_assoc. cbn [app].
  split; [symmetry; exact Hh | reflexivity].
Qed.

Lemma X3_undo_redo_witness :
  serialize (undo demoSelected) = historyBelow demoSelected /\
  serialize (redo (undo demoSelected)) = historyTop demoSelected /\
  historyStack (redo (undo demoSelected)) = historyStack demoSelected /\
  redoStack (redo (undo demoSelected)) = redoStack demoSelected.
Proof.
  apply X3_undo_redo.
  - assert (H : (2 <=? List.length (historyStack demoSelected))%nat = true)
      by (vm_compute; reflexivity).
    apply Nat.leb_le. exact H.
  - apply distinct_NoDup. vm_compute. reflexivity.
  - apply distinct_NoDup. vm_compute. reflexivity.
Defined.

Lemma nodes_of_values (ns : JsMap LogicNode) :
  wellKeyed ns ->
  fold_left (fun m n => mapSet (id n) n m) (mapValues ns) [] = ns.
Proof.
  intros [Hnd Hid].
  assert (H : forall (l : list LogicNode) (m0 : JsMap LogicNode),
            fold_left (fun m n => mapSet (id n) n m) l m0
            = fold_left (fun m kv => mapSet (fst kv) (snd kv) m)
                (map (fun n => (id n, n)) l) m0).
  { induction l as [|n r IH]; intros m0; simpl; [reflexivity|]. apply IH. }
  assert (Hkv : map (fun n => (id n, n)) (mapValues ns) = ns).
  { unfold mapValues. rewrite map_map.
    rewrite <- (map_id ns) at 2. apply map_ext_in.
    intros [k n] Hin. rewrite Forall_forall in Hid.
    specialize (Hid _ Hin). simpl in *. now rewrite Hid. }
  rewrite H, Hkv, fold_mapSet_fresh; auto.
Qed.

(** X4. Reading back what [serialize] wrote restores the graph: on an engine
    whose nodes sit under their own ids, [deserialize (serialize e)] gives
    the same node map (order included), wires and viewport, whatever engine
    it is loaded into; the selection and the compiled-function cache of that
    engine are emptied. *)
Theorem X4_deserialize_serialize (e target : CircuitEngine) :
  wellKeyed (nodes e) ->
  let loaded := deserialize (serialize e) target in
  nodes loaded = nodes e /\
  wires loaded = wires e /\
  viewport loaded = viewport e /\
  selectedNodeIds loaded = [] /\
  selectedWireIds loaded = [] /\
  fnCache loaded = [].
Proof.
  intros Hwk loaded. unfold loaded, deserialize, serialize, triggerUpdate.
  cbn [nodes wires viewport selectedNodeIds selectedWireIds fnCache
       s_nodes s_wires s_viewport set_viewport set_wires set_nodes
       set_selectedWireIds set_selectedNodeIds set_fnCache].
  rewrite nodes_of_values by assumption. repeat split.
Qed.

Lemma wellKeyedb_ok (ns : JsMap LogicNode) :
  wellKeyedb ns = true -> wellKeyed ns.
Proof.
  unfold wellKeyedb, wellKeyed. intros H.
  apply andb_true_iff in H. destruct H as [Hd Hf]. split.
  - now apply distinct_NoDup.
  - apply Forall_forall. intros kv Hin.
    rewrite forallb_forall in Hf. now apply String.eqb_eq, Hf.
Qed.

Lemma X4_deserialize_serialize_witness :
  let loaded := deserialize (serialize demoWired) (emptyEngine exampleIds) in
  nodes loaded = nodes demoWired /\
  wires loaded = wires demoWired /\
  viewport loaded = viewport demoWired /\
  selectedNodeIds loaded = [] /\
  selectedWireIds loaded = [] /\
  fnCache loaded = [].
Proof.
  apply (X4_deserialize_serialize demoWired (emptyEngine exampleIds)).
  apply wellKeyedb_ok. vm_compute. reflexivity.
Defined.

(** ** Deleting the selection *)

Lemma ungrouped_cons (i : string) (sel : JsSet) (n : LogicNode) :
  ungrouped sel (clearGroupRef i n) = ungrouped (i :: sel) n.
Proof.
  unfold ungrouped, clearGroupRef. destruct (groupId n) as [g|] eqn:Hg.
  - cbn [setHas existsb]. destruct (g =? i) eqn:Hgi; simpl.
    + destruct (setHas g sel); reflexivity.
    + rewrite Hg. reflexivity.
  - now rewrite Hg.
Qed.

Lemma ungrouped_nil (n : LogicNode) : ungrouped [] n = n.
Proof. unfold ungrouped. now destruct (groupId n). Qed.

Lemma deleteNode_fold (ids : list string) :
  forall acc : CircuitEngine,
    let d := fold_left deleteNode ids acc in
    (forall k, mapGet k (nodes d)
               = if setHas k ids then None
                 else option_map (ungrouped ids) (mapGet k (nodes acc))) /\
    wires d
    = filter (fun w => negb (setHas (sourceNodeId w) ids)
                       && negb (setHas (targetNodeId w) ids)) (wires acc) /\
    (forall k, mapGet k (fnCache d)
               = if setHas k ids then None else mapGet k (fnCache acc)) /\
    selectedWireIds d = selectedWireIds acc.
Proof.
  induction ids as [|i r IH]; intros acc; cbn [fold_left].
  - cbv zeta. cbn [setHas existsb]. repeat split.
    + intros k. destruct (mapGet k (nodes acc)); simpl; now rewrite ?ungrouped_nil.
    + symmetry. apply filter_all. intros w _. reflexivity.
  - destruct (IH (deleteNode acc i)) as (Hn & Hw & Hc & Hs). cbv zeta.
    repeat split.
    + intros k. rewrite Hn. cbn [setHas existsb nodes deleteNode set_fnCache
                                   set_nodes].
      rewrite mapGet_mapForEach, mapGet_mapDelete.
      change (existsb (String.eqb k) r) with (setHas k r).
      rewrite (String.eqb_sym k i).
      destruct (setHas k r); [now rewrite orb_true_r|].
      rewrite orb_false_r. destruct (i =? k); [reflexivity|].
      destruct (mapGet k (nodes acc)); simpl; [|reflexivity].
      now rewrite ungrouped_cons.
    + rewrite Hw. cbn [wires deleteNode set_fnCache set_nodes set_wires].
      rewrite filter_filter. apply filter_ext. intros w.
      unfold touches. cbn [setHas existsb].
      rewrite (String.eqb_sym (sourceNodeId w) i),
              (String.eqb_sym (targetNodeId w) i).
      change (existsb (String.eqb (sourceNodeId w)) r)
        with (setHas (sourceNodeId w) r).
      change (existsb (String.eqb (targetNodeId w)) r)
        with (setHas (targetNodeId w) r).
      destruct (i =? sourceNodeId w), (i =? targetNodeId w),
               (setHas (sourceNodeId w) r), (setHas (targetNodeId w) r);
        reflexivity.
    + intros k. rewrite Hc. cbn [setHas existsb fnCache deleteNode set_fnCache].
      rewrite mapGet_mapDelete. rewrite (String.eqb_sym k i).
      change (existsb (String.eqb k) r) with (setHas k r).
      destruct (setHas k r); [now rewrite orb_true_r|].
      rewrite orb_false_r. reflexivity.
    + rewrite Hs. reflexivity.
Qed.

Lemma selection_saveState (e : CircuitEngine) :
  selectedNodeIds (saveState e) = selectedNodeIds e /\
  selectedWireIds (saveState e) = selectedWireIds e /\
  fnCache (saveState e) = fnCache e.
Proof.
  unfold saveState.
  destruct (isRestoringHistory e); [auto|].
  destruct (isTop _ _); auto.
Qed.

Lemma deleteSelected_exact (e : CircuitEngine) :
  let d := deleteSelected e in
  let sel := selectedNodeIds e in
  (forall k, mapGet k (nodes d)
             = if setHas k sel then None
               else option_map (ungrouped sel) (mapGet k (nodes e))) /\
  wires d
  = filter (fun w => negb (setHas (sourceNodeId w) sel)
                     && negb (setHas (targetNodeId w) sel)
                     && negb (setHas (wireId w) (selectedWireIds e)))
      (wires e) /\
  (forall k, mapGet k (fnCache d)
             = if setHas k sel then None else mapGet k (fnCache e)) /\
  selectedNodeIds d = [] /\
  selectedWireIds d = [].
Proof.
  cbv zeta. unfold deleteSelected.
  destruct (selection_saveState e) as (Hsn & Hsw & Hsc).
  pose proof (deleteNode_fold (selectedNodeIds e) (saveState e)) as Hfold.
  cbv zeta in Hfold. destruct Hfold as (Hn & Hw & Hc & Hs).
  rewrite nodes_saveState in Hn. rewrite wires_saveState in Hw.
  rewrite Hsc in Hc. rewrite Hsw in Hs.
  destruct (selectedNodeIds e) as [|i l] eqn:En;
    [destruct (selectedWireIds e) as [|j m] eqn:Ew|].
  - (* nothing selected: nothing happens *)
    repeat split; auto.
    + intros k. cbn [setHas existsb].
      destruct (mapGet k (nodes e)); simpl; now rewrite ?ungrouped_nil.
    + symmetry. apply filter_all. intros w _. reflexivity.
  - rewrite Hsn. change (fold_left _ [] (saveState e)) with (saveState e).
    rewrite Hsw. unfold triggerUpdate.
    cbn [nodes wires fnCache selectedNodeIds selectedWireIds
         set_selectedWireIds set_selectedNodeIds set_wires].
    rewrite nodes_saveState, wires_saveState, Hsc.
    split; [|split; [|split; [|split]]]; try reflexivity.
    intros k. cbn [setHas existsb].
    destruct (mapGet k (nodes e)); simpl; now rewrite ?ungrouped_nil.
  - rewrite Hsn.
    change (fold_left _ (i :: l) (saveState e))
      with (fold_left deleteNode (i :: l) (saveState e)).
    set (e2 := fold_left deleteNode (i :: l) (saveState e)) in *.
    unfold triggerUpdate. rewrite Hs.
    destruct (selectedWireIds e) as [|j m] eqn:Ew;
      cbn [nodes wires fnCache selectedNodeIds selectedWireIds
           set_selectedWireIds set_selectedNodeIds set_wires];
      repeat split; auto.
    + rewrite Hw. apply filter_ext. intros w.
      cbn [setHas existsb]. now rewrite andb_true_r.
    + rewrite Hw, filter_filter. reflexivity.
Qed.

(** X5. What [deleteSelected] removes, and nothing else: the selected nodes
    leave the node map and the function cache; the wires left are those that
    touch no selected node and are not selected themselves, in their old
    order; a remaining node that belonged to a deleted group is detached
    from it and is otherwise untouched; both selections end up empty. *)
Theorem X5_deleteSelected_exact (e : CircuitEngine) :
  let d := deleteSelected e in
  let sel := selectedNodeIds e in
  (forall k, mapGet k (nodes d)
             = if setHas k sel then None
               else option_map (ungrouped sel) (mapGet k (nodes e))) /\
  wires d
  = filter (fun w => negb (setHas (sourceNodeId w) sel)
                     && negb (setHas (targetNodeId w) sel)
                     && negb (setHas (wireId w) (selectedWireIds e)))
      (wires e) /\
  (forall k, mapGet k (fnCache d)
             = if setHas k sel then None else mapGet k (fnCache e)) /\
  selectedNodeIds d = [] /\
  selectedWireIds d = [].
Proof. apply deleteSelected_exact. Qed.

(** X6. [deleteSelected] keeps the wiring sound: when every wire has both
    its ends in the node map before the call, so has every wire after it. *)
Theorem X6_deleteSelected_keeps_wiring (e : CircuitEngine) :
  noDangling e = true -> noDangling (deleteSelected e) = true.
Proof. apply deleteSelected_noDangling. Qed.

Lemma X6_deleteSelected_keeps_wiring_witness :
  noDangling (deleteSelected demoSelected) = true.
Proof.
  apply X6_deleteSelected_keeps_wiring. vm_compute. reflexivity.
Defined.

(** X7. [packGroupToIC] keeps the wiring sound as well: the wires that
    touched a member of the packed group are dropped with the members, so no
    wire is left pointing at a node that is gone. *)
Theorem X7_packGroupToIC_keeps_wiring (e : CircuitEngine) :
  noDangling e = true -> noDangling (packGroupToIC e) = true.
Proof. apply packGroupToIC_noDangling. Qed.

Lemma X7_packGroupToIC_keeps_wiring_witness :
  noDangling (packGroupToIC demoGrouped) = true.
Proof.
  apply X7_packGroupToIC_keeps_wiring. vm_compute. reflexivity.
Defined.

(** ** Adding nodes *)

Lemma fill_newArray (n : nat) :
  fill false (newArray bool n) = repeat (Some false) n.
Proof.
  unfold fill, newArray. induction n as [|n IH]; simpl; [reflexivity|].
  now rewrite IH.
Qed.

(** X8. [addNode] without a template returns the id [generateId] drew and
    stores under it a node of the requested type and position whose pins
    are all [false], as many as [getInputCount] and [getOutputCount] give for
    the type, with every optional field absent. Every other node, the wires
    and the selection are left as they were. *)
Theorem X8_addNode_plain (t : NodeType) (pos : Vector2) (e : CircuitEngine) :
  let i := fst (addNode t pos None e) in
  let e' := snd (addNode t pos None e) in
  i = rng e (rngPos e) /\
  mapGet i (nodes e')
  = Some (plainNode i t pos (repeat (Some false) (getInputCount t None))
            (repeat (Some false) (getOutputCount t None))) /\
  (forall k, k <> i -> mapGet k (nodes e') = mapGet k (nodes e)) /\
  wires e' = wires e /\
  selectedNodeIds e' = selectedNodeIds e /\
  rngPos e' = S (rngPos e).
Proof.
  cbv zeta. unfold addNode, generateId, triggerUpdate.
  destruct (saveState_fields e) as (Hsel & Hr & Hp & _ & _).
  cbn [fst snd nodes wires selectedNodeIds rngPos set_nodes set_rngPos].
  rewrite Hr, Hp, Hsel, nodes_saveState, wires_saveState, !fill_newArray.
  repeat split.
  - apply mapGet_mapSet_same.
  - intros k Hk. apply mapGet_mapSet_other. congruence.
Qed.

(** ** Operations that checkpoint before and after *)


Lemma pasteNode_fold_fields (cn : list LogicNode) :
  forall (E : CircuitEngine) (im : JsMap string) (acc : list LogicNode),
    let R := fst (fst (fold_left pasteNode cn (E, im, acc))) in
    historyStack R = historyStack E /\
    maxHistory R = maxHistory E /\
    isRestoringHistory R = isRestoringHistory E /\
    nodes R = nodes E /\ wires R = wires E /\ viewport R = viewport E /\
    rng R = rng E /\ rngPos R = rngPos E + List.length cn.
Proof.
  induction cn as [|n r IH]; intros E im acc; simpl.
  - rewrite Nat.add_0_r. repeat split.
  - match goal with
    | |- context [fold_left pasteNode r (?E1, ?im1, ?acc1)] =>
        destruct (IH E1 im1 acc1) as (H1 & H2 & H3 & H4 & H5 & H6 & H7 & H8)
    end.
    simpl in *. rewrite H1, H2, H3, H4, H5, H6, H7, H8.
    repeat split; lia.
Qed.

Lemma pasteWire_fields (im : JsMap string) (E : CircuitEngine)
    (acc : list Wire) (w : Wire) :
  let R := fst (pasteWire im (E, acc) w) in
  historyStack R = historyStack E /\
  maxHistory R = maxHistory E /\
  isRestoringHistory R = isRestoringHistory E /\
  nodes R = nodes E /\ wires R = wires E /\ viewport R = viewport E /\
  rng R = rng E.
Proof.
  unfold pasteWire.
  destruct (mapGet (sourceNodeId w) im) as [s|];
    [destruct (mapGet (targetNodeId w) im) as [t|]|]; simpl; repeat split.
Qed.

Lemma pasteWire_fold_fields (im : JsMap string) (cw : list Wire) :
  forall (E : CircuitEngine) (acc : list Wire),
    let R := fst (fold_left (pasteWire im) cw (E, acc)) in
    historyStack R = historyStack E /\
    maxHistory R = maxHistory E /\
    isRestoringHistory R = isRestoringHistory E /\
    nodes R = nodes E /\ wires R = wires E /\ viewport R = viewport E /\
    rng R = rng E.
Proof.
  induction cw as [|w r IH]; intros E acc; cbn [fold_left].
  - repeat split.
  - pose proof (pasteWire_fields im E acc w) as Hw. cbv zeta in Hw.
    destruct (pasteWire im (E, acc) w) as [E1 acc1]. simpl in Hw.
    destruct Hw as (G1 & G2 & G3 & G4 & G5 & G6 & G7).
    destruct (IH E1 acc1) as (H1 & H2 & H3 & H4 & H5 & H6 & H7).
    cbv zeta. rewrite H1, H2, H3, H4, H5, H6, H7. repeat split; assumption.
Qed.

Lemma addPasted_fields (l : list LogicNode) :
  forall E : CircuitEngine,
    let R :=
      fold_left
        (fun acc n =>
           set_selectedNodeIds (setAdd (id n) (selectedNodeIds acc))
             (set_nodes (mapSet (id n) n (nodes acc)) acc)) l E in
    historyStack R = historyStack E /\
    maxHistory R = maxHistory E /\
    isRestoringHistory R = isRestoringHistory E /\
    wires R = wires E /\ viewport R = viewport E.
Proof.
  induction l as [|n r IH]; intros E; simpl.
  - repeat split.
  - match goal with
    | |- context [fold_left _ r ?E1] =>
        destruct (IH E1) as (H1 & H2 & H3 & H4 & H5)
    end.
    simpl in *. rewrite H1, H2, H3, H4, H5. repeat split.
Qed.

Lemma pasteNode_fold_eq (cn : list LogicNode) (E e2 : CircuitEngine)
    (im idMap : JsMap string) (acc newNodes : list LogicNode) :
  fold_left pasteNode cn (E, im, acc) = (e2, idMap, newNodes) ->
  historyStack e2 = historyStack E /\
  maxHistory e2 = maxHistory E /\
  isRestoringHistory e2 = isRestoringHistory E /\
  nodes e2 = nodes E /\ wires e2 = wires E /\ viewport e2 = viewport E /\
  rng e2 = rng E /\ rngPos e2 = rngPos E + List.length cn.
Proof.
  intros H. pose proof (pasteNode_fold_fields cn E im acc) as Hn.
  cbv zeta in Hn. rewrite H in Hn. exact Hn.
Qed.

Lemma pasteWire_fold_eq (im : JsMap string) (cw : list Wire)
    (E e3 : CircuitEngine) (acc newWires : list Wire) :
  fold_left (pasteWire im) cw (E, acc) = (e3, newWires) ->
  historyStack e3 = historyStack E /\
  maxHistory e3 = maxHistory E /\
  isRestoringHistory e3 = isRestoringHistory E /\
  nodes e3 = nodes E /\ wires e3 = wires E /\ viewport e3 = viewport E /\
  rng e3 = rng E.
Proof.
  intros H. pose proof (pasteWire_fold_fields im cw E acc) as Hn.
  cbv zeta in Hn. rewrite H in Hn. exact Hn.
Qed.





(** ** What [paste] inserts *)

Lemma pasteNode_fold_new (cn : list LogicNode) :
  forall (E : CircuitEngine) (im : JsMap string) (acc : list LogicNode),
    snd (fold_left pasteNode cn (E, im, acc))
    = acc ++ map (fun kn => pasted (rng E (fst kn)) (snd kn))
               (combine (seq (rngPos E) (List.length cn)) cn).
Proof.
  induction cn as [|n r IH]; intros E im acc; simpl.
  - now rewrite app_nil_r.
  - rewrite IH. simpl. rewrite <- app_assoc. reflexivity.
Qed.

Lemma pasteNode_fold_idMap (cn : list LogicNode) :
  forall (E : CircuitEngine) (im : JsMap string) (acc : list LogicNode)
         (k v : string),
    mapGet k (snd (fst (fold_left pasteNode cn (E, im, acc)))) = Some v ->
    In v (drawn (rng E) (rngPos E) (List.length cn)) \/ mapGet k im = Some v.
Proof.
  induction cn as [|n r IH]; intros E im acc k v H; simpl in *.
  - now right.
  - apply IH in H. simpl in H. destruct H as [H|H].
    + left. right. exact H.
    + destruct (String.eqb_spec (id n) k) as [Heq|Hne].
      * subst k. rewrite mapGet_mapSet_same in H. inversion H. left. now left.
      * rewrite mapGet_mapSet_other in H by assumption. now right.
Qed.

Lemma pasteWire_fold_new (im : JsMap string) (ids : list string)
    (cw : list Wire) :
  (forall k v, mapGet k im = Some v -> In v ids) ->
  forall (E : CircuitEngine) (acc : list Wire),
    Forall (fun w => In (sourceNodeId w) ids /\ In (targetNodeId w) ids) acc ->
    Forall (fun w => In (sourceNodeId w) ids /\ In (targetNodeId w) ids)
      (snd (fold_left (pasteWire im) cw (E, acc))).
Proof.
  intros Him. induction cw as [|w r IH]; intros E acc Hacc; cbn [fold_left].
  - exact Hacc.
  - unfold pasteWire at 2.
    destruct (mapGet (sourceNodeId w) im) as [s|] eqn:Hs;
      [destruct (mapGet (targetNodeId w) im) as [t|] eqn:Ht|];
      try (apply IH; exact Hacc).
    simpl. apply IH. apply Forall_app. split; [exact Hacc|].
    constructor; [|constructor]. simpl. split; eapply Him; eauto.
Qed.

Lemma addPasted_nodes (l : list LogicNode) :
  forall E : CircuitEngine,
    NoDup (selectedNodeIds E ++ map id l) ->
    NoDup (map id l) ->
    (forall n, In n l -> mapGet (id n) (nodes E) = None) ->
    let R :=
      fold_left
        (fun acc n =>
           set_selectedNodeIds (setAdd (id n) (selectedNodeIds acc))
             (set_nodes (mapSet (id n) n (nodes acc)) acc)) l E in
    nodes R = nodes E ++ map (fun n => (id n, n)) l /\
    selectedNodeIds R = selectedNodeIds E ++ map id l.
Proof.
  induction l as [|n r IH]; intros E Hsel Hnd Hfresh; simpl.
  - now rewrite !app_nil_r.
  - inversion Hnd as [|? ? Hn Hr]; subst.
    assert (Hnot : setHas (id n) (selectedNodeIds E) = false).
    { unfold setHas. apply not_true_is_false. intros Hex.
      apply existsb_exists in Hex. destruct Hex as (x & Hx & Heq).
      apply String.eqb_eq in Heq. subst x.
      apply NoDup_remove_2 in Hsel. apply Hsel. apply in_or_app. now left. }
    match goal with
    | |- context [fold_left _ r ?E1] => destruct (IH E1) as [H1 H2]
    end.
    + cbn [selectedNodeIds set_selectedNodeIds set_nodes]. unfold setAdd.
      rewrite Hnot, <- app_assoc. exact Hsel.
    + exact Hr.
    + intros m Hm. cbn [nodes set_selectedNodeIds set_nodes].
      rewrite mapGet_mapSet_other; [apply Hfresh; now right|].
      intros Heq. apply Hn. rewrite Heq. now apply in_map.
    + cbv zeta. rewrite H1, H2.
      cbn [nodes selectedNodeIds set_selectedNodeIds set_nodes].
      unfold setAdd. rewrite Hnot.
      rewrite mapSet_fresh by (apply Hfresh; now left).
      now rewrite <- !app_assoc.
Qed.

Lemma pasteNode_fold_new_eq (cn : list LogicNode) (E e2 : CircuitEngine)
    (im idMap : JsMap string) (acc newNodes : list LogicNode) :
  fold_left pasteNode cn (E, im, acc) = (e2, idMap, newNodes) ->
  newNodes
  = acc ++ map (fun kn => pasted (rng E (fst kn)) (snd kn))
             (combine (seq (rngPos E) (List.length cn)) cn) /\
  (forall k v, mapGet k idMap = Some v ->
     In v (drawn (rng E) (rngPos E) (List.length cn)) \/ mapGet k im = Some v).
Proof.
  intros H. split.
  - rewrite <- (pasteNode_fold_new cn E im acc). now rewrite H.
  - intros k v Hk. apply (pasteNode_fold_idMap cn E im acc). now rewrite H.
Qed.

Lemma pasteWire_fold_new_eq (im : JsMap string) (ids : list string)
    (cw : list Wire) (E e3 : CircuitEngine) (acc newWires : list Wire) :
  fold_left (pasteWire im) cw (E, acc) = (e3, newWires) ->
  (forall k v, mapGet k im = Some v -> In v ids) ->
  Forall (fun w => In (sourceNodeId w) ids /\ In (targetNodeId w) ids) acc ->
  Forall (fun w => In (sourceNodeId w) ids /\ In (targetNodeId w) ids) newWires.
Proof.
  intros H Him Hacc.
  pose proof (pasteWire_fold_new im ids cw Him E acc Hacc) as Hw.
  now rewrite H in Hw.
Qed.

Lemma combine_seq_ids (r : nat -> string) (cn : list LogicNode) :
  forall k,
    map id (map (fun kn => pasted (r (fst kn)) (snd kn))
              (combine (seq k (List.length cn)) cn))
    = drawn r k (List.length cn).
Proof.
  unfold drawn. induction cn as [|n rest IH]; intros k; simpl; [reflexivity|].
  now rewrite IH.
Qed.

(** X10. What [paste] inserts. With a clipboard of nodes [cn] and fresh,
    distinct ids from [generateId], [paste] appends to the node map one copy
    per clipboard node, in clipboard order: under its new id, moved by
    (20, 20), and outside any group, even when its group was copied along.
    The new nodes become the selection, the old nodes and wires stay, and
    every wire added joins two of the new nodes. *)
Theorem X10_paste_inserts (e : CircuitEngine) (cn : list LogicNode)
    (cw : list Wire) :
  clipboard e = Some (cn, cw) ->
  NoDup (drawn (rng e) (rngPos e) (List.length cn)) ->
  (forall k, In k (drawn (rng e) (rngPos e) (List.length cn)) ->
     mapGet k (nodes e) = None) ->
  nodes (paste e)
  = nodes e
    ++ map (fun kn => (rng e (fst kn), pasted (rng e (fst kn)) (snd kn)))
         (combine (seq (rngPos e) (List.length cn)) cn) /\
  selectedNodeIds (paste e) = drawn (rng e) (rngPos e) (List.length cn) /\
  exists newWires,
    wires (paste e) = wires e ++ newWires /\
    Forall (fun w =>
              In (sourceNodeId w) (drawn (rng e) (rngPos e) (List.length cn))
              /\ In (targetNodeId w)
                   (drawn (rng e) (rngPos e) (List.length cn))) newWires.
Proof.
  intros Hc Hnd Hfresh. unfold paste. rewrite Hc.
  destruct (saveState_fields e) as (_ & Hr & Hp & _ & _).
  destruct (fold_left pasteNode cn (saveState e, [], []))
    as [[e2 idMap] newNodes] eqn:E2.
  destruct (pasteNode_fold_eq _ _ _ _ _ _ _ E2)
    as (_ & _ & _ & N4 & N5 & _ & N7 & _).
  destruct (pasteNode_fold_new_eq _ _ _ _ _ _ _ E2) as [Hnew Hmap].
  rewrite Hr, Hp in Hnew, Hmap. cbn [app] in Hnew.
  destruct (fold_left (pasteWire idMap) cw (e2, [])) as [e3 newWires] eqn:E3.
  destruct (pasteWire_fold_eq _ _ _ _ _ _ E3) as (_ & _ & _ & W4 & W5 & _).
  assert (Hws : Forall (fun w =>
              In (sourceNodeId w) (drawn (rng e) (rngPos e) (List.length cn))
              /\ In (targetNodeId w)
                   (drawn (rng e) (rngPos e) (List.length cn))) newWires).
  { apply (pasteWire_fold_new_eq idMap _ cw e2 e3 [] newWires E3).
    - intros k v Hk. destruct (Hmap k v Hk) as [H|H]; [exact H|discriminate].
    - constructor. }
  assert (Hids : map id newNodes = drawn (rng e) (rngPos e) (List.length cn)).
  { rewrite Hnew. apply combine_seq_ids. }
  pose proof (addPasted_nodes newNodes (set_selectedNodeIds [] e3)) as Ha.
  cbv zeta in Ha. destruct Ha as [A1 A2].
  - cbn [selectedNodeIds set_selectedNodeIds app]. now rewrite Hids.
  - now rewrite Hids.
  - intros n Hn. cbn [nodes set_selectedNodeIds].
    rewrite W4, N4, nodes_saveState. apply Hfresh.
    rewrite <- Hids. now apply in_map.
  - pose proof (addPasted_fields newNodes (set_selectedNodeIds [] e3)) as Hf.
    cbv zeta in Hf. destruct Hf as (_ & _ & _ & F4 & _).
    unfold triggerUpdate.
    rewrite nodes_saveState, wires_saveState.
    destruct (selection_saveState
                (set_wires
                   (wires (fold_left
                      (fun acc n =>
                         set_selectedNodeIds
                           (setAdd (id n) (selectedNodeIds acc))
                           (set_nodes (mapSet (id n) n (nodes acc)) acc))
                      newNodes (set_selectedNodeIds [] e3)) ++ newWires)
                   (fold_left
                      (fun acc n =>
                         set_selectedNodeIds
                           (setAdd (id n) (selectedNodeIds acc))
                           (set_nodes (mapSet (id n) n (nodes acc)) acc))
                      newNodes (set_selectedNodeIds [] e3))))
      as (Hs1 & _).
    rewrite Hs1.
    cbn [nodes wires selectedNodeIds set_wires].
    rewrite A1, A2, F4.
    cbn [nodes wires selectedNodeIds set_selectedNodeIds app].
    rewrite W4, W5, N4, N5, nodes_saveState, wires_saveState, Hids.
    split; [|split; [reflexivity|]].
    + f_equal. rewrite Hnew, map_map. reflexivity.
    + exists newWires. split; [reflexivity | exact Hws].
Qed.

Lemma X10_paste_inserts_witness :
  nodes (paste demoCopied)
  = nodes demoCopied
    ++ map (fun kn => (rng demoCopied (fst kn),
                       pasted (rng demoCopied (fst kn)) (snd kn)))
         (combine (seq (rngPos demoCopied)
                     (List.length (clipNodes demoCopied)))
            (clipNodes demoCopied)) /\
  selectedNodeIds (paste demoCopied)
  = drawn (rng demoCopied) (rngPos demoCopied)
      (List.length (clipNodes demoCopied)) /\
  exists newWires,
    wires (paste demoCopied) = wires demoCopied ++ newWires /\
    Forall (fun w =>
              In (sourceNodeId w)
                (drawn (rng demoCopied) (rngPos demoCopied)
                   (List.length (clipNodes demoCopied)))
              /\ In (targetNodeId w)
                   (drawn (rng demoCopied) (rngPos demoCopied)
                      (List.length (clipNodes demoCopied)))) newWires.
Proof.
  apply (X10_paste_inserts demoCopied (clipNodes demoCopied)
           (clipWires demoCopied)).
  - vm_compute. reflexivity.
  - apply distinct_NoDup. vm_compute. reflexivity.
  - apply Forall_forall. vm_compute.
    repeat (apply Forall_cons; [reflexivity|]). apply Forall_nil.
Defined.

(** ** Cut *)

Lemma clipboard_saveState (e : CircuitEngine) :
  clipboard (saveState e) = clipboard e.
Proof.
  unfold saveState.
  destruct (isRestoringHistory e); [reflexivity|].
  destruct (isTop _ _); reflexivity.
Qed.

Lemma clipboard_deleteSelected (e : CircuitEngine) :
  clipboard (deleteSelected e) = clipboard e.
Proof.
  assert (Hfold : forall (l : list string) (x : CircuitEngine),
            clipboard (fold_left deleteNode l x) = clipboard x).
  { induction l as [|i l IH]; intros x; cbn [fold_left]; [reflexivity|].
    rewrite IH. reflexivity. }
  unfold deleteSelected, triggerUpdate.
  destruct (selectedNodeIds e) as [|i l] eqn:Hn,
           (selectedWireIds e) as [|j m] eqn:Hw; try reflexivity;
    cbv zeta;
    match goal with
    | |- context [match selectedWireIds ?x with _ => _ end] =>
        destruct (selectedWireIds x)
    end;
    cbn [clipboard set_selectedWireIds set_selectedNodeIds set_wires];
    (etransitivity; [apply Hfold | apply clipboard_saveState]).
Qed.

Lemma copied_nodes (ns : JsMap LogicNode) (sel : list string) :
  flat_map (fun i => match mapGet i ns with
                     | Some n => [cloneNode n]
                     | None => []
                     end) sel
  = map cloneNode
      (flat_map (fun i => match mapGet i ns with
                          | Some n => [n]
                          | None => []
                          end) sel).
Proof.
  induction sel as [|i r IH]; simpl; [reflexivity|].
  rewrite map_app, IH. destruct (mapGet i ns); reflexivity.
Qed.

(** X11. [cut] puts on the clipboard what it removes. With nodes selected,
    the clipboard afterwards holds the deep clones ([cloneNode]) of the
    selected nodes that exist, in selection order, and the wires that ran
    between selected nodes, taken before the cut, and the graph is the one
    [deleteSelected] leaves. With only wires selected, the wires are
    deleted and the clipboard keeps its old content. *)
Theorem X11_cut (e : CircuitEngine) :
  let sel := selectedNodeIds e in
  clipboard (cut e)
  = match sel with
    | [] => clipboard e
    | _ =>
        Some (map cloneNode (selectedNodes e),
              filter (fun w => setHas (sourceNodeId w) sel
                               && setHas (targetNodeId w) sel) (wires e))
    end /\
  (forall k, mapGet k (nodes (cut e))
             = if setHas k sel then None
               else option_map (ungrouped sel) (mapGet k (nodes e))) /\
  wires (cut e)
  = filter (fun w => negb (setHas (sourceNodeId w) sel)
                     && negb (setHas (targetNodeId w) sel)
                     && negb (setHas (wireId w) (selectedWireIds e)))
      (wires e).
Proof.
  cbv zeta. unfold cut.
  pose proof (deleteSelected_exact (copy e)) as Hd. cbv zeta in Hd.
  destruct Hd as (Hn & Hw & _).
  rewrite clipboard_deleteSelected.
  assert (Hc : nodes (copy e) = nodes e /\ wires (copy e) = wires e /\
               selectedNodeIds (copy e) = selectedNodeIds e /\
               selectedWireIds (copy e) = selectedWireIds e).
  { unfold copy. destruct (selectedNodeIds e) eqn:Es; repeat split;
      simpl; auto. }
  destruct Hc as (C1 & C2 & C3 & C4).
  rewrite C1, C3 in Hn. rewrite C2, C3, C4 in Hw.
  split; [|split; assumption].
  unfold copy, selectedNodes.
  destruct (selectedNodeIds e) as [|i r]; [reflexivity|].
  cbn [clipboard set_clipboard]. now rewrite copied_nodes.
Qed.

(** ** Duplicating the selection *)

Lemma duplicateNode_fold (sel : list string) :
  forall (E : CircuitEngine) (im : JsMap string) (acc : list LogicNode),
    let R := fold_left duplicateNode sel (E, im, acc) in
    let pairs := dupPairs (rng E) (nodes E) (rngPos E) sel in
    nodes (fst (fst R)) = nodes E /\
    wires (fst (fst R)) = wires E /\
    rng (fst (fst R)) = rng E /\
    historyStack (fst (fst R)) = historyStack E /\
    snd (fst R) = fold_left (fun m kv => mapSet (fst kv) (snd kv) m) pairs im /\
    snd R = acc ++ map (fun kv => rawDuplicate (snd kv) (nodeAt (fst kv) E))
                   pairs.
Proof.
  induction sel as [|i rest IH]; intros E im acc; cbn [fold_left dupPairs].
  - cbv zeta. cbn [fst snd map fold_left]. rewrite app_nil_r. repeat split.
  - unfold duplicateNode at 2 4 6 8 10 12. unfold mapHas.
    destruct (mapGet i (nodes E)) as [n|] eqn:Hi.
    + unfold generateId.
      specialize (IH (set_rngPos (S (rngPos E)) E) (mapSet i (rng E (rngPos E)) im)
                    (acc ++ [rawDuplicate (rng E (rngPos E)) n])).
      cbv zeta in IH |- *.
      cbn [nodes wires rng rngPos historyStack set_rngPos] in IH.
      destruct IH as (H1 & H2 & H3 & H4 & H5 & H6).
      fold (rawDuplicate (rng E (rngPos E)) n).
      rewrite H1, H2, H3, H4, H5, H6. repeat split.
      rewrite <- app_assoc. cbn [map fst snd app]. unfold nodeAt at 2.
      rewrite Hi. repeat f_equal.
    + apply IH.
Qed.

Lemma duplicateNode_fold_eq (sel : list string) (E e2 : CircuitEngine)
    (im idMap : JsMap string) (acc newNodes : list LogicNode) :
  fold_left duplicateNode sel (E, im, acc) = (e2, idMap, newNodes) ->
  nodes e2 = nodes E /\
  wires e2 = wires E /\
  rng e2 = rng E /\
  historyStack e2 = historyStack E /\
  idMap = fold_left (fun m kv => mapSet (fst kv) (snd kv) m)
            (dupPairs (rng E) (nodes E) (rngPos E) sel) im /\
  newNodes
  = acc ++ map (fun kv => rawDuplicate (snd kv) (nodeAt (fst kv) E))
             (dupPairs (rng E) (nodes E) (rngPos E) sel).
Proof.
  intros H. pose proof (duplicateNode_fold sel E im acc) as Hn.
  cbv zeta in Hn. rewrite H in Hn. exact Hn.
Qed.

Lemma duplicateWire_fields (im : JsMap string) (E : CircuitEngine)
    (acc : list Wire) (w : Wire) :
  let R := fst (duplicateWire im (E, acc) w) in
  historyStack R = historyStack E /\
  nodes R = nodes E /\ wires R = wires E /\
  selectedNodeIds R = selectedNodeIds E.
Proof.
  unfold duplicateWire.
  destruct (mapGet (sourceNodeId w) im) as [s|];
    [destruct (mapGet (targetNodeId w) im) as [t|]|]; simpl; repeat split.
Qed.

Lemma duplicateWire_fold_eq (im : JsMap string) (ws : list Wire) :
  forall (E e3 : CircuitEngine) (acc newWires : list Wire),
    fold_left (duplicateWire im) ws (E, acc) = (e3, newWires) ->
    historyStack e3 = historyStack E /\
    nodes e3 = nodes E /\ wires e3 = wires E.
Proof.
  induction ws as [|w r IH]; intros E e3 acc newWires H; cbn [fold_left] in H.
  - inversion H. repeat split.
  - pose proof (duplicateWire_fields im E acc w) as Hw. cbv zeta in Hw.
    destruct (duplicateWire im (E, acc) w) as [E1 acc1]. simpl in Hw.
    destruct Hw as (G1 & G2 & G3 & _).
    destruct (IH _ _ _ _ H) as (H1 & H2 & H3).
    rewrite H1, H2, H3. repeat split; assumption.
Qed.

Lemma fold_left_map A B C (F : A -> B -> A) (g : C -> B) (l : list C) :
  forall a, fold_left (fun acc x => F acc (g x)) l a = fold_left F (map g l) a.
Proof. induction l as [|x r IH]; intros a; simpl; auto. Qed.

Lemma id_relinkGroup (im : JsMap string) (n : LogicNode) :
  id (relinkGroup im n) = id n.
Proof.
  unfold relinkGroup. destruct (strTruthy (groupId n)); [|reflexivity].
  destruct (groupId n) as [g|]; [|reflexivity].
  destruct (mapGet g im); reflexivity.
Qed.

Lemma keys_dupPairs (r : nat -> string) (ns : JsMap LogicNode)
    (sel : list string) :
  forall k, NoDup sel -> NoDup (map fst (dupPairs r ns k sel)) /\
            forall i, In i (map fst (dupPairs r ns k sel)) -> In i sel.
Proof.
  induction sel as [|i rest IH]; intros k Hnd; simpl.
  - split; [constructor | tauto].
  - inversion Hnd as [|? ? Hi Hr]; subst.
    destruct (mapHas i ns); simpl.
    + destruct (IH (S k) Hr) as [H1 H2]. split.
      * constructor; [|exact H1]. intros Hin. apply Hi. now apply H2 in Hin.
      * intros j [->|Hj]; [now left | right; now apply H2 in Hj].
    + destruct (IH k Hr) as [H1 H2]. split; [exact H1|].
      intros j Hj. right. now apply H2 in Hj.
Qed.

Lemma duplicateSelected_result (e : CircuitEngine) :
  NoDup (selectedNodeIds e) ->
  NoDup (map snd (dupPairs (rng e) (nodes e) (rngPos e) (selectedNodeIds e))) ->
  (forall k,
     In k (map snd (dupPairs (rng e) (nodes e) (rngPos e) (selectedNodeIds e))) ->
     mapGet k (nodes e) = None) ->
  nodes (duplicateSelected e)
  = nodes e
    ++ map (fun kv =>
              (snd kv,
               relinkGroup
                 (dupPairs (rng e) (nodes e) (rngPos e) (selectedNodeIds e))
                 (rawDuplicate (snd kv) (nodeAt (fst kv) e))))
         (dupPairs (rng e) (nodes e) (rngPos e) (selectedNodeIds e)) /\
  selectedNodeIds (duplicateSelected e)
  = map snd (dupPairs (rng e) (nodes e) (rngPos e) (selectedNodeIds e)) /\
  exists newWires, wires (duplicateSelected e) = wires e ++ newWires.
Proof.
  intros Hsel Hnd Hfresh. unfold duplicateSelected.
  destruct (selectedNodeIds e) as [|i0 l0] eqn:Es.
  - simpl. rewrite app_nil_r. repeat split; [exact Es|].
    exists []. now rewrite app_nil_r.
  - rewrite <- Es in *. clear Es i0 l0.
    destruct (saveState_fields e) as (_ & Hr & Hp & _ & _).
    destruct (fold_left duplicateNode (selectedNodeIds e) (saveState e, [], []))
      as [[e2 idMap] newNodes] eqn:E2.
    destruct (duplicateNode_fold_eq _ _ _ _ _ _ _ E2)
      as (N1 & N2 & N3 & _ & N5 & N6).
    rewrite Hr, Hp, nodes_saveState in N5, N6. rewrite nodes_saveState in N1.
    rewrite wires_saveState in N2. cbn [app] in N6.
    set (pairs := dupPairs (rng e) (nodes e) (rngPos e) (selectedNodeIds e)) in *.
    assert (Hmap : idMap = pairs).
    { rewrite N5. rewrite fold_mapSet_fresh; [reflexivity| |reflexivity].
      apply (keys_dupPairs (rng e) (nodes e) (selectedNodeIds e) (rngPos e) Hsel). }
    clear N5. subst idMap.
    destruct (fold_left (duplicateWire pairs) (wires e2) (e2, []))
      as [e3 newWires] eqn:E3.
    destruct (duplicateWire_fold_eq _ _ _ _ _ _ E3) as (_ & W2 & W3).
    cbv zeta.
    rewrite fold_left_map
      with (F := fun acc n1 =>
                   set_selectedNodeIds (setAdd (id n1) (selectedNodeIds acc))
                     (set_nodes (mapSet (id n1) n1 (nodes acc)) acc))
           (g := relinkGroup pairs).
    set (clones := map (relinkGroup pairs) newNodes).
    assert (Hids : map id clones = map snd pairs).
    { unfold clones. rewrite N6, !map_map. apply map_ext.
      intros kv. now rewrite id_relinkGroup. }
    pose proof (addPasted_nodes clones (set_selectedNodeIds [] e3)) as Ha.
    cbv zeta in Ha. destruct Ha as [A1 A2].
    + cbn [selectedNodeIds set_selectedNodeIds app]. now rewrite Hids.
    + now rewrite Hids.
    + intros n Hn. cbn [nodes set_selectedNodeIds].
      rewrite W2, N1. apply Hfresh. rewrite <- Hids. now apply in_map.
    + pose proof (addPasted_fields clones (set_selectedNodeIds [] e3)) as Hf.
      cbv zeta in Hf. destruct Hf as (_ & _ & _ & F4 & _).
      unfold triggerUpdate. cbn [nodes wires selectedNodeIds set_wires].
      rewrite A1, A2, F4.
      cbn [nodes wires selectedNodeIds set_selectedNodeIds app].
      rewrite W2, W3, N1, N2, Hids.
      split; [|split; [reflexivity | eexists; reflexivity]].
      f_equal. unfold clones. rewrite N6, !map_map. apply map_ext.
      intros kv. cbn [fst snd]. unfold nodeAt.
      now rewrite id_relinkGroup, nodes_saveState.
Qed.

Lemma mapGet_by_value V (G : string * string -> V) (pairs : JsMap string)
    (i i' : string) :
  NoDup (map snd pairs) ->
  In (i, i') pairs ->
  mapGet i' (map (fun kv => (snd kv, G kv)) pairs) = Some (G (i, i')).
Proof.
  induction pairs as [|[a b] r IH]; intros Hnd Hin; [easy|].
  simpl in *. inversion Hnd as [|? ? Hb Hr]; subst.
  destruct Hin as [Heq|Hin].
  - inversion Heq; subst. now rewrite String.eqb_refl.
  - destruct (String.eqb_spec b i') as [->|Hne].
    + exfalso. apply Hb. change i' with (snd (i, i')). now apply in_map.
    + now apply IH.
Qed.

Lemma relinkGroup_fields (pairs : JsMap string) (n : LogicNode) :
  type (relinkGroup pairs n) = type n /\
  position (relinkGroup pairs n) = position n /\
  inputs (relinkGroup pairs n) = inputs n /\
  outputs (relinkGroup pairs n) = outputs n /\
  groupId (relinkGroup pairs n) = duplicateGroup pairs n.
Proof.
  unfold relinkGroup, duplicateGroup, strTruthy.
  destruct (groupId n) as [g|] eqn:Hg; [|now rewrite Hg].
  destruct (g =? ""); simpl; [now rewrite Hg|].
  destruct (mapGet g pairs); repeat split.
Qed.

Lemma rawDuplicate_fields (newId : string) (n : LogicNode) :
  id (rawDuplicate newId n) = newId /\
  type (rawDuplicate newId n) = type n /\
  position (rawDuplicate newId n)
  = mkVector2 (px (position n) + 20) (py (position n) + 20) /\
  inputs (rawDuplicate newId n)
  = repeat (Some false) (List.length (inputs n)) /\
  outputs (rawDuplicate newId n)
  = repeat (Some false) (List.length (outputs n)) /\
  groupId (rawDuplicate newId n) = groupId n.
Proof.
  unfold rawDuplicate. rewrite !fill_newArray. destruct n. repeat split.
Qed.

(** X12. What [duplicateSelected] makes of a selected node. With the
    selection free of repeats and fresh, distinct ids from [generateId], the
    duplicate of a selected node sits under its new id with the type of the
    original, moved by (20, 20), with as many input and output pins, all
    [false]; it belongs to the duplicate of the original's group when that
    group was duplicated too, and to no group otherwise. The original stays
    as it was, and the duplicates become the selection. *)
Theorem X12_duplicate (e : CircuitEngine) (i i' : string) (n : LogicNode) :
  NoDup (selectedNodeIds e) ->
  NoDup (map snd (dupPairs (rng e) (nodes e) (rngPos e) (selectedNodeIds e))) ->
  (forall k,
     In k (map snd (dupPairs (rng e) (nodes e) (rngPos e) (selectedNodeIds e))) ->
     mapGet k (nodes e) = None) ->
  mapGet i (dupPairs (rng e) (nodes e) (rngPos e) (selectedNodeIds e))
  = Some i' ->
  mapGet i (nodes e) = Some n ->
  (exists c,
     mapGet i' (nodes (duplicateSelected e)) = Some c /\
     id c = i' /\
     type c = type n /\
     position c = mkVector2 (px (position n) + 20) (py (position n) + 20) /\
     inputs c = repeat (Some false) (List.length (inputs n)) /\
     outputs c = repeat (Some false) (List.length (outputs n)) /\
     groupId c
     = duplicateGroup
         (dupPairs (rng e) (nodes e) (rngPos e) (selectedNodeIds e)) n) /\
  mapGet i (nodes (duplicateSelected e)) = Some n /\
  selectedNodeIds (duplicateSelected e)
  = map snd (dupPairs (rng e) (nodes e) (rngPos e) (selectedNodeIds e)).
Proof.
  intros Hsel Hnd Hfresh Hp Hi.
  destruct (duplicateSelected_result e Hsel Hnd Hfresh) as (Hn & Hs & _).
  set (pairs := dupPairs (rng e) (nodes e) (rngPos e) (selectedNodeIds e)) in *.
  apply mapGet_In in Hp.
  assert (Hi' : In i' (map snd pairs)).
  { change i' with (snd (i, i')). now apply in_map. }
  split; [|split; [|exact Hs]].
  - exists (relinkGroup pairs (rawDuplicate i' n)).
    destruct (relinkGroup_fields pairs (rawDuplicate i' n))
      as (R1 & R2 & R3 & R4 & R5).
    destruct (rawDuplicate_fields i' n) as (D0 & D1 & D2 & D3 & D4 & D5).
    rewrite id_relinkGroup, R1, R2, R3, R4, R5, D0, D1, D2, D3, D4.
    repeat split.
    rewrite Hn, mapGet_app, (Hfresh i' Hi').
    rewrite (mapGet_by_value _
               (fun kv => relinkGroup pairs
                            (rawDuplicate (snd kv) (nodeAt (fst kv) e)))
               pairs i i' Hnd Hp).
    cbn [fst snd]. unfold nodeAt. now rewrite Hi.
  - rewrite Hn, mapGet_app, Hi. reflexivity.
Qed.

Lemma X12_duplicate_witness :
  (exists c,
     mapGet "n9" (nodes (duplicateSelected demoGrouped)) = Some c /\
     id c = "n9" /\
     type c = type (nodeAt "n0" demoGrouped) /\
     position c
     = mkVector2 (px (position (nodeAt "n0" demoGrouped)) + 20)
         (py (position (nodeAt "n0" demoGrouped)) + 20) /\
     inputs c
     = repeat (Some false) (List.length (inputs (nodeAt "n0" demoGrouped))) /\
     outputs c
     = repeat (Some false) (List.length (outputs (nodeAt "n0" demoGrouped))) /\
     groupId c
     = duplicateGroup
         (dupPairs (rng demoGrouped) (nodes demoGrouped) (rngPos demoGrouped)
            (selectedNodeIds demoGrouped))
         (nodeAt "n0" demoGrouped)) /\
  mapGet "n0" (nodes (duplicateSelected demoGrouped))
  = Some (nodeAt "n0" demoGrouped) /\
  selectedNodeIds (duplicateSelected demoGrouped)
  = map snd (dupPairs (rng demoGrouped) (nodes demoGrouped)
               (rngPos demoGrouped) (selectedNodeIds demoGrouped)).
Proof.
  apply (X12_duplicate demoGrouped "n0" "n9" (nodeAt "n0" demoGrouped)).
  - apply distinct_NoDup. vm_compute. reflexivity.
  - apply distinct_NoDup. vm_compute. reflexivity.
  - apply Forall_forall. vm_compute.
    repeat (apply Forall_cons; [reflexivity|]). apply Forall_nil.
  - vm_compute. reflexivity.
  - vm_compute. reflexivity.
Defined.

(** ** Grouping and ungrouping *)

Lemma map_same A (f : A -> A) (l : list A) :
  (forall x, In x l -> f x = x) -> map f l = l.
Proof.
  intros H. rewrite <- (map_id l) at 2. now apply map_ext_in.
Qed.

Lemma mapSet_as_map V (i : string) (v : V) (m : JsMap V) :
  NoDup (map fst m) ->
  mapGet i m <> None ->
  mapSet i v m = map (fun kv => if fst kv =? i then (fst kv, v) else kv) m.
Proof.
  induction m as [|[k x] r IH]; intros Hnd Hin; simpl in *; [congruence|].
  inversion Hnd as [|? ? Hk Hr]; subst.
  destruct (String.eqb_spec k i) as [->|Hne].
  - f_equal. symmetry. apply map_same.
    intros [k' x'] Hin'. simpl.
    destruct (String.eqb_spec k' i) as [->|]; [|reflexivity].
    exfalso. apply Hk. change i with (fst (i, x')). now apply in_map.
  - f_equal. now apply IH.
Qed.

Lemma joinGroup_as_map (g i : string) (m : JsMap LogicNode) :
  NoDup (map fst m) ->
  joinGroup g m i = map (joined g [i]) m.
Proof.
  intros Hnd. unfold joinGroup.
  destruct (mapGet i m) as [n|] eqn:Hi.
  - assert (Hsame : forall kv, In kv m -> (fst kv =? i) = true -> snd kv = n).
    { intros [k x] Hin Hk. simpl in *. apply String.eqb_eq in Hk. subst k.
      apply mapGet_In in Hi. exact (NoDup_keys_unique _ _ _ _ _ Hnd Hin Hi). }
    destruct (isType GROUP n) eqn:Hg.
    + symmetry. apply map_same. intros kv Hin.
      unfold joined. cbn [setHas existsb]. rewrite orb_false_r.
      destruct (fst kv =? i) eqn:Hk; [|reflexivity].
      rewrite (Hsame kv Hin Hk), Hg. reflexivity.
    + rewrite mapSet_as_map by (assumption || congruence).
      apply map_ext_in. intros kv Hin.
      unfold joined. cbn [setHas existsb]. rewrite orb_false_r.
      destruct (fst kv =? i) eqn:Hk; [|reflexivity].
      rewrite (Hsame kv Hin Hk), Hg. reflexivity.
  - symmetry. apply map_same. intros [k x] Hin.
    unfold joined. cbn [setHas existsb fst snd]. rewrite orb_false_r.
    destruct (String.eqb_spec k i) as [->|]; [|reflexivity].
    apply mapGet_None_iff in Hi. exfalso. apply Hi.
    change i with (fst (i, x)). now apply in_map.
Qed.

Lemma joined_twice (g i : string) (sel : JsSet) (kv : string * LogicNode) :
  joined g sel (joined g [i] kv) = joined g (i :: sel) kv.
Proof.
  destruct kv as [k n]. unfold joined, isType, setHas.
  cbn [fst snd existsb]. rewrite orb_false_r.
  destruct (k =? i) eqn:Hk, (NodeType_eqb (type n) GROUP) eqn:Hg,
           (existsb (String.eqb k) sel) eqn:Hs;
    cbn [fst snd negb andb orb type set_groupId];
    rewrite ?Hg, ?Hs; reflexivity.
Qed.

Lemma keys_joined (g : string) (sel : JsSet) (m : JsMap LogicNode) :
  map fst (map (joined g sel) m) = map fst m.
Proof.
  rewrite map_map. apply map_ext. intros kv. unfold joined.
  now destruct (setHas (fst kv) sel && negb (isType GROUP (snd kv))).
Qed.

Lemma joinGroup_fold (g : string) (sel : list string) :
  forall m : JsMap LogicNode,
    NoDup (map fst m) ->
    fold_left (joinGroup g) sel m = map (joined g sel) m.
Proof.
  induction sel as [|i rest IH]; intros m Hnd; cbn [fold_left].
  - symmetry. apply map_same. intros kv _. reflexivity.
  - rewrite joinGroup_as_map by assumption.
    rewrite IH by (now rewrite keys_joined).
    rewrite map_map. apply map_ext. intros kv. apply joined_twice.
Qed.

Lemma NoDup_snoc A (l : list A) (x : A) :
  NoDup l -> ~ In x l -> NoDup (l ++ [x]).
Proof.
  induction l as [|a r IH]; intros Hl Hx; simpl.
  - constructor; [easy | constructor].
  - inversion Hl as [|? ? Ha Hr]; subst. constructor.
    + intros Hin. apply in_app_or in Hin. destruct Hin as [Hin|[->|[]]].
      * now apply Ha.
      * apply Hx. now left.
    + apply IH; [exact Hr|]. intros Hin. apply Hx. now right.
Qed.

Lemma selectedNodes_saveState (e : CircuitEngine) :
  selectedNodes (saveState e) = selectedNodes e.
Proof.
  unfold selectedNodes. rewrite nodes_saveState.
  destruct (saveState_fields e) as (-> & _). reflexivity.
Qed.

(** What [createGroupFromSelection] leaves when it makes a group. *)
Lemma createGroup_result (e : CircuitEngine) :
  NoDup (map fst (nodes e)) ->
  mapGet (rng e (rngPos e)) (nodes e) = None ->
  selectedNodeIds e <> [] ->
  boundingBox (filter (fun n => negb (isType GROUP n)) (selectedNodes e))
  <> None ->
  let g := rng e (rngPos e) in
  let c := createGroupFromSelection e in
  exists group,
    type group = GROUP /\ id group = g /\ groupId group = None /\
    nodes c = map (joined g (selectedNodeIds e)) (nodes e) ++ [(g, group)] /\
    wires c = wires e /\
    selectedNodeIds c
    = fold_left (fun s n => if hasGroupId g n then setAdd (id n) s else s)
        (mapValues (nodes c)) [g].
Proof.
  intros Hnd Hfresh Hsel Hbox g c. unfold c, createGroupFromSelection.
  destruct (selectedNodeIds e) as [|s0 sl] eqn:Es; [congruence|].
  rewrite <- Es in *. clear Es s0 sl Hsel.
  rewrite selectedNodes_saveState.
  destruct (boundingBox _) as [[[[minX minY] maxX] maxY]|]; [|congruence].
  destruct (saveState_fields e) as (Hs & Hr & Hp & _).
  unfold generateId, triggerUpdate. rewrite Hr, Hp. fold g.
  cbn [nodes wires selectedNodeIds set_selectedNodeIds set_nodes set_rngPos].
  rewrite Hs, nodes_saveState, wires_saveState.
  rewrite (mapSet_fresh _ g _ (nodes e) Hfresh).
  change (fold_left _ (selectedNodeIds e) (nodes e ++ [(g, ?x)]))
    with (fold_left (joinGroup g) (selectedNodeIds e) (nodes e ++ [(g, x)])).
  rewrite joinGroup_fold.
  - rewrite map_app. cbn [map].
    match goal with
    | |- context [joined g _ (g, ?x)] =>
        exists x;
        replace (joined g (selectedNodeIds e) (g, x)) with (g, x)
          by (unfold joined, isType; cbn [fst snd type NodeType_eqb negb];
              now rewrite andb_false_r)
    end.
    repeat split.
  - rewrite map_app. simpl. apply NoDup_snoc; [exact Hnd|].
    now apply mapGet_None_iff in Hfresh.
Qed.

Lemma releaseMember_step (groups : JsSet) (acc : JsMap LogicNode)
    (sel : JsSet) (kv : string * LogicNode) :
  fst (releaseMember groups (acc, sel) kv) = acc ++ [released groups kv].
Proof.
  destruct kv as [k n]. unfold releaseMember, released. cbn [fst snd].
  now destruct (strTruthy (groupId n)
                && match groupId n with
                   | Some g => setHas g groups
                   | None => false
                   end).
Qed.

Lemma releaseMember_fold (groups : JsSet) (l : JsMap LogicNode) :
  forall (acc : JsMap LogicNode) (sel : JsSet),
    fst (fold_left (releaseMember groups) l (acc, sel))
    = acc ++ map (released groups) l.
Proof.
  induction l as [|kv r IH]; intros acc sel; cbn [fold_left map].
  - now rewrite app_nil_r.
  - pose proof (releaseMember_step groups acc sel kv) as Hs.
    destruct (releaseMember groups (acc, sel) kv) as [acc1 sel1].
    cbn [fst] in Hs. rewrite IH, Hs, <- app_assoc. reflexivity.
Qed.

(** The selected GROUP nodes, when they all carry one id. *)
Lemma groupsToUngroup_single (c : CircuitEngine) (g : string) :
  (forall i n, In i (selectedNodeIds c) -> mapGet i (nodes c) = Some n ->
     isType GROUP n = true -> id n = g) ->
  (exists i n, In i (selectedNodeIds c) /\ mapGet i (nodes c) = Some n /\
     isType GROUP n = true) ->
  groupsToUngroup c = [g].
Proof.
  unfold groupsToUngroup. intros Hall Hex.
  assert (Hfold : forall (l : list string) (s : JsSet),
            (forall i n, In i l -> mapGet i (nodes c) = Some n ->
               isType GROUP n = true -> id n = g) ->
            (s = [] \/ s = [g]) ->
            let r :=
              fold_left
                (fun s i =>
                   match mapGet i (nodes c) with
                   | Some n => if isType GROUP n then setAdd (id n) s else s
                   | None => s
                   end) l s in
            (r = [] \/ r = [g]) /\
            (s = [g] -> r = [g]) /\
            ((exists i n, In i l /\ mapGet i (nodes c) = Some n /\
                isType GROUP n = true) -> r = [g])).
  { induction l as [|i l IH]; intros s Hl Hs; cbn [fold_left].
    - cbv zeta. repeat split; auto. intros (i & n & [] & _).
    - set (s1 := match mapGet i (nodes c) with
                 | Some n => if isType GROUP n then setAdd (id n) s else s
                 | None => s
                 end).
      assert (Hs1 : (s1 = [] \/ s1 = [g]) /\ (s = [g] -> s1 = [g]) /\
                    (forall n, mapGet i (nodes c) = Some n ->
                       isType GROUP n = true -> s1 = [g])).
      { unfold s1. destruct (mapGet i (nodes c)) as [n|] eqn:Hi.
        - destruct (isType GROUP n) eqn:Hg.
          + rewrite (Hl i n (or_introl eq_refl) Hi Hg).
            assert (Hadd : setAdd g s = [g]).
            { destruct Hs as [->| ->]; unfold setAdd, setHas; simpl;
                now rewrite ?String.eqb_refl. }
            rewrite Hadd. repeat split; auto.
          + repeat split; auto. intros n0 Hn0. inversion Hn0; subst.
            congruence.
        - repeat split; auto. intros n0 Hn0. discriminate. }
      destruct Hs1 as (Ha & Hb & Hc).
      destruct (IH s1) as (I1 & I2 & I3).
      + intros j n Hj. apply Hl. now right.
      + exact Ha.
      + cbv zeta in *. repeat split; auto.
        intros (j & n & [->|Hj] & Hn & Hg).
        * apply I2. now apply (Hc n).
        * apply I3. eauto. }
  destruct (Hfold (selectedNodeIds c) [] Hall (or_introl eq_refl))
    as (_ & _ & H3).
  now apply H3.
Qed.

Lemma releaseMember_fold_eq (groups : JsSet) (l acc ns : JsMap LogicNode)
    (sel sel' : JsSet) :
  fold_left (releaseMember groups) l (acc, sel) = (ns, sel') ->
  ns = acc ++ map (released groups) l.
Proof.
  intros H. rewrite <- (releaseMember_fold groups l acc sel). now rewrite H.
Qed.

Lemma In_mapGet V (m : JsMap V) (k : string) (v : V) :
  NoDup (map fst m) -> In (k, v) m -> mapGet k m = Some v.
Proof.
  intros Hnd Hin. destruct (mapGet k m) as [v'|] eqn:Hk.
  - f_equal. apply mapGet_In in Hk.
    exact (NoDup_keys_unique _ _ _ _ _ Hnd Hk Hin).
  - apply mapGet_None_iff in Hk. exfalso. apply Hk.
    change k with (fst (k, v)). now apply in_map.
Qed.

Lemma boundingBox_some (l : list LogicNode) :
  l <> [] -> boundingBox l <> None.
Proof.
  unfold boundingBox.
  assert (H : forall (r : list LogicNode) (acc : Z * Z * Z * Z),
            fold_left
              (fun acc n =>
                 let '(w, h) := getNodeDimensions n in
                 let x0 := (px (position n) - w / 2)%Z in
                 let y0 := (py (position n) - h / 2)%Z in
                 let x1 := (px (position n) + w / 2)%Z in
                 let y1 := (py (position n) + h / 2)%Z in
                 match acc with
                 | None => Some (x0, y0, x1, y1)
                 | Some (a, b, c, d) =>
                     Some (Z.min a x0, Z.min b y0, Z.max c x1, Z.max d y1)
                 end) r (Some acc) <> None).
  { induction r as [|n r IH]; intros acc; cbn [fold_left]; [discriminate|].
    destruct (getNodeDimensions n) as [w h].
    destruct acc as [[[a b] c] d]. apply IH. }
  destruct l as [|n r]; [congruence|]. intros _. cbn [fold_left].
  destruct (getNodeDimensions n) as [w h]. apply H.
Qed.

Lemma in_setAdd (i k : string) (s : JsSet) :
  In i (setAdd k s) <-> In i s \/ i = k.
Proof.
  unfold setAdd, setHas. destruct (existsb (String.eqb k) s) eqn:Hk.
  - split; [tauto|]. intros [H| ->]; [exact H|].
    apply existsb_exists in Hk. destruct Hk as (x & Hx & Heq).
    apply String.eqb_eq in Heq. now subst x.
  - rewrite in_app_iff. simpl. split; intros [H|H]; auto.
    + destruct H as [H|[]]; auto.
Qed.

Lemma in_group_selection (g : string) (l : list LogicNode) :
  forall (s : JsSet) (i : string),
    In i (fold_left (fun s n => if hasGroupId g n then setAdd (id n) s else s)
            l s)
    <-> In i s \/ exists n, In n l /\ hasGroupId g n = true /\ id n = i.
Proof.
  induction l as [|n r IH]; intros s i; cbn [fold_left].
  - split; [tauto|]. intros [H|(n & [] & _)]. exact H.
  - rewrite IH. destruct (hasGroupId g n) eqn:Hg.
    + rewrite in_setAdd. split.
      * intros [[H|H]|(m & Hm & Hgm & Him)]; auto.
        -- right. exists n. repeat split; auto. now left.
        -- right. exists m. repeat split; auto. now right.
      * intros [H|(m & [->|Hm] & Hgm & Him)]; auto.
        right. exists m. auto.
    + split.
      * intros [H|(m & Hm & Hgm & Him)]; auto.
        right. exists m. repeat split; auto. now right.
      * intros [H|(m & [->|Hm] & Hgm & Him)]; auto; [congruence|].
        right. exists m. auto.
Qed.

Lemma set_groupId_back (g : string) (n : LogicNode) :
  groupId n = None -> set_groupId None (set_groupId (Some g) n) = n.
Proof. destruct n. simpl. now intros ->. Qed.

Lemma group_ungroup (e : CircuitEngine) :
  wellKeyed (nodes e) ->
  rng e (rngPos e) <> "" ->
  mapGet (rng e (rngPos e)) (nodes e) = None ->
  (forall kv, In kv (nodes e) -> groupId (snd kv) <> Some (rng e (rngPos e))) ->
  (forall kv, In kv (nodes e) ->
     setHas (fst kv) (selectedNodeIds e) = true ->
     isType GROUP (snd kv) = false -> groupId (snd kv) = None) ->
  (exists kv, In kv (nodes e) /\
     setHas (fst kv) (selectedNodeIds e) = true /\
     isType GROUP (snd kv) = false) ->
  nodes (ungroupSelected (createGroupFromSelection e)) = nodes e /\
  wires (ungroupSelected (createGroupFromSelection e)) = wires e.
Proof.
  intros [Hnd Hid] Hne Hfresh Hnog Hfree ([k0 n0] & Hin0 & Hsel0 & Hty0).
  cbn [fst snd] in Hsel0, Hty0.
  set (g := rng e (rngPos e)) in *.
  assert (Hk0 : In k0 (selectedNodeIds e)).
  { unfold setHas in Hsel0. apply existsb_exists in Hsel0.
    destruct Hsel0 as (x & Hx & Heq). apply String.eqb_eq in Heq. now subst. }
  assert (Hsel : selectedNodeIds e <> []).
  { intros Hnil. rewrite Hnil in Hk0. destruct Hk0. }
  assert (Hbox : boundingBox
                   (filter (fun n => negb (isType GROUP n)) (selectedNodes e))
                 <> None).
  { apply boundingBox_some. intros Hnil.
    assert (Hn0 : In n0 (filter (fun n => negb (isType GROUP n))
                           (selectedNodes e))).
    { apply filter_In. split; [|now rewrite Hty0].
      unfold selectedNodes. apply in_flat_map. exists k0. split; [exact Hk0|].
      rewrite (In_mapGet _ _ _ _ Hnd Hin0). now left. }
    rewrite Hnil in Hn0. destruct Hn0. }
  destruct (createGroup_result e Hnd Hfresh Hsel Hbox)
    as (group & Hgt & Hgi & Hgg & Hn & Hw & Hs).
  fold g in Hgi, Hn, Hs.
  set (c := createGroupFromSelection e) in *.
  set (M := map (joined g (selectedNodeIds e)) (nodes e)) in *.
  (* the node map after grouping is well keyed *)
  assert (HkM : map fst M = map fst (nodes e)) by apply keys_joined.
  assert (HgM : ~ In g (map fst M)).
  { rewrite HkM. now apply mapGet_None_iff. }
  assert (Hndc : NoDup (map fst (nodes c))).
  { rewrite Hn, map_app. simpl. apply NoDup_snoc; [now rewrite HkM | exact HgM]. }
  assert (HinM : forall kv, In kv M ->
            id (snd kv) = fst kv /\
            (isType GROUP (snd kv) = true -> hasGroupId g (snd kv) = false)).
  { intros kv Hkv. unfold M in Hkv. apply in_map_iff in Hkv.
    destruct Hkv as ([k n] & <- & Hkn).
    rewrite Forall_forall in Hid. pose proof (Hid _ Hkn) as Hidn.
    pose proof (Hnog _ Hkn) as Hng. cbn [fst snd] in *.
    unfold joined, isType. cbn [fst snd].
    destruct (NodeType_eqb (type n) GROUP) eqn:Hg;
      destruct (setHas k (selectedNodeIds e)); cbn [andb negb fst snd];
      (split; [exact Hidn|]); unfold isType, hasGroupId;
      cbn [type groupId set_groupId]; rewrite ?Hg; try discriminate;
      intros _; destruct (groupId n) as [g'|]; auto;
      apply String.eqb_neq; congruence. }
  (* exactly the new group is dissolved *)
  assert (Hgroups : groupsToUngroup c = [g]).
  { apply groupsToUngroup_single.
    - intros i n Hi Hget Hty. rewrite Hs in Hi.
      apply in_group_selection in Hi.
      apply mapGet_In in Hget. rewrite Hn in Hget.
      apply in_app_or in Hget. destruct Hget as [Hget|[Hget|[]]].
      + exfalso. destruct (HinM _ Hget) as [Hidn Hnot]. cbn [fst snd] in *.
        specialize (Hnot Hty).
        destruct Hi as [[<-|[]]|(m & Hm & Hgm & Him)].
        * apply HgM. change g with (fst (g, n)). now apply in_map.
        * unfold mapValues in Hm. apply in_map_iff in Hm.
          destruct Hm as ([k' m'] & Hm' & Hkm). cbn [snd] in Hm'. subst m'.
          rewrite Hn in Hkm. apply in_app_or in Hkm.
          destruct Hkm as [Hkm|[Hkm|[]]].
          -- destruct (HinM _ Hkm) as [Hidm _]. cbn [fst snd] in Hidm.
             assert (Hk'i : k' = i) by congruence. rewrite Hk'i in Hkm.
             assert (HiM : NoDup (map fst M)) by now rewrite HkM.
             pose proof (NoDup_keys_unique _ _ _ _ _ HiM Hkm Hget). subst m.
             congruence.
          -- inversion Hkm; subst. unfold hasGroupId in Hgm.
             rewrite Hgg in Hgm. discriminate.
      + inversion Hget as [[Hig Hng]]. rewrite <- Hng. exact Hgi.
    - exists g, group. repeat split.
      + rewrite Hs. apply in_group_selection. left. now left.
      + rewrite Hn, mapGet_app.
        replace (mapGet g M) with (@None LogicNode)
          by (symmetry; now apply mapGet_None_iff).
        simpl. now rewrite String.eqb_refl.
      + unfold isType. now rewrite Hgt. }
  unfold ungroupSelected. rewrite Hgroups. cbn [fold_left].
  destruct (fold_left (releaseMember [g])
              (nodes
                 (set_selectedNodeIds
                    (setDelete g (selectedNodeIds (saveState c)))
                    (set_nodes (mapDelete g (nodes (saveState c)))
                       (saveState c))))
              ([], selectedNodeIds
                     (set_selectedNodeIds
                        (setDelete g (selectedNodeIds (saveState c)))
                        (set_nodes (mapDelete g (nodes (saveState c)))
                           (saveState c)))))
    as [ns sel'] eqn:Ef.
  apply releaseMember_fold_eq in Ef. cbn [app] in Ef.
  cbn [nodes set_selectedNodeIds set_nodes] in Ef.
  rewrite nodes_saveState, Hn, mapDelete_as_filter, filter_app in Ef.
  cbn [filter fst] in Ef. rewrite String.eqb_refl in Ef. cbn [negb] in Ef.
  rewrite app_nil_r in Ef.
  rewrite filter_all in Ef.
  2:{ intros kv Hkv. apply negb_true_iff, String.eqb_neq. intros Heq.
      apply HgM. rewrite <- Heq. now apply in_map. }
  unfold triggerUpdate. cbn [nodes wires set_selectedNodeIds set_nodes].
  rewrite wires_saveState, Hw. split; [|reflexivity].
  rewrite Ef. unfold M. rewrite map_map. apply map_same.
  intros [k n] Hkn. pose proof (Hnog _ Hkn) as Hng.
  pose proof (Hfree _ Hkn) as Hfr. cbn [fst snd] in *.
  unfold joined. cbn [fst snd].
  destruct (setHas k (selectedNodeIds e) && negb (isType GROUP n)) eqn:Hj.
  - apply andb_true_iff in Hj. destruct Hj as [Hj1 Hj2].
    apply negb_true_iff in Hj2.
    unfold released. cbn [fst snd groupId set_groupId strTruthy setHas existsb].
    apply String.eqb_neq in Hne. rewrite Hne, String.eqb_refl. cbn.
    now rewrite set_groupId_back by auto.
  - unfold released. cbn [fst snd].
    destruct (groupId n) as [g'|] eqn:Hg'; [|reflexivity].
    cbn [setHas existsb]. rewrite orb_false_r.
    replace (g' =? g) with false
      by (symmetry; apply String.eqb_neq; congruence).
    now rewrite andb_false_r.
Qed.

(** X13. Grouping and then ungrouping gives the graph back. When the
    selection holds at least one node that is no GROUP, the selected nodes
    are in no group yet and [generateId] draws a fresh, non-empty id that no
    node names as its group, [createGroupFromSelection] followed by
    [ungroupSelected] leaves the node map (order included) and the wires as
    they were. *)
Theorem X13_group_ungroup (e : CircuitEngine) :
  wellKeyed (nodes e) ->
  rng e (rngPos e) <> "" ->
  mapGet (rng e (rngPos e)) (nodes e) = None ->
  (forall kv, In kv (nodes e) -> groupId (snd kv) <> Some (rng e (rngPos e))) ->
  (forall kv, In kv (nodes e) ->
     setHas (fst kv) (selectedNodeIds e) = true ->
     isType GROUP (snd kv) = false -> groupId (snd kv) = None) ->
  (exists kv, In kv (nodes e) /\
     setHas (fst kv) (selectedNodeIds e) = true /\
     isType GROUP (snd kv) = false) ->
  nodes (ungroupSelected (createGroupFromSelection e)) = nodes e /\
  wires (ungroupSelected (createGroupFromSelection e)) = wires e.
Proof. apply group_ungroup. Qed.

Lemma X13_group_ungroup_witness :
  nodes (ungroupSelected (createGroupFromSelection demoAllSelected))
  = nodes demoAllSelected /\
  wires (ungroupSelected (createGroupFromSelection demoAllSelected))
  = wires demoAllSelected.
Proof.
  apply X13_group_ungroup.
  - apply wellKeyedb_ok. vm_compute. reflexivity.
  - vm_compute. discriminate.
  - vm_compute. reflexivity.
  - apply (proj1 (Forall_forall
                    (fun kv => groupId (snd kv)
                               <> Some (rng demoAllSelected
                                          (rngPos demoAllSelected)))
                    (nodes demoAllSelected))).
    vm_compute.
    repeat (apply Forall_cons; [discriminate|]). apply Forall_nil.
  - apply (proj1 (Forall_forall
                    (fun kv =>
                       setHas (fst kv) (selectedNodeIds demoAllSelected) = true ->
                       isType GROUP (snd kv) = false ->
                       groupId (snd kv) = None)
                    (nodes demoAllSelected))).
    vm_compute.
    repeat (apply Forall_cons; [intros _ _; reflexivity|]). apply Forall_nil.
  - exists ("n0", nodeAt "n0" demoAllSelected).
    split; [vm_compute; now left|]. split; vm_compute; reflexivity.
Defined.

(** ** Editing a node *)

(** X14. [updateNodeData] replaces the node under the given id by the node
    with the patch assigned over it and leaves every other node and the wires
    alone. When the patched node is an IC and the patch carries a non-empty
    code body, the compiled function cached for that node is dropped, so the
    next tick compiles the new body; a patch without code (a label, a
    colour) leaves the cache as it was. *)
Theorem X14_updateNodeData (i : string) (data : Patch) (e : CircuitEngine)
    (n : LogicNode) :
  mapGet i (nodes e) = Some n ->
  mapGet i (nodes (updateNodeData i data e)) = Some (assign n data) /\
  (forall k, k <> i ->
     mapGet k (nodes (updateNodeData i data e)) = mapGet k (nodes e)) /\
  wires (updateNodeData i data e) = wires e /\
  (isType IC (assign n data) = true -> patchesCode data = true ->
   mapGet (id (assign n data)) (fnCache (updateNodeData i data e)) = None /\
   forall k, k <> id (assign n data) ->
     mapGet k (fnCache (updateNodeData i data e)) = mapGet k (fnCache e)) /\
  (patchesCode data = false ->
   fnCache (updateNodeData i data e) = fnCache e).
Proof.
  intros Hi. unfold updateNodeData, triggerUpdate. rewrite Hi.
  destruct (selection_saveState e) as (_ & _ & Hc).
  assert (Hgraph :
    forall x,
      x = set_nodes (mapSet i (assign n data) (nodes (saveState e)))
            (saveState e) \/
      x = set_fnCache
            (mapDelete (id (assign n data))
               (fnCache (set_nodes (mapSet i (assign n data)
                                      (nodes (saveState e))) (saveState e))))
            (set_nodes (mapSet i (assign n data) (nodes (saveState e)))
               (saveState e)) ->
      mapGet i (nodes x) = Some (assign n data) /\
      (forall k, k <> i -> mapGet k (nodes x) = mapGet k (nodes e)) /\
      wires x = wires e).
  { intros x [-> | ->]; cbn [nodes wires set_nodes set_fnCache];
      rewrite nodes_saveState, wires_saveState;
      (split; [apply mapGet_mapSet_same|]);
      (split; [|reflexivity]);
      intros k Hk; apply mapGet_mapSet_other; congruence. }
  destruct (isType IC (assign n data) && patchesCode data) eqn:Hcond.
  - destruct (Hgraph _ (or_intror eq_refl)) as (H1 & H2 & H3).
    apply andb_true_iff in Hcond. destruct Hcond as [Hic Hp].
    repeat split; auto.
    + cbn [fnCache set_fnCache set_nodes]. rewrite mapGet_mapDelete.
      now rewrite String.eqb_refl.
    + intros k Hk. cbn [fnCache set_fnCache set_nodes].
      rewrite mapGet_mapDelete, Hc.
      apply String.eqb_neq in Hk. rewrite String.eqb_sym in Hk.
      now rewrite Hk.
    + intros Hp'. congruence.
  - destruct (Hgraph _ (or_introl eq_refl)) as (H1 & H2 & H3).
    repeat split; auto.
    + apply andb_false_iff in Hcond. destruct Hcond; congruence.
    + apply andb_false_iff in Hcond. destruct Hcond; congruence.
Qed.

Lemma X14_updateNodeData_witness :
  mapGet "n7" (nodes (updateNodeData "n7" codePatch demoPacked))
  = Some (assign (nodeAt "n7" demoPacked) codePatch) /\
  (forall k, k <> "n7" ->
     mapGet k (nodes (updateNodeData "n7" codePatch demoPacked))
     = mapGet k (nodes demoPacked)) /\
  wires (updateNodeData "n7" codePatch demoPacked) = wires demoPacked /\
  (isType IC (assign (nodeAt "n7" demoPacked) codePatch) = true ->
   patchesCode codePatch = true ->
   mapGet (id (assign (nodeAt "n7" demoPacked) codePatch))
     (fnCache (updateNodeData "n7" codePatch demoPacked)) = None /\
   forall k, k <> id (assign (nodeAt "n7" demoPacked) codePatch) ->
     mapGet k (fnCache (updateNodeData "n7" codePatch demoPacked))
     = mapGet k (fnCache demoPacked)) /\
  (patchesCode codePatch = false ->
   fnCache (updateNodeData "n7" codePatch demoPacked) = fnCache demoPacked).
Proof.
  apply X14_updateNodeData. vm_compute. reflexivity.
Defined.

(** ** Toggling a switch *)

Lemma set_nodes_same (e : CircuitEngine) : set_nodes (nodes e) e = e.
Proof. now destruct e. Qed.

Lemma mapSet_same V (k : string) (v : V) (m : JsMap V) :
  mapGet k m = Some v -> mapSet k v m = m.
Proof.
  induction m as [|[k0 v0] r IH]; simpl; [discriminate|].
  destruct (k0 =? k); intros H.
  - now inversion H.
  - now rewrite IH.
Qed.

Lemma mapSet_twice V (k : string) (v v' : V) (m : JsMap V) :
  mapSet k v (mapSet k v' m) = mapSet k v m.
Proof.
  induction m as [|[k0 v0] r IH]; simpl.
  - now rewrite String.eqb_refl.
  - destruct (k0 =? k) eqn:Hk; simpl; rewrite Hk; [reflexivity|].
    now rewrite IH.
Qed.

(** X15. On a paused simulator, toggling the same switch twice gives the
    engine back exactly as it was (no tick runs, nothing is checkpointed),
    provided output 0 of the switch held a boolean. *)
Theorem X15_toggle_twice nf (e : CircuitEngine) (s : string) (n : LogicNode)
    (b : bool) :
  isRunning e = false ->
  mapGet s (nodes e) = Some n ->
  type n = SWITCH ->
  arrGet (outputs n) 0 = Some b ->
  toggleSwitch nf s (completed (toggleSwitch nf s e)) = Normal e.
Proof.
  intros Hrun Hs Hty Hout.
  assert (H1 : toggleSwitch nf s e
               = Normal (set_nodes
                           (mapSet s (set_outputs
                                        (arrSet 0 (Some (negb b)) (outputs n)) n)
                              (nodes e)) e)).
  { unfold toggleSwitch. rewrite Hs, Hty. cbn [isRunning set_nodes].
    rewrite Hrun, Hout. now destruct b. }
  rewrite H1. cbn [completed]. unfold toggleSwitch.
  cbn [nodes set_nodes]. rewrite mapGet_mapSet_same.
  cbn [type set_outputs isRunning set_nodes nodes outputs]. rewrite Hty, Hrun.
  f_equal. rewrite mapSet_twice.
  assert (Hn : set_outputs
                 (arrSet 0
                    (jsNot (arrGet (arrSet 0 (Some (negb b)) (outputs n)) 0))
                    (arrSet 0 (Some (negb b)) (outputs n)))
                 (set_outputs (arrSet 0 (Some (negb b)) (outputs n)) n) = n).
  { destruct n as [i t p ins outs]. cbn [outputs set_outputs] in *.
    destruct outs as [|o r]; [discriminate|]. cbn in Hout. subst o.
    cbn. now destruct b. }
  rewrite Hn, mapSet_same by assumption.
  now destruct e.
Qed.

Lemma X15_toggle_twice_witness :
  toggleSwitch noCompile "n0" (completed (toggleSwitch noCompile "n0" demoWired))
  = Normal demoWired.
Proof.
  apply (X15_toggle_twice noCompile demoWired "n0" (nodeAt "n0" demoWired)
           false); vm_compute; reflexivity.
Defined.

(** ** What a tick keeps *)

(** X16. A tick never changes the shape of the graph. Whatever the time
    stamp, gated or not, and whether the evaluation ends normally or by an
    exception, the node map after [tick] holds the same keys with the same
    node types, in the same order, and the wire list joins the same pins in
    the same order; only signals and cached wire states change. *)
Theorem X16_tick_keeps_structure nf (timestamp : Z) (e : CircuitEngine) :
  keyTypes (nodes (completed (tick nf timestamp e))) = keyTypes (nodes e) /\
  map wireEnds (wires (completed (tick nf timestamp e)))
  = map wireEnds (wires e).
Proof. apply tick_skeleton. Qed.

(** X17. The cached state of every wire after a tick that runs: a wire with
    both ends present carries the boolean reading of its source pin, taken
    after the clock update of that tick and before any gate is evaluated; a
    wire with a missing end keeps the state it had. *)
Theorem X17_wire_states nf (timestamp : Z) (e : CircuitEngine) :
  accepted timestamp e = true ->
  wires (completed (tick nf timestamp e))
  = map (stamp (mapForEach resetInputs
                  (mapForEach (updateClock (S (tickCount e))) (nodes e))))
      (wires e).
Proof. apply wires_after_tick. Qed.

Lemma X17_wire_states_witness :
  wires (completed (tick noCompile (-1) demoWired))
  = map (stamp (mapForEach resetInputs
                  (mapForEach (updateClock (S (tickCount demoWired)))
                     (nodes demoWired))))
      (wires demoWired).
Proof.
  apply X17_wire_states. apply accepted_forced.
Defined.

(** X18. A graph without IC nodes never makes [tick] throw: every call ends
    normally, whatever the time stamp and the signals. *)
Theorem X18_no_IC_no_throw nf (timestamp : Z) (e : CircuitEngine) :
  Forall (fun kt => snd kt <> IC) (keyTypes (nodes e)) ->
  tick nf timestamp e = Normal (completed (tick nf timestamp e)).
Proof. apply tick_noIC. Qed.

Lemma X18_no_IC_no_throw_witness :
  tick noCompile (-1) demoWired
  = Normal (completed (tick noCompile (-1) demoWired)).
Proof.
  apply X18_no_IC_no_throw. vm_compute.
  repeat (apply Forall_cons; [discriminate|]). apply Forall_nil.
Defined.

(** ** An IC that throws while it runs *)





(** ** Pins and ports of an IC *)

Lemma in_combine_seq A (l : list A) (d : A) :
  forall (k p : nat) (x : A),
    In (p, x) (combine (seq k (List.length l)) l)
    <-> k <= p /\ p - k < List.length l /\ nth (p - k) l d = x.
Proof.
  induction l as [|h r IH]; intros k p x; simpl.
  - split; [tauto | intros (_ & H & _); lia].
  - rewrite IH. split.
    + intros [Heq|(H1 & H2 & H3)].
      * inversion Heq; subst. rewrite Nat.sub_diag. repeat split; lia.
      * replace (p - k) with (S (p - S k)) by lia. repeat split; auto; lia.
    + intros (H1 & H2 & H3). destruct (Nat.eq_dec p k) as [->|Hne].
      * left. rewrite Nat.sub_diag in H3. now subst.
      * right. replace (p - k) with (S (p - S k)) in H3 by lia.
        repeat split; auto; lia.
Qed.

Lemma snd_combine_seq A (l : list A) :
  forall k, map snd (combine (seq k (List.length l)) l) = l.
Proof.
  induction l as [|h r IH]; intros k; simpl; [reflexivity|]. now rewrite IH.
Qed.

Lemma fst_combine_seq A (l : list A) :
  forall k, map fst (combine (seq k (List.length l)) l)
            = seq k (List.length l).
Proof.
  induction l as [|h r IH]; intros k; simpl; [reflexivity|]. now rewrite IH.
Qed.

(** The loop of [mapInputs] over a mapping whose ports are distinct. *)
Lemma mapInputs_fold (i : Signals) (l : list (nat * option nat)) :
  forall (acc : Signals) (p q : nat),
    NoDup (map snd l) ->
    In (p, Some q) l ->
    arrGet
      (fold_left
         (fun acc kv =>
            match snd kv with
            | Some portIdx => arrSet portIdx (arrGet i (fst kv)) acc
            | None => acc
            end) l acc) q
    = arrGet i p.
Proof.
  assert (Hkeep : forall (r : list (nat * option nat)) (acc : Signals) (q : nat),
            ~ In (Some q) (map snd r) ->
            arrGet
              (fold_left
                 (fun acc kv =>
                    match snd kv with
                    | Some portIdx => arrSet portIdx (arrGet i (fst kv)) acc
                    | None => acc
                    end) r acc) q
            = arrGet acc q).
  { induction r as [|[p0 o0] r IH]; intros acc q Hq; cbn [fold_left];
      [reflexivity|].
    simpl in Hq. destruct o0 as [q0|]; cbn [snd fst].
    - rewrite IH by tauto. apply arrGet_arrSet_other. intros ->. tauto.
    - apply IH. tauto. }
  induction l as [|[p0 o0] r IH]; intros acc p q Hnd Hin; [easy|].
  simpl in Hnd. inversion Hnd as [|? ? Ho Hr]; subst.
  destruct Hin as [Heq|Hin].
  - inversion Heq; subst. cbn [fold_left fst snd].
    rewrite Hkeep by assumption. apply arrGet_arrSet_same.
  - cbn [fold_left]. now apply IH.
Qed.

(** X20. Pins to ports. With an input mapping whose ports are all distinct
    (a permutation in particular), the array handed to the compiled body of
    an IC holds at port [m[p]] the value of input pin [p], for every pin of
    the mapping: no pin value is lost or overwritten by another pin. *)
Theorem X20_pins_to_ports (node : LogicNode) (m : list (option nat))
    (p q : nat) :
  inputMapping node = Some m ->
  NoDup m ->
  arrGet m p = Some q ->
  arrGet (mapInputs node) q = arrGet (inputs node) p.
Proof.
  intros Hm Hnd Hp. unfold mapInputs. rewrite Hm.
  apply mapInputs_fold.
  - unfold indexed. now rewrite snd_combine_seq.
  - unfold indexed. apply (in_combine_seq _ m None 0 p (Some q)).
    rewrite Nat.sub_0_r. unfold arrGet in Hp. repeat split; [lia| |exact Hp].
    destruct (Nat.lt_ge_cases p (List.length m)) as [Hlt|Hge]; [exact Hlt|].
    rewrite nth_overflow in Hp by assumption. discriminate.
Qed.

Lemma X20_pins_to_ports_witness :
  arrGet (mapInputs (nodeAt "n7" demoRemapped)) 1
  = arrGet (inputs (nodeAt "n7" demoRemapped)) 0.
Proof.
  apply (X20_pins_to_ports (nodeAt "n7" demoRemapped) [Some 1; Some 0] 0 1).
  - vm_compute. reflexivity.
  - apply (NoDup_map_Some nat [1; 0]).
    repeat constructor; simpl; intuition discriminate.
  - reflexivity.
Defined.

Lemma mapOutputs_fold (outs : list JsVal) (l : list (nat * option nat)) :
  forall (acc : list (option JsVal)) (p q : nat),
    NoDup (map fst l) ->
    In (p, Some q) l ->
    arrGet
      (fold_left
         (fun acc kv =>
            match snd kv with
            | Some portIdx =>
                arrSet (fst kv) (Some (nth portIdx outs VUndef)) acc
            | None => acc
            end) l acc) p
    = Some (nth q outs VUndef).
Proof.
  assert (Hkeep : forall (r : list (nat * option nat))
                         (acc : list (option JsVal)) (p : nat),
            ~ In p (map fst r) ->
            arrGet
              (fold_left
                 (fun acc kv =>
                    match snd kv with
                    | Some portIdx =>
                        arrSet (fst kv) (Some (nth portIdx outs VUndef)) acc
                    | None => acc
                    end) r acc) p
            = arrGet acc p).
  { induction r as [|[p0 o0] r IH]; intros acc p Hp; cbn [fold_left];
      [reflexivity|].
    simpl in Hp. destruct o0 as [q0|]; cbn [snd fst].
    - rewrite IH by tauto. apply arrGet_arrSet_other. intros ->. tauto.
    - apply IH. tauto. }
  induction l as [|[p0 o0] r IH]; intros acc p q Hnd Hin; [easy|].
  simpl in Hnd. inversion Hnd as [|? ? Ho Hr]; subst.
  destruct Hin as [Heq|Hin].
  - inversion Heq; subst. cbn [fold_left fst snd].
    rewrite Hkeep by assumption. apply arrGet_arrSet_same.
  - cbn [fold_left]. now apply IH.
Qed.

Lemma arrGet_map A B (f : A -> B) (a : list (option A)) (p : nat) :
  arrGet (map (option_map f) a) p = option_map f (arrGet a p).
Proof.
  unfold arrGet.
  change (@None B) with (option_map f (@None A)). apply map_nth.
Qed.

(** X21. Ports to pins. With an output mapping, output pin [p] of an IC
    receives what the compiled body returned at port [m[p]], read as
    [=== 1]: a port the body did not return reads as [false], and a port may
    feed several pins. *)
Theorem X21_ports_to_pins (node : LogicNode) (m : list (option nat))
    (outs : list JsVal) (p q : nat) :
  outputMapping node = Some m ->
  arrGet m p = Some q ->
  arrGet (mapOutputs node outs) p = Some (isOne (nth q outs VUndef)).
Proof.
  intros Hm Hp. unfold mapOutputs. rewrite Hm, arrGet_map.
  rewrite (mapOutputs_fold outs (indexed m) _ p q); [reflexivity| |].
  - unfold indexed. rewrite fst_combine_seq. apply seq_NoDup.
  - unfold indexed. apply (in_combine_seq _ m None 0 p (Some q)).
    rewrite Nat.sub_0_r. unfold arrGet in Hp. repeat split; [lia| |exact Hp].
    destruct (Nat.lt_ge_cases p (List.length m)) as [Hlt|Hge]; [exact Hlt|].
    rewrite nth_overflow in Hp by assumption. discriminate.
Qed.

Lemma X21_ports_to_pins_witness :
  arrGet (mapOutputs (nodeAt "n7" demoRemapped) [VNum 1]) 0
  = Some (isOne (nth 0 [VNum 1] VUndef)).
Proof.
  apply (X21_ports_to_pins (nodeAt "n7" demoRemapped) [Some 0] [VNum 1] 0 0).
  - vm_compute. reflexivity.
  - reflexivity.
Defined.

(** ** Hit testing *)

Lemma find_rev_last A (f : A -> bool) (l : list A) (x : A) :
  find f (rev l) = Some x ->
  exists pre post,
    l = pre ++ x :: post /\ f x = true /\ forall y, In y post -> f y = false.
Proof.
  induction l as [|a r IH] using rev_ind; intros H; [discriminate|].
  rewrite rev_app_distr in H. simpl in H.
  destruct (f a) eqn:Hfa.
  - inversion H; subst. exists r, []. repeat split; auto. intros y [].
  - destruct (IH H) as (pre & post & -> & Hx & Hpost).
    exists pre, (post ++ [a]). rewrite <- app_assoc. repeat split; auto.
    intros y Hy. apply in_app_or in Hy. destruct Hy as [Hy|[->|[]]]; auto.
Qed.

(** X22. [findNodeAt] returns the topmost node under the point: the id it
    returns is the id of a node whose rectangle covers the point, and no
    node inserted after that one covers it; it returns nothing exactly when
    no node covers the point. *)
Theorem X22_findNodeAt_topmost (pos : Vector2) (e : CircuitEngine) :
  match findNodeAt pos e with
  | Some i =>
      exists pre n post,
        mapValues (nodes e) = pre ++ n :: post /\
        id n = i /\ covers pos n = true /\
        forall m, In m post -> covers pos m = false
  | None => forall n, In n (mapValues (nodes e)) -> covers pos n = false
  end.
Proof.
  unfold findNodeAt.
  destruct (find (covers pos) (rev (mapValues (nodes e)))) as [n|] eqn:Hf.
  - cbn [option_map]. destruct (find_rev_last _ _ _ _ Hf)
      as (pre & post & Hl & Hc & Hpost).
    exists pre, n, post. auto.
  - cbn [option_map]. intros n Hn.
    apply (find_none _ _ Hf). now apply in_rev in Hn.
Qed.

(** ** The chip library *)

(** X23. A chip saved to the library and placed again. [saveToLibrary] on
    an IC stores an item under the new id and keeps every other item;
    placing that item on the canvas ([libraryItemToNodeTemplate], then
    [addNode] with type IC) gives an IC with the code body, truth table,
    equations and port labels of the saved node, its label (or "Untitled
    Chip"), its declared pin counts (0 when undeclared) and that many pins,
    all [false]. The pin mappings and the internal state of the saved node
    are not part of a library item: the placed chip has none. *)
Theorem X23_library_round_trip (newId : string) (now : Z) (node : LogicNode)
    (lib : JsMap Library.LibraryItem) (pos : Vector2) (e : CircuitEngine) :
  type node = IC ->
  exists item lib',
    Library.saveToLibrary newId now node lib = Some (newId, lib') /\
    mapGet newId lib' = Some item /\
    (forall k, k <> newId -> mapGet k lib' = mapGet k lib) /\
    let placed :=
      nodeAt (rng e (rngPos e))
        (snd (addNode IC pos (Some (Library.libraryItemToNodeTemplate item)) e))
    in
    type placed = IC /\
    compiledFunction placed = compiledFunction node /\
    truthTable placed = truthTable node /\
    equations placed = equations node /\
    ioMap placed = ioMap node /\
    label placed = Some (labelOr (label node) "Untitled Chip") /\
    inputCount placed = Some (Library.orElse (inputCount node) 0) /\
    outputCount placed = Some (Library.orElse (outputCount node) 0) /\
    inputs placed
    = repeat (Some false) (Library.orElse (inputCount node) 0) /\
    outputs placed
    = repeat (Some false) (Library.orElse (outputCount node) 0) /\
    inputMapping placed = None /\
    outputMapping placed = None /\
    internalState placed = None.
Proof.
  intros Hty. unfold Library.saveToLibrary. rewrite Hty.
  eexists. eexists. split; [reflexivity|].
  split; [apply mapGet_mapSet_same|].
  split; [intros k Hk; apply mapGet_mapSet_other; congruence|].
  cbv zeta. unfold addNode, generateId, triggerUpdate, nodeAt.
  destruct (saveState_fields e) as (_ & Hr & Hp & _ & _).
  cbn [fst snd nodes set_nodes set_rngPos].
  rewrite Hr, Hp, mapGet_mapSet_same.
  rewrite <- !fill_newArray.
  destruct (inputCount node), (outputCount node); cbn; repeat split.
Qed.

Lemma X23_library_round_trip_witness :
  exists item lib',
    Library.saveToLibrary "lib0" 0 (nodeAt "n7" demoPacked) []
    = Some ("lib0", lib') /\
    mapGet "lib0" lib' = Some item /\
    (forall k, k <> "lib0" -> mapGet k lib' = mapGet k []) /\
    let placed :=
      nodeAt (rng demoPacked (rngPos demoPacked))
        (snd (addNode IC (mkVector2 0 0)
                (Some (Library.libraryItemToNodeTemplate item)) demoPacked))
    in
    type placed = IC /\
    compiledFunction placed = compiledFunction (nodeAt "n7" demoPacked) /\
    truthTable placed = truthTable (nodeAt "n7" demoPacked) /\
    equations placed = equations (nodeAt "n7" demoPacked) /\
    ioMap placed = ioMap (nodeAt "n7" demoPacked) /\
    label placed
    = Some (labelOr (label (nodeAt "n7" demoPacked)) "Untitled Chip") /\
    inputCount placed
    = Some (Library.orElse (inputCount (nodeAt "n7" demoPacked)) 0) /\
    outputCount placed
    = Some (Library.orElse (outputCount (nodeAt "n7" demoPacked)) 0) /\
    inputs placed
    = repeat (Some false)
        (Library.orElse (inputCount (nodeAt "n7" demoPacked)) 0) /\
    outputs placed
    = repeat (Some false)
        (Library.orElse (outputCount (nodeAt "n7" demoPacked)) 0) /\
    inputMapping placed = None /\
    outputMapping placed = None /\
    internalState placed = None.
Proof.
  apply (X23_library_round_trip "lib0" 0 (nodeAt "n7" demoPacked) []
           (mkVector2 0 0) demoPacked).
  vm_compute. reflexivity.
Defined.

(** ** The circuit store *)

Lemma length_mapSet V (k : string) (v v' : V) (m : JsMap V) :
  List.length (mapSet k v m) = List.length (mapSet k v' m).
Proof.
  induction m as [|[k0 v0] r IH]; simpl; [reflexivity|].
  destruct (k0 =? k); simpl; [reflexivity|]. now rewrite IH.
Qed.

(** X24. Saving a circuit and saving it again. [saveCircuit] without an id
    stores the record under the drawn id, stamped with the time of the call
    as both dates, and [loadCircuit] returns it. Saving again under the id
    it returned replaces the content and [updatedAt] but keeps the id and
    [createdAt]; the store holds as many records as after the first save,
    every other record is as it was before both, and [deleteCircuit] then
    removes the record. *)
Theorem X24_saveCircuit_again (newId : string) (now : Z) (name : string)
    (ns : list LogicNode) (ws : list Wire) (vp : Viewport)
    (db : JsMap Library.SavedCircuit)
    (newId' : string) (now' : Z) (name' : string)
    (ns' : list LogicNode) (ws' : list Wire) (vp' : Viewport) :
  newId <> "" -> now <> 0%Z ->
  let saved := Library.saveCircuit newId now name ns ws vp None db in
  let again :=
    Library.saveCircuit newId' now' name' ns' ws' vp' (Some (fst saved))
      (snd saved) in
  fst saved = newId /\
  Library.loadCircuit newId (snd saved)
  = Some (Library.mkCircuit newId name ns ws vp now now) /\
  fst again = newId /\
  Library.loadCircuit newId (snd again)
  = Some (Library.mkCircuit newId name' ns' ws' vp' now now') /\
  List.length (snd again) = List.length (snd saved) /\
  (forall k, k <> newId ->
     Library.loadCircuit k (snd again) = Library.loadCircuit k db) /\
  Library.loadCircuit newId (Library.deleteCircuit newId (snd again)) = None.
Proof.
  intros Hid Hnow. cbv zeta.
  unfold Library.saveCircuit, Library.loadCircuit, Library.deleteCircuit.
  cbn [strTruthy fst snd Library.orElse].
  apply String.eqb_neq in Hid. rewrite Hid. cbn [negb].
  rewrite !mapGet_mapSet_same. cbn [Library.sc_createdAt].
  apply Z.eqb_neq in Hnow. rewrite Hnow.
  repeat split.
  - rewrite mapSet_twice. apply length_mapSet.
  - intros k Hk. rewrite !mapGet_mapSet_other by congruence. reflexivity.
  - rewrite mapGet_mapDelete. now rewrite String.eqb_refl.
Qed.

Lemma X24_saveCircuit_again_witness :
  let saved :=
    Library.saveCircuit "c0" 5 "demo" (mapValues (nodes demoWired))
      (wires demoWired) (viewport demoWired) None [] in
  let again :=
    Library.saveCircuit "c1" 9 "demo 2" [] [] (viewport demoWired)
      (Some (fst saved)) (snd saved) in
  fst saved = "c0" /\
  Library.loadCircuit "c0" (snd saved)
  = Some (Library.mkCircuit "c0" "demo" (mapValues (nodes demoWired))
            (wires demoWired) (viewport demoWired) 5 5) /\
  fst again = "c0" /\
  Library.loadCircuit "c0" (snd again)
  = Some (Library.mkCircuit "c0" "demo 2" [] [] (viewport demoWired) 5 9) /\
  List.length (snd again) = List.length (snd saved) /\
  (forall k, k <> "c0" ->
     Library.loadCircuit k (snd again) = Library.loadCircuit k []) /\
  Library.loadCircuit "c0" (Library.deleteCircuit "c0" (snd again)) = None.
Proof.
  apply (X24_saveCircuit_again "c0" 5 "demo" (mapValues (nodes demoWired))
           (wires demoWired) (viewport demoWired) []
           "c1" 9 "demo 2" [] [] (viewport demoWired)).
  - discriminate.
  - discriminate.
Defined.

(** ** The interface of a packed chip *)

Lemma length_insertBy A (le : A -> A -> bool) (x : A) (l : list A) :
  List.length (insertBy le x l) = S (List.length l).
Proof.
  induction l as [|h r IH]; simpl; [reflexivity|].
  destruct (le h x); simpl; [now rewrite IH | reflexivity].
Qed.

Lemma length_sortBy A (le : A -> A -> bool) (l : list A) :
  List.length (sortBy le l) = List.length l.
Proof.
  unfold sortBy.
  assert (H : forall acc,
            List.length (fold_left (fun acc x => insertBy le x acc) l acc)
            = (List.length l + List.length acc)%nat).
  { induction l as [|x r IH]; intros acc; simpl; [reflexivity|].
    rewrite IH, length_insertBy. lia. }
  rewrite H. simpl. lia.
Qed.

(** X25. The interface of the chip [packGroupToIC] builds. When the selected
    group has a switch or a light among its members, the node left under the
    id of the group is an IC with one input pin per member switch and one
    output pin per member light: the declared counts, the pin arrays (all
    [false]), the port labels and the two pin mappings (pin [k] on port [k])
    have these sizes, the width is 100 and the height 20 per pin of the
    longer side plus 40. *)
Theorem X25_pack_interface (e : CircuitEngine) (g : string)
    (groupNode : LogicNode) :
  findSelected GROUP e = Some g ->
  g <> "" ->
  mapGet g (nodes e) = Some groupNode ->
  existsb (fun n => isType SWITCH n || isType LIGHT n) (membersOf g e) = true ->
  let nIn := List.length (filter (isType SWITCH) (membersOf g e)) in
  let nOut := List.length (filter (isType LIGHT) (membersOf g e)) in
  exists ic labels,
    mapGet g (nodes (packGroupToIC e)) = Some ic /\
    type ic = IC /\
    inputCount ic = Some nIn /\
    outputCount ic = Some nOut /\
    inputs ic = repeat (Some false) nIn /\
    outputs ic = repeat (Some false) nOut /\
    inputMapping ic = Some (map Some (seq 0 nIn)) /\
    outputMapping ic = Some (map Some (seq 0 nOut)) /\
    ioMap ic = Some labels /\
    List.length (io_inputs labels) = nIn /\
    List.length (io_outputs labels) = nOut /\
    width ic = Some 100%Z /\
    height ic = Some (Z.of_nat (Nat.max nIn nOut) * 20 + 40)%Z.
Proof.
  intros Hsel Hne Hk Hpack. cbv zeta. unfold packGroupToIC.
  apply String.eqb_neq in Hne. rewrite Hsel, Hne, Hk.
  fold (membersOf g e). set (members := membersOf g e) in *.
  rewrite <- (length_sortBy _ byY (filter (isType SWITCH) members)).
  rewrite <- (length_sortBy _ byY (filter (isType LIGHT) members)).
  assert (Hlab : forall (d : string) (l : list LogicNode),
            List.length
              (map (fun kn : nat * LogicNode =>
                      labelOr (label (snd kn)) (d ^^ showNat (fst kn)))
                 (indexed l)) = List.length l).
  { intros d l. unfold indexed.
    rewrite length_map, length_combine, length_seq. lia. }
  destruct (sortBy byY (filter (isType SWITCH) members)) as [|i0 ir] eqn:Ei;
    [destruct (sortBy byY (filter (isType LIGHT) members)) as [|o0 or] eqn:Eo|].
  - apply sortBy_nil, filter_nil_existsb in Ei.
    apply sortBy_nil, filter_nil_existsb in Eo.
    rewrite existsb_orb, Ei, Eo in Hpack. discriminate.
  - unfold triggerUpdate. cbn [nodes set_selectedNodeIds set_nodes].
    rewrite mapGet_mapSet_same. eexists. eexists.
    split; [reflexivity|].
    cbn [type inputCount outputCount inputs outputs inputMapping
         outputMapping ioMap width height io_inputs io_outputs].
    repeat split; try apply fill_newArray; try reflexivity; apply Hlab.
  - unfold triggerUpdate. cbn [nodes set_selectedNodeIds set_nodes].
    rewrite mapGet_mapSet_same. eexists. eexists.
    split; [reflexivity|].
    cbn [type inputCount outputCount inputs outputs inputMapping
         outputMapping ioMap width height io_inputs io_outputs].
    repeat split; try apply fill_newArray; try reflexivity; apply Hlab.
Qed.

Lemma X25_pack_interface_witness :
  let nIn := List.length (filter (isType SWITCH) (membersOf "n7" demoGrouped)) in
  let nOut := List.length (filter (isType LIGHT) (membersOf "n7" demoGrouped)) in
  exists ic labels,
    mapGet "n7" (nodes (packGroupToIC demoGrouped)) = Some ic /\
    type ic = IC /\
    inputCount ic = Some nIn /\
    outputCount ic = Some nOut /\
    inputs ic = repeat (Some false) nIn /\
    outputs ic = repeat (Some false) nOut /\
    inputMapping ic = Some (map Some (seq 0 nIn)) /\
    outputMapping ic = Some (map Some (seq 0 nOut)) /\
    ioMap ic = Some labels /\
    List.length (io_inputs labels) = nIn /\
    List.length (io_outputs labels) = nOut /\
    width ic = Some 100%Z /\
    height ic = Some (Z.of_nat (Nat.max nIn nOut) * 20 + 40)%Z.
Proof.
  apply (X25_pack_interface demoGrouped "n7" (nodeAt "n7" demoGrouped)).
  - vm_compute. reflexivity.
  - discriminate.
  - vm_compute. reflexivity.
  - vm_compute. reflexivity.
Defined.
